(** * naplib.encoding.trf: a shallow embedding of the TRF estimator

    This development embeds [naplib/encoding/trf.py] (class [TRF] and the
    module-level generator [_xval_time_splits]) together with the part of
    [naplib/out_struct.py] that [TRF] reads, and checks the properties the
    specification states about them.  The class [OutStruct] and [join_fields]
    of [naplib/out_struct.py] are embedded a second time on their own, as
    objects in a store of shared dicts and lists (module [out_struct]).

    Conventions of the embedding.
    - Python floats are idealised as rationals ([Q]); rounding errors of the
      IEEE arithmetic and NaN are outside the model.
    - Python integers are [Z]; lengths are [nat].
    - A raised exception is a value of [exn]; a call that may raise returns a
      [result].
    - Attributes that exist only after an assignment ([hasattr]) are options.
    - The numerical kernels of [mne] and [numpy] ([ReceptiveField],
      [_compute_corrs], [_fit_corrs], the scorers, [np.hamming]) are external
      to the repository: they are the fields of the class [Externals]. *)

From Stdlib Require Import ZArith QArith Qround Lia Lqa List String Bool.
From stdpp Require Import base list gmap strings.
Import ListNotations.

(** ** Python built-ins *)

Module py.

(** [round(x)] on a float: nearest integer, ties to the even one. *)
Definition round (x : Q) : Z :=
let f := Qfloor x in
match Qcompare (x - inject_Z f) (1 # 2) with
| Lt => f
| Gt => (f + 1)%Z
| Eq => if Z.even f then f else (f + 1)%Z
end.

(** [int(x)] on a finite float: truncation toward zero. *)
Definition int (x : Q) : Z :=
if Qle_bool 0 x then Qfloor x else Qceiling x.

(** [range(start, stop, step)] for a non-zero [step]. *)
Definition range (start stop step : Z) : list Z :=
let n :=
  if (0 <? step)%Z then ((stop - start + step - 1) / step)%Z
  else if (step <? 0)%Z then ((start - stop - step - 1) / (- step))%Z
  else 0%Z in
map (fun k => (start + Z.of_nat k * step)%Z) (seq 0 (Z.to_nat n)).

End py.

(** ** NumPy index primitives *)

Module np.

(** [np.arange(start, stop)] on integers. *)
Definition arange (start stop : Z) : list Z :=
map (fun k => (start + Z.of_nat k)%Z) (seq 0 (Z.to_nat (stop - start))).

(** [np.floor(x).astype('int')]. *)
Definition floor (x : Q) : Z := Qfloor x.

(** [data[start:stop]] along axis 0, for [0 <= start]. *)
Definition slice {A} (data : list A) (start stop : Z) : list A :=
take (Z.to_nat stop - Z.to_nat start) (drop (Z.to_nat start) data).

(** [np.delete(data, slice(start, stop), axis=0)], for [0 <= start]. *)
Definition delete {A} (data : list A) (start stop : Z) : list A :=
take (Z.to_nat start) data
  ++ drop (Nat.max (Z.to_nat start) (Z.to_nat stop)) data.

(** [np.argmax] of a one-dimensional array: first index of the maximum. *)
Fixpoint argmax_from (best : Q) (ibest i : nat) (l : list Q) : nat :=
match l with
| [] => ibest
| x :: l' =>
    if Qlt_le_dec best x then argmax_from x i (S i) l'
    else argmax_from best ibest (S i) l'
end.

Definition argmax (l : list Q) : nat :=
match l with
| [] => 0%nat
| x :: l' => argmax_from x 0 1 l'
end.

End np.

(** ** Exceptions *)

Inductive exn : Type :=
| ValueError (msg : string)
| TypeError (msg : string)
| KeyError (key : string)
| IndexError
| AttributeError (attr : string)
| AssertionError
| ZeroDivisionError
| OverflowError
| LinAlgError.

Inductive result (A : Type) : Type :=
| Ok (a : A)
| Raise (e : exn).
Arguments Ok {A} a.
Arguments Raise {A} e.

Definition bind {A B} (r : result A) (k : A -> result B) : result B :=
  match r with
  | Ok a => k a
  | Raise e => Raise e
  end.

Declare Scope result_scope.
Delimit Scope result_scope with result.
Notation "'let*' x ':=' r 'in' k" := (bind r (fun x => k))
  (at level 10, x pattern, r at level 100, k at level 200) : result_scope.
Open Scope result_scope.

Fixpoint mapM {A B} (f : A -> result B) (l : list A) : result (list B) :=
  match l with
  | [] => Ok []
  | a :: l' =>
      let* b := f a in
      let* bs := mapM f l' in
      Ok (b :: bs)
  end.

(** The messages of the errors [TRF] raises itself (the interpolated values
    of the f-strings are left out). *)
Definition msg_tmin_tmax : string := "tmin must be less than tmax".
Definition msg_xval_portion : string :=
  "xval_test_portion must be no more than 0.5 if multiple alphas were given".
Definition msg_coef_before_fit : string :=
  "Must call fit() first before accessing coef_ attribute.".
Definition msg_predict_before_fit : string :=
  "Must call .fit() before can call .predict()".
Definition msg_score_before_fit : string :=
  "Must call .fit() before can call .score()".
Definition msg_y_shape : string := "True y values are incorrect shape.".

(** The errors NumPy raises on the paths the model follows. *)
Definition msg_concatenate_empty : string :=
  "need at least one array to concatenate".
Definition msg_concatenate_dims : string :=
  "all the input array dimensions must match".
Definition msg_broadcast : string := "operands could not be broadcast together".
Definition msg_int_nan : string := "cannot convert float NaN to integer".
Definition msg_average_weights : string :=
  "Length of weights not compatible with specified axis.".
Definition msg_reshape : string := "cannot reshape array".
Definition msg_transpose : string := "axes don't match array".
Definition msg_inhomogeneous : string := "inhomogeneous shape".
Definition msg_argmax_empty : string :=
  "attempt to get argmax of an empty sequence".
Definition msg_axis : string := "axis 0 is out of bounds".

(** A configuration error: one of the two [ValueError]s of [__init__]. *)
Definition is_configuration_error (e : exn) : bool :=
  match e with
  | ValueError m =>
      bool_decide (m = msg_tmin_tmax) || bool_decide (m = msg_xval_portion)
  | _ => false
  end.

(** A state error: one of the three "call fit first" [ValueError]s. *)
Definition is_state_error (e : exn) : bool :=
  match e with
  | ValueError m =>
      bool_decide (m = msg_coef_before_fit)
      || bool_decide (m = msg_predict_before_fit)
      || bool_decide (m = msg_score_before_fit)
  | _ => false
  end.

(** ** Arrays

    An [ndarray] of shape [(T, d1, ..., dk)] is kept time-major: one flat row
    (C order) of [d1 * ... * dk] numbers per index of axis 0, with the
    trailing shape [[d1; ...; dk]] beside it, so that an array without rows
    still has its trailing shape. *)

Record ndarray : Type := mk_array { trailing : list nat; rows : list (list Q) }.

Definition shape (a : ndarray) : list nat := length (rows a) :: trailing a.
Definition ndim (a : ndarray) : nat := S (length (trailing a)).
Definition row_size (tr : list nat) : nat := fold_right Nat.mul 1%nat tr.
Definition well_shaped (a : ndarray) : Prop :=
  Forall (fun r => length r = row_size (trailing a)) (rows a).

(** [a.shape[1]]. *)
Definition shape1 (a : ndarray) : result nat :=
  match trailing a with
  | c :: _ => Ok c
  | [] => Raise IndexError
  end.

(** [a.shape[-1]]. *)
Definition shape_last (a : ndarray) : nat := List.last (shape a) 0%nat.

(** [np.concatenate(l, axis=0)]. *)
Definition concatenate (l : list ndarray) : result ndarray :=
  match l with
  | [] => Raise (ValueError msg_concatenate_empty)
  | a :: l' =>
      if forallb (fun b => bool_decide (trailing b = trailing a)) l'
      then Ok (mk_array (trailing a) (concat (map rows l)))
      else Raise (ValueError msg_concatenate_dims)
  end.

(** [a.reshape(-1, 1)]. *)
Definition reshape_col (a : ndarray) : ndarray :=
  mk_array [1%nat] (map (fun x => [x]) (concat (rows a))).

(** [a[:, np.newaxis]], [a[:, np.newaxis, :]]: a unit axis after axis 0. *)
Definition newaxis1 (a : ndarray) : ndarray :=
  mk_array (1%nat :: trailing a) (rows a).

(** [a[np.newaxis]]: a unit axis in front. *)
Definition newaxis0 (a : ndarray) : ndarray :=
  mk_array (shape a) [concat (rows a)].

(** [a[:, idx]]. *)
Definition take_channel (a : ndarray) (idx : nat) : result ndarray :=
  match trailing a with
  | c :: tr =>
      if (idx <? c)%nat then
        Ok (mk_array tr
              (map (fun r => take (row_size tr) (drop (idx * row_size tr) r))
                   (rows a)))
      else Raise IndexError
  | [] => Raise IndexError
  end.

(** Cut a flat row into consecutive pieces of [d] numbers ([n] of them). *)
Fixpoint chunks (n d : nat) (r : list Q) : list (list Q) :=
  match n with
  | O => []
  | S n' => take d r :: chunks n' d (drop d r)
  end.

(** [a[:, :-1]]: the last index of axis 1 is dropped. *)
Definition drop_last_axis1 (a : ndarray) : result ndarray :=
  match trailing a with
  | n1 :: rest =>
      Ok (mk_array (Nat.pred n1 :: rest)
            (map (take (Nat.pred n1 * row_size rest)) (rows a)))
  | [] => Raise IndexError
  end.

(** [a[:, :, :-1]]: the last index of axis 2 is dropped. *)
Definition drop_last_axis2 (a : ndarray) : result ndarray :=
  match trailing a with
  | n1 :: n2 :: rest =>
      let m := row_size rest in
      Ok (mk_array (n1 :: Nat.pred n2 :: rest)
            (map (fun r =>
                    concat (map (take (Nat.pred n2 * m)) (chunks n1 (n2 * m) r)))
                 (rows a)))
  | _ => Raise IndexError
  end.

(** [a[np.newaxis, :, :, :]]. *)
Definition newaxis0_3 (a : ndarray) : result ndarray :=
  if (ndim a <? 3)%nat then Raise IndexError else Ok (newaxis0 a).

(** [np.concatenate(l, axis=1)]. *)
Definition concatenate_axis1 (l : list ndarray) : result ndarray :=
  match l with
  | [] => Raise (ValueError msg_concatenate_empty)
  | a :: l' =>
      match trailing a with
      | [] => Raise (ValueError msg_concatenate_dims)
      | _ :: rest =>
          if forallb (fun b => bool_decide (tail (trailing b) = rest)
                               && bool_decide (trailing b <> [])
                               && (length (rows b) =? length (rows a))%nat) l'
          then Ok (mk_array (list_sum (map (fun b => hd 0%nat (trailing b)) l) :: rest)
                     (map (fun t => concat (map (fun b => nth t (rows b) []) l))
                          (seq 0 (length (rows a)))))
          else Raise (ValueError msg_concatenate_dims)
      end
  end.

(** [a.reshape(a.shape[0], 1, -1)]. *)
Definition reshape_T_1_rest (a : ndarray) : result ndarray :=
  match rows a with
  | [] => Raise (ValueError msg_reshape)
  | _ => Ok (mk_array [1%nat; row_size (trailing a)] (rows a))
  end.

(** [a.transpose(0, 2, 1).reshape(-1, a.shape[1])] of a 3-axis array of
    shape [(T, C, F)]: one row of [C] numbers per time index and feature. *)
Definition flatten_features (a : ndarray) : result ndarray :=
  match trailing a with
  | [C; F] =>
      Ok (mk_array [C]
            (concat (map (fun r =>
                            map (fun f => map (fun ch => nth f ch 0%Q)
                                              (chunks C F r))
                                (seq 0 F))
                         (rows a))))
  | _ => Raise (ValueError msg_transpose)
  end.

(** Multiplication of every number of a row by a window value. *)
Definition scale_row (w : Q) (r : list Q) : list Q := map (Qmult w) r.

(** ** The store of the caller's arrays

    NumPy arrays are mutable objects: a list of trials is a list of
    references into a store, and [y_[i][:n] = ...] writes through the
    reference. *)

Abbreviation loc := nat (only parsing).
Abbreviation heap := (list ndarray) (only parsing).

(** Allocation of a new array object. *)
Definition alloc (h : heap) (a : ndarray) : heap * loc := (h ++ [a], length h).

(** ** naplib.out_struct.OutStruct: a list of dictionaries, one per trial *)

Module OutStruct.

Record t : Type := mk { _data : list (gmap string loc) }.

Definition data (self : t) : list (gmap string loc) := _data self.

(** [get_field]: the very objects stored in the trials, in a new list. *)
Definition get_field (self : t) (fieldname : string) : result (list loc) :=
mapM (fun tmp : gmap string loc =>
        match tmp !! fieldname with
        | Some l => Ok l
        | None => Raise (KeyError fieldname)
        end) (data self).

End OutStruct.

(** An argument of [fit], [predict] or [score]: the name of a field of the
    outstruct, or the list of the trials' arrays. *)
Inductive data_arg : Type :=
| Field (name : string)
| Trials (arrays : list loc).

(** ** The objects of mne.decoding that TRF builds and keeps

    [TimeDelayingRidge] and [ReceptiveField] are classes of mne; here they
    are records of the attributes TRF reads and writes. What their methods
    compute is external (see [Externals]). *)

Record TimeDelayingRidge : Type := mk_estimator {
  est_alpha : Q;
  est_cov_ : option ndarray;
  est_coef_ : option ndarray;
  est_intercept_ : option (list Q)
}.

Record ReceptiveField : Type := mk_rf {
  rf_tmin : Q;
  rf_tmax : Q;
  rf_sfreq : Q;
  rf_fit_intercept : bool;
  rf_scoring : string;
  rf_n_jobs : Z;
  rf_reg_type : string;
  rf_estimator : TimeDelayingRidge;
  rf_y_dim : option nat;
  rf_delays_ : option (list Z);
  rf_valid_samples_ : option (option Z * option Z);
  rf_cov_ : option ndarray;
  rf_coef_ : option ndarray
}.

Definition rf_set_estimator (e : TimeDelayingRidge) (rf : ReceptiveField)
  : ReceptiveField :=
  mk_rf (rf_tmin rf) (rf_tmax rf) (rf_sfreq rf) (rf_fit_intercept rf)
        (rf_scoring rf) (rf_n_jobs rf) (rf_reg_type rf) e (rf_y_dim rf)
        (rf_delays_ rf) (rf_valid_samples_ rf) (rf_cov_ rf) (rf_coef_ rf).

Definition rf_set_coef_ (c : ndarray) (rf : ReceptiveField) : ReceptiveField :=
  mk_rf (rf_tmin rf) (rf_tmax rf) (rf_sfreq rf) (rf_fit_intercept rf)
        (rf_scoring rf) (rf_n_jobs rf) (rf_reg_type rf) (rf_estimator rf)
        (rf_y_dim rf) (rf_delays_ rf) (rf_valid_samples_ rf) (rf_cov_ rf)
        (Some c).

Definition rf_set_cov_ (c : ndarray) (rf : ReceptiveField) : ReceptiveField :=
  mk_rf (rf_tmin rf) (rf_tmax rf) (rf_sfreq rf) (rf_fit_intercept rf)
        (rf_scoring rf) (rf_n_jobs rf) (rf_reg_type rf) (rf_estimator rf)
        (rf_y_dim rf) (rf_delays_ rf) (rf_valid_samples_ rf) (Some c)
        (rf_coef_ rf).

Definition rf_set_fit_context (y_dim : option nat) (delays : option (list Z))
    (valid : option (option Z * option Z)) (rf : ReceptiveField)
  : ReceptiveField :=
  mk_rf (rf_tmin rf) (rf_tmax rf) (rf_sfreq rf) (rf_fit_intercept rf)
        (rf_scoring rf) (rf_n_jobs rf) (rf_reg_type rf) (rf_estimator rf)
        y_dim delays valid (rf_cov_ rf) (rf_coef_ rf).

Definition est_set_cov_ (c : ndarray) (e : TimeDelayingRidge)
  : TimeDelayingRidge :=
  mk_estimator (est_alpha e) (Some c) (est_coef_ e) (est_intercept_ e).

Definition est_set_coef_ (c : ndarray) (e : TimeDelayingRidge)
  : TimeDelayingRidge :=
  mk_estimator (est_alpha e) (est_cov_ e) (Some c) (est_intercept_ e).

Definition est_set_intercept_ (i : list Q) (e : TimeDelayingRidge)
  : TimeDelayingRidge :=
  mk_estimator (est_alpha e) (est_cov_ e) (est_coef_ e) (Some i).

(** What [_compute_corrs] returns. *)
Record corrs : Type := mk_corrs {
  cov_ : ndarray;
  x_y_ : ndarray;
  n_ch_x : nat;
  X_offset : ndarray;
  y_offset : ndarray
}.

Module mne.

(** [mne.decoding.receptive_field._times_to_delays]:
  [np.arange(int(np.round(tmin * sfreq)), int(np.round(tmax * sfreq) + 1))]. *)
Definition _times_to_delays (tmin tmax sfreq : Q) : list Z :=
np.arange (py.round (tmin * sfreq)) (py.round (tmax * sfreq) + 1).

End mne.

(** The numerical code TRF calls and does not define. *)
Class Externals : Type := {
  (** [np.hamming(M)] *)
  np_hamming : nat -> list Q;
  (** [mne.decoding.receptive_field._delays_to_slice] *)
  _delays_to_slice : list Z -> option Z * option Z;
  (** [mne.decoding.time_delaying_ridge._compute_corrs(X, y, smin, smax,
      n_jobs, fit_intercept, edge_correction=True)] *)
  _compute_corrs : ndarray -> ndarray -> Z -> Z -> Z -> bool -> result corrs;
  (** [mne.decoding.time_delaying_ridge._fit_corrs(x_xt, x_y, n_ch_x,
      reg_type, alpha, n_ch_in)] *)
  _fit_corrs : ndarray -> ndarray -> nat -> string -> Q -> nat -> result ndarray;
  (** [y_offset - np.dot(X_offset, coef.sum(-1).T)] *)
  intercept_formula : ndarray -> ndarray -> ndarray -> result (list Q);
  (** [ReceptiveField.fit(X, y)]: the object with its fitted attributes *)
  rf_fit : ReceptiveField -> ndarray -> ndarray -> result ReceptiveField;
  (** [ReceptiveField.predict(X)] *)
  rf_predict : ReceptiveField -> ndarray -> result ndarray;
  (** [_r2_score(y_true, y, multioutput='raw_values')] and [_corr_score] of
      mne.decoding.receptive_field, one score per column *)
  _r2_score : ndarray -> ndarray -> result (list Q);
  _corr_score : ndarray -> ndarray -> result (list Q)
}.

(** ** class TRF *)

(** The [alpha] argument of the constructor. *)
Inductive alpha_arg : Type :=
| AlphaNone
| AlphaScalar (a : Q)
| AlphaList (l : list Q).

Module TRF.

Record t : Type := mk {
sfreq : Q;
tmin : Q;
tmax : Q;
reg_type : string;
alpha : list Q;
xval_test_portion : Q;
fit_intercept : bool;
scoring : string;
n_jobs : Z;
random_state : Z;
(* attributes that exist once fit has assigned them *)
ndim_y_ : option nat;
models_ : option (list ReceptiveField);
delays_ : option (list Z);
valid_samples_ : option (option Z * option Z);
estimator_ : option TimeDelayingRidge
}.

Definition set_ndim_y_ (v : nat) (self : t) : t :=
mk (sfreq self) (tmin self) (tmax self) (reg_type self) (alpha self)
   (xval_test_portion self) (fit_intercept self) (scoring self)
   (n_jobs self) (random_state self)
   (Some v) (models_ self) (delays_ self) (valid_samples_ self)
   (estimator_ self).

Definition with_models_ (v : option (list ReceptiveField)) (self : t) : t :=
mk (sfreq self) (tmin self) (tmax self) (reg_type self) (alpha self)
   (xval_test_portion self) (fit_intercept self) (scoring self)
   (n_jobs self) (random_state self)
   (ndim_y_ self) v (delays_ self) (valid_samples_ self)
   (estimator_ self).

Definition set_models_ (v : list ReceptiveField) (self : t) : t :=
with_models_ (Some v) self.

Definition set_delays_ (v : list Z) (self : t) : t :=
mk (sfreq self) (tmin self) (tmax self) (reg_type self) (alpha self)
   (xval_test_portion self) (fit_intercept self) (scoring self)
   (n_jobs self) (random_state self)
   (ndim_y_ self) (models_ self) (Some v) (valid_samples_ self)
   (estimator_ self).

Definition set_valid_samples_ (v : option Z * option Z) (self : t) : t :=
mk (sfreq self) (tmin self) (tmax self) (reg_type self) (alpha self)
   (xval_test_portion self) (fit_intercept self) (scoring self)
   (n_jobs self) (random_state self)
   (ndim_y_ self) (models_ self) (delays_ self) (Some v)
   (estimator_ self).

Definition with_estimator_ (v : option TimeDelayingRidge) (self : t) : t :=
mk (sfreq self) (tmin self) (tmax self) (reg_type self) (alpha self)
   (xval_test_portion self) (fit_intercept self) (scoring self)
   (n_jobs self) (random_state self)
   (ndim_y_ self) (models_ self) (delays_ self) (valid_samples_ self)
   v.

Definition set_estimator_ (v : TimeDelayingRidge) (self : t) : t :=
with_estimator_ (Some v) self.

(** [[round(x, 2) for x in np.logspace(2, 9, 8)]] *)
Definition default_alpha : list Q :=
[100; 1000; 10000; 100000; 1000000; 10000000; 100000000; 1000000000]%Q.

(** The candidates [__init__] stores in [self.alpha]: the default grid
  for [None], a one-element array for a number. *)
Definition alpha_candidates (alpha : alpha_arg) : list Q :=
match alpha with
| AlphaNone => default_alpha
| AlphaScalar a => [a]
| AlphaList l => l
end.

(** [TRF.__init__] *)
Definition __init__ (tmin tmax sfreq : Q) (reg_type : string)
  (alpha : alpha_arg) (xval_test_portion : Q) (fit_intercept : bool)
  (scoring : string) (n_jobs random_state : Z) : result t :=
if Qle_bool tmax tmin then Raise (ValueError msg_tmin_tmax)
else
  let alpha := alpha_candidates alpha in
  let self :=
    mk sfreq tmin tmax reg_type alpha xval_test_portion fit_intercept
       scoring n_jobs random_state None None None None None in
  if (1 <? length alpha)%nat && negb (Qle_bool xval_test_portion (1 # 2))
  then Raise (ValueError msg_xval_portion)
  else Ok self.

(** [TRF._smin] *)
Definition _smin (self : t) : Z := py.round (tmin self * sfreq self).

(** [TRF._smax] *)
Definition _smax (self : t) : Z := (py.round (tmax self * sfreq self) + 1)%Z.

End TRF.

(** ** Cross-validation splits *)

(** [_xval_time_splits(data, test_portion)]: the folds the generator
    yields, in order, as pairs [(train_data, test_data)]; [data] is the list
    of the rows of axis 0. With [win_size = 0] the quotient is [inf] (or
    [nan] for an array without rows) and [int] raises when the generator is
    first advanced. *)
Definition _xval_time_splits {A} (data : list A) (test_portion : Q)
  : result (list (list A * list A)) :=
  let shape0 := Z.of_nat (length data) in
  let win_size := np.floor (inject_Z shape0 * test_portion) in
  if (win_size =? 0)%Z then
    if (shape0 =? 0)%Z then Raise (ValueError msg_int_nan)
    else Raise OverflowError
  else
    let num_chunks :=
      py.int (inject_Z (shape0 - win_size) / inject_Z win_size + 1) in
    let idx := np.arange 0 (num_chunks * win_size) in
    mapM (fun i : Z =>
            let* idx_i := match idx !! Z.to_nat i with
                          | Some v => Ok v
                          | None => Raise IndexError
                          end in
            let start_idx := idx_i in
            let stop_idx := (idx_i + win_size)%Z in
            let train_data := np.delete data start_idx stop_idx in
            let test_data := np.slice data start_idx stop_idx in
            Ok (train_data, test_data))
         (py.range 0 (num_chunks * win_size) win_size).

(** The generator applied to an array: the folds keep the trailing shape. *)
Definition xval_arrays (a : ndarray) (test_portion : Q)
  : result (list (ndarray * ndarray)) :=
  let* folds := _xval_time_splits (rows a) test_portion in
  Ok (map (fun f : list (list Q) * list (list Q) =>
             (mk_array (trailing a) (fst f), mk_array (trailing a) (snd f)))
          folds).

(** ** A state-and-exception monad

    A method of a Python object reads and assigns attributes and may raise;
    an assignment made before the raise stays. *)

Definition ST (S A : Type) : Type := S -> S * result A.

Definition ret {S A} (a : A) : ST S A := fun s => (s, Ok a).
Definition raise {S A} (e : exn) : ST S A := fun s => (s, Raise e).
Definition lift {S A} (r : result A) : ST S A := fun s => (s, r).
Definition get {S} : ST S S := fun s => (s, Ok s).
Definition modify {S} (f : S -> S) : ST S unit := fun s => (f s, Ok tt).
Definition bindS {S A B} (m : ST S A) (k : A -> ST S B) : ST S B :=
  fun s =>
    match m s with
    | (s', Ok a) => k a s'
    | (s', Raise e) => (s', Raise e)
    end.

Declare Scope st_scope.
Delimit Scope st_scope with st.
Notation "x <- m ;; k" := (bindS m (fun x => k))
  (at level 100, m at next level, right associativity) : st_scope.
Notation "m ;; k" := (bindS m (fun _ => k))
  (at level 100, right associativity) : st_scope.

Fixpoint mapS {S A B} (f : A -> ST S B) (l : list A) : ST S (list B) :=
  match l with
  | [] => ret []
  | a :: l' => (b <- f a ;; bs <- mapS f l' ;; ret (b :: bs))%st
  end.

Fixpoint forS {S A} (l : list A) (f : A -> ST S unit) : ST S unit :=
  match l with
  | [] => ret tt
  | a :: l' => (f a ;; forS l' f)%st
  end.

(** ** Reading and copying the arguments *)

Definition msg_not_an_array : string := "not an array".
Definition msg_no_outstruct : string := "field name given without an outstruct".
Definition msg_trial_count : string := "arguments differ in their number of trials".

(** The array a reference points to. *)
Definition load (h : heap) (l : loc) : result ndarray :=
  match h !! l with
  | Some a => Ok a
  | None => Raise (TypeError msg_not_an_array)
  end.

(** [copy.deepcopy] of a list of arrays: one new object per distinct array
    (the memo of [deepcopy] keeps an array met twice shared). *)
Fixpoint deepcopy_arrays (h : heap) (memo : gmap loc loc) (ls : list loc)
  : heap * list loc :=
  match ls with
  | [] => (h, [])
  | l :: ls' =>
      match memo !! l with
      | Some l1 =>
          let '(h2, ls2) := deepcopy_arrays h memo ls' in (h2, l1 :: ls2)
      | None =>
          let '(h1, l1) := alloc h (default (mk_array [] []) (h !! l)) in
          let '(h2, ls2) := deepcopy_arrays h1 (<[l := l1]> memo) ls' in
          (h2, l1 :: ls2)
      end
  end.

(** [copy.deepcopy] of an argument: a string is immutable and is returned as
    it is; a list of arrays is copied array by array. *)
Definition deepcopy (a : data_arg) : ST heap data_arg :=
  fun h =>
    match a with
    | Field name => (h, Ok (Field name))
    | Trials ls =>
        let '(h', ls') := deepcopy_arrays h ∅ ls in (h', Ok (Trials ls'))
    end.

(** Modelled from the spec: [naplib.utils._parse_outstruct_args] is imported
    by trf.py and is not among the sources. The specification (sections 6
    and 9) describes it as a resolver: an argument that is a field name is
    looked up in the trial container, which returns the list of per-trial
    arrays ([OutStruct.get_field], which is among the sources); an argument
    that is already a list of arrays bypasses the container. *)
Definition _parse_outstruct_arg (outstruct : option OutStruct.t) (a : data_arg)
  : result (list loc) :=
  match a with
  | Trials ls => Ok ls
  | Field name =>
      match outstruct with
      | Some o => OutStruct.get_field o name
      | None => Raise (TypeError msg_no_outstruct)
      end
  end.

(** Modelled from the spec: the call with two arguments; a predictor/target
    trial count mismatch is the validation error of section 7. *)
Definition _parse_outstruct_args (outstruct : option OutStruct.t)
    (a b : data_arg) : result (list loc * list loc) :=
  let* x := _parse_outstruct_arg outstruct a in
  let* y := _parse_outstruct_arg outstruct b in
  if (length x =? length y)%nat then Ok (x, y)
  else Raise (ValueError msg_trial_count).

(** ** The boundary taper *)

(** [yy.reshape(-1, 1)] is a view: it shares the numbers of [yy]. A view is
    read with [view] and written through with [write_view]. *)
Definition view (flat : bool) (a : ndarray) : ndarray :=
  if flat then reshape_col a else a.

Definition write_view (flat : bool) (a : ndarray) (rs : list (list Q))
  : ndarray :=
  if flat
  then mk_array (trailing a)
         (chunks (length (rows a)) (row_size (trailing a)) (concat rs))
  else mk_array (trailing a) rs.

(** [v[:len(w)] = np.multiply(v[:len(w)], w)] on the rows of [v], for a
    window [w] of shape [(len(w), 1)] (or [(len(w), 1, F)]): the two
    operands broadcast, and the product fits the slot, when the slot has
    [len(w)] rows, or when it is empty and [len(w) = 1]. *)
Definition taper_start (w : list Q) (rs : list (list Q))
  : result (list (list Q)) :=
  let n := length w in
  let s := Nat.min (length rs) n in
  if (s =? n)%nat then Ok (zip_with scale_row w (take n rs) ++ drop n rs)
  else if (n =? 1)%nat && (s =? 0)%nat then Ok rs
  else Raise (ValueError msg_broadcast).

(** [v[-len(w):] = np.multiply(v[-len(w):], w)]; [v[-0:]] is all of [v]. *)
Definition taper_end (w : list Q) (rs : list (list Q))
  : result (list (list Q)) :=
  let n := length w in
  let T := length rs in
  let s := if (n =? 0)%nat then T else Nat.min T n in
  if (s =? n)%nat
  then Ok (take (T - n) rs ++ zip_with scale_row w (drop (T - n) rs))
  else if (n =? 1)%nat && (s =? 0)%nat then Ok rs
  else Raise (ValueError msg_broadcast).

(** Whether a trial has the rank of the window, and a last axis the tiled
    window fits. The model follows arrays of rank 1 to 3, the ranks the
    docstrings allow; for a list of trials of mixed rank the call raises
    (in NumPy at the latest in [np.concatenate]). *)
Definition taper_compatible (win3 : bool) (F0 : nat) (v : ndarray) : bool :=
  match win3, trailing v with
  | false, [_] => true
  | true, [_; F] => (F =? F0)%nat || (F0 =? 1)%nat
  | _, _ => false
  end.

(** One in-place assignment to the array at [l], through its view. *)
Definition assign_rows (flat win3 : bool) (F0 : nat) (l : loc)
    (f : list (list Q) -> result (list (list Q))) : ST heap unit :=
  fun h =>
    match h !! l with
    | None => (h, Raise (TypeError msg_not_an_array))
    | Some a =>
        let v := view flat a in
        if taper_compatible win3 F0 v then
          match f (rows v) with
          | Ok rs => (<[l := write_view flat a rs]> h, Ok tt)
          | Raise e => (h, Raise e)
          end
        else (h, Raise (ValueError msg_broadcast))
    end.

(** The body of the loop that smooths the beginning and the ending of each
    target: the two assignments, in place, to the array at [l]. *)
Definition taper_in_place (flat win3 : bool) (F0 : nat)
    (w_start w_end : list Q) (l : loc) : ST heap unit :=
  (assign_rows flat win3 F0 l (taper_start w_start) ;;
   assign_rows flat win3 F0 l (taper_end w_end))%st.

Section WithExternals.

Context {E : Externals}.

(** [hamming], [hamming_start] and [hamming_end] of [fit]. *)
Definition hamming (self : TRF.t) : list Q :=
np_hamming
  (Z.to_nat (2 * py.int ((TRF.tmax self - TRF.tmin self) * TRF.sfreq self))).

Definition hamming_start (self : TRF.t) : list Q :=
take (length (hamming self) / 2) (hamming self).

Definition hamming_end (self : TRF.t) : list Q :=
(* hamming[-len(hamming)//2:] *)
let n := Z.of_nat (length (hamming self)) in
drop (Z.to_nat (n + (- n) / 2)) (hamming self).

(** Lines 150-169 of [fit]: the arguments are copied and resolved, the
  predictors concatenated, each target tapered in place and the targets
  concatenated. The state is the store of arrays. *)
Definition fit_prepare (self : TRF.t) (outstruct : option OutStruct.t)
  (X y : data_arg) : ST heap (ndarray * ndarray) :=
(X' <- deepcopy X ;;
 y' <- deepcopy y ;;
 parsed <- lift (_parse_outstruct_args outstruct X' y') ;;
 let X_ := fst parsed in
 let y_ := snd parsed in
 Xs <- (fun h => lift (mapM (load h) X_) h) ;;
 X_ <- lift (concatenate Xs) ;;
 y0 <- (fun h => match y_ with
                 | [] => raise IndexError h
                 | l :: _ => lift (load h l) h
                 end) ;;
 let flat := (ndim y0 =? 1)%nat in
 let win3 := (ndim (view flat y0) =? 3)%nat in
 let F0 := shape_last y0 in
 (if win3 && (F0 =? 0)%nat
  then raise (ValueError msg_concatenate_empty) else ret tt) ;;
 forS y_ (taper_in_place flat win3 F0 (hamming_start self) (hamming_end self)) ;;
 ys <- (fun h => lift (mapM (fun l => let* a := load h l in
                                         Ok (view flat a)) y_) h) ;;
 y_ <- lift (concatenate ys) ;;
 ret (X_, y_))%st.

(** *** Scoring *)

(** [_SCORERS] *)
Definition _SCORERS (name : string)
: result (ndarray -> ndarray -> result (list Q)) :=
if bool_decide (name = "r2") then Ok _r2_score
else if bool_decide (name = "corrcoef") then Ok _corr_score
else Raise (KeyError name).

Definition Qsum (l : list Q) : Q := fold_right Qplus 0%Q l.

(** [np.average(y_scores, axis=1, weights=weights)], where [y_scores] is
  given by its columns (one score vector per trial). *)
Definition np_average (columns : list (list Q)) (weights : list Q)
: result (list Q) :=
match columns with
| [] => Raise (ValueError msg_concatenate_empty)
| c0 :: _ =>
    if negb (forallb (fun c => (length c =? length c0)%nat) columns)
    then Raise (ValueError msg_concatenate_dims)
    else if negb (length weights =? length columns)%nat
    then Raise (ValueError msg_average_weights)
    else
      let scl := Qsum weights in
      if Qeq_bool scl 0 then Raise ZeroDivisionError
      else
        Ok (map (fun k =>
                   (Qsum (zip_with (fun c w => nth k c 0 * w) columns weights)
                    / scl)%Q)
                (seq 0 (length c0)))
end.

(** The loop of [_score_predictions]: the score vector of every trial. *)
Definition trial_score (self : TRF.t)
  (scorer : ndarray -> ndarray -> result (list Q))
  (y_pred y_true : ndarray) : result (list Q) :=
let* nd := match TRF.ndim_y_ self with
           | Some nd => Ok nd
           | None => Raise (AttributeError "ndim_y_")
           end in
if negb (ndim y_true =? nd)%nat then Raise AssertionError
else
  let* reshaped :=
    if (nd =? 3)%nat then
      let* p := flatten_features y_pred in
      let* t := flatten_features y_true in
      Ok (p, t)
    else Ok (y_pred, y_true) in
  let* c_pred := shape1 (fst reshaped) in
  let* c_true := shape1 y_true in
  if negb (c_pred =? c_true)%nat then Raise AssertionError
  else scorer (fst reshaped) (snd reshaped).

Definition trial_scores (self : TRF.t) (y_preds_list y_true_list : list ndarray)
: result (list (list Q)) :=
let* scorer := _SCORERS (TRF.scoring self) in
mapM (fun pt : ndarray * ndarray => trial_score self scorer (fst pt) (snd pt))
     (zip y_preds_list y_true_list).

(** [TRF._score_predictions] *)
Definition _score_predictions (self : TRF.t)
  (y_preds_list y_true_list : list ndarray) (weights : list Q)
: result (list Q) :=
let* y_scores := trial_scores self y_preds_list y_true_list in
np_average y_scores weights.

(** *** The coefficients *)

(** [TRF.coef_] *)
Definition coef_ (self : TRF.t) : result ndarray :=
match TRF.ndim_y_ self with
| None => Raise (ValueError msg_coef_before_fit)
| Some nd =>
    let* models := match TRF.models_ self with
                   | Some ms => Ok ms
                   | None => Raise (AttributeError "models_")
                   end in
    let* coefs_ :=
      mapM (fun mdl =>
              let* c := match rf_coef_ mdl with
                        | Some c => Ok c
                        | None => Raise (AttributeError "coef_")
                        end in
              if (nd =? 2)%nat then Ok c else newaxis0_3 c)
           models in
    concatenate coefs_
end.

(** [TRF._get_single_RF_model] *)
Definition _get_single_RF_model (self : TRF.t) (alpha_val : Q)
: ReceptiveField :=
let estimator := mk_estimator alpha_val None None None in
mk_rf (TRF.tmin self) (TRF.tmax self) (TRF.sfreq self)
      (TRF.fit_intercept self) (TRF.scoring self) (TRF.n_jobs self)
      (TRF.reg_type self) estimator None None None None None.

(** [TRF._delay_and_reshape]: the estimator is always a
  [TimeDelayingRidge], for which the arrays are returned as they are. *)
Definition _delay_and_reshape (self : TRF.t) (X y : ndarray)
: result (ndarray * ndarray) :=
match TRF.estimator_ self with
| Some _ => Ok (X, y)
| None => Raise (AttributeError "estimator_")
end.

(** *** Cross-validation over the alphas *)

(** [rf.estimator] and [self.estimator_] are one object: a write to the
  estimator is seen through both. *)
Definition write_estimator (f : TimeDelayingRidge -> TimeDelayingRidge)
  (rf : ReceptiveField) : ST TRF.t ReceptiveField :=
(let rf' := rf_set_estimator (f (rf_estimator rf)) rf in
 modify (TRF.set_estimator_ (rf_estimator rf')) ;;
 ret rf')%st.

(** The loop over [self.alpha] inside one fold: [scores_thissplit]. *)
Fixpoint cv_alphas (alphas : list Q) (rf : ReceptiveField) (cr : corrs)
  (X_test y_test : ndarray) : ST TRF.t (list (list Q)) :=
match alphas with
| [] => ret []
| alpha_ :: alphas' =>
    (self <- get ;;
     coef <- lift (_fit_corrs (cov_ cr) (x_y_ cr) (n_ch_x cr)
                     (TRF.reg_type self) alpha_ (n_ch_x cr)) ;;
     coef <- lift (drop_last_axis1 coef) ;;
     rf <- write_estimator (est_set_coef_ coef) (rf_set_coef_ coef rf) ;;
     self <- get ;;
     intercept <-
       (if TRF.fit_intercept self
        then (c <- lift (coef_ self) ;;
              lift (intercept_formula (y_offset cr) (X_offset cr) c))
        else ret [0%Q]) ;;
     rf <- write_estimator (est_set_intercept_ intercept) rf ;;
     y_pred_test <- lift (rf_predict rf X_test) ;;
     s <- lift (_score_predictions self [y_pred_test] [y_test] [1%Q]) ;;
     ss <- cv_alphas alphas' rf cr X_test y_test ;;
     ret (s :: ss))%st
end.

(** The body of the loop over the folds. *)
Definition cv_fold (fold : (ndarray * ndarray) * (ndarray * ndarray))
: ST TRF.t (list (list Q)) :=
(let X_train := fst (fst fold) in
 let X_test := snd (fst fold) in
 let y_train := fst (snd fold) in
 let y_test := snd (snd fold) in
 self <- get ;;
 rf <- write_estimator (fun e => e) (_get_single_RF_model self 0) ;;
 let rf := rf_set_fit_context (TRF.ndim_y_ self) (TRF.delays_ self)
             (TRF.valid_samples_ self) rf in
 self <- get ;;
 delayed <- lift (_delay_and_reshape self X_train y_train) ;;
 cr <- lift (_compute_corrs (fst delayed) (snd delayed) (TRF._smin self)
               (TRF._smax self) (TRF.n_jobs self) (TRF.fit_intercept self)) ;;
 rf <- write_estimator (est_set_cov_ (cov_ cr)) (rf_set_cov_ (cov_ cr) rf) ;;
 cv_alphas (TRF.alpha self) rf cr X_test y_test)%st.

(** [np.array(scores).shape]: [scores] is a list (folds) of lists (alphas)
  of score vectors. *)
Definition np_array_shape (scores : list (list (list Q))) : result (list nat) :=
match scores with
| [] => Ok [0%nat]
| [] :: _ =>
    if forallb (fun f => (length f =? 0)%nat) scores
    then Ok [length scores; 0%nat]
    else Raise (ValueError msg_inhomogeneous)
| (s :: f) :: _ =>
    if forallb (fun f' => (length f' =? S (length f))%nat
                          && forallb (fun s' => (length s' =? length s)%nat) f')
               scores
    then Ok [length scores; S (length f); length s]
    else Raise (ValueError msg_inhomogeneous)
end.

(** The mean over axis 0 of an array of [n0] rows of [m] numbers. *)
Definition mean_axis0 (n0 m : nat) (flat : list Q) : list Q :=
map (fun j =>
       (Qsum (map (fun i => nth (i * m + j) flat 0%Q) (seq 0 n0))
        / inject_Z (Z.of_nat n0))%Q)
    (seq 0 m).

(** [np.argmax(np.array(scores).squeeze().mean(0))]. Without rows every
  mean is NaN and [np.argmax] returns the index of the first one. *)
Definition ix_best_alpha (scores : list (list (list Q))) : result nat :=
let* shp := np_array_shape scores in
let flat := concat (concat scores) in
match filter (fun d => negb (d =? 1)%nat) shp with
| [] => Raise (ValueError msg_axis)
| n0 :: tr =>
    let m := row_size tr in
    if (m =? 0)%nat then Raise (ValueError msg_argmax_empty)
    else if (n0 =? 0)%nat then Ok 0%nat
    else Ok (np.argmax (mean_axis0 n0 m flat))
end.

(** [self.alpha[i]] *)
Definition alpha_at (self : TRF.t) (i : nat) : result Q :=
match TRF.alpha self !! i with
| Some a => Ok a
| None => Raise IndexError
end.

(** Lines 197-254 of [fit]: the alpha chosen for one target. *)
Definition cross_validate (X_ y_thistarget : ndarray) : ST TRF.t Q :=
(self <- get ;;
 X_generator <- lift (xval_arrays X_ (TRF.xval_test_portion self)) ;;
 y_generator <- lift (xval_arrays y_thistarget (TRF.xval_test_portion self)) ;;
 scores <- mapS cv_fold (zip X_generator y_generator) ;;
 ix_best_alpha_lap <- lift (ix_best_alpha scores) ;;
 lift (alpha_at self ix_best_alpha_lap))%st.

(** *** fit *)

(** The body of the loop over the targets (lines 186-263). *)
Definition fit_target (X_ y_ : ndarray) (target_idx : nat) : ST TRF.t unit :=
(y_t <- lift (take_channel y_ target_idx) ;;
 let y_thistarget := newaxis1 y_t in
 self <- get ;;
 best_alpha_thistarget <-
   (if (1 <? length (TRF.alpha self))%nat
    then cross_validate X_ y_thistarget
    else lift (alpha_at self 0)) ;;
 self <- get ;;
 let rf := _get_single_RF_model self best_alpha_thistarget in
 rf <- lift (rf_fit rf X_ y_thistarget) ;;
 c <- lift (match rf_coef_ rf with
            | Some c => Ok c
            | None => Raise (AttributeError "coef_")
            end) ;;
 c <- lift (drop_last_axis2 c) ;;
 let rf := rf_set_coef_ c (rf_set_estimator (est_set_coef_ c (rf_estimator rf)) rf) in
 self <- get ;;
 match TRF.models_ self with
 | Some ms => modify (TRF.set_models_ (ms ++ [rf]))
 | None => raise (AttributeError "models_")
 end)%st.

(** Lines 172-265 of [fit]. *)
Definition fit_models (X_ y_ : ndarray) : ST TRF.t unit :=
(modify (TRF.set_ndim_y_ (ndim y_)) ;;
 X_ <- (if (ndim y_ =? 3)%nat
        then (if (ndim X_ <? 2)%nat then raise IndexError
              else ret (newaxis1 X_))
        else ret X_) ;;
 modify (TRF.set_models_ []) ;;
 self <- get ;;
 let delays := mne._times_to_delays (TRF.tmin self) (TRF.tmax self)
                 (TRF.sfreq self) in
 modify (TRF.set_delays_ delays) ;;
 modify (TRF.set_valid_samples_ (_delays_to_slice delays)) ;;
 n_targets <- lift (shape1 y_) ;;
 forS (seq 0 n_targets) (fit_target X_ y_))%st.

(** [TRF.fit]: the object and the store after the call, and whether the
  call returned or raised. *)
Definition fit (outstruct : option OutStruct.t) (X y : data_arg)
: ST (TRF.t * heap) unit :=
fun '(self, h) =>
  match fit_prepare self outstruct X y h with
  | (h', Raise e) => ((self, h'), Raise e)
  | (h', Ok (X_, y_)) =>
      let '(self', r) := fit_models X_ y_ self in ((self', h'), r)
  end.

(** *** predict and score *)

(** The loops of [predict] over the trials and the models. *)
Definition predict_trials (self : TRF.t) (models : list ReceptiveField)
  (X : list ndarray) : result (list ndarray) :=
mapM (fun x_trial =>
        let* y_pred_ii :=
          mapM (fun mdl =>
                  let* tmp_pred := rf_predict mdl x_trial in
                  let* nd := match TRF.ndim_y_ self with
                             | Some nd => Ok nd
                             | None => Raise (AttributeError "ndim_y_")
                             end in
                  if (nd =? 2)%nat then Ok (reshape_col tmp_pred)
                  else reshape_T_1_rest tmp_pred)
               models in
        concatenate_axis1 y_pred_ii)
     X.

(** [TRF.predict] *)
Definition predict (self : TRF.t) (h : heap) (outstruct : option OutStruct.t)
  (X : data_arg) : result (list ndarray) :=
match TRF.models_ self with
| None => Raise (ValueError msg_predict_before_fit)
| Some models =>
    let* X := _parse_outstruct_arg outstruct X in
    let* X := mapM (load h) X in
    predict_trials self models X
end.

(** [weights] of [score]. *)
Definition score_weights (weight_trial_duration : bool) (X_ : list ndarray)
: result (list Q) :=
if weight_trial_duration then
  let weights := map (fun x => length (rows x)) X_ in
  mapM (fun w : nat =>
          if (list_sum weights =? 0)%nat then Raise ZeroDivisionError
          else Ok (inject_Z (Z.of_nat w)
                   / inject_Z (Z.of_nat (list_sum weights)))%Q)
       weights
else Ok (map (fun _ => 1%Q) X_).

(** The loop of [score] over the trials: [y_preds]. *)
Definition score_predictions (self : TRF.t) (models : list ReceptiveField)
  (X_ y_ : list ndarray) : result (list ndarray) :=
mapM (fun xy : ndarray * ndarray =>
        let* nd := match TRF.ndim_y_ self with
                   | Some nd => Ok nd
                   | None => Raise (AttributeError "ndim_y_")
                   end in
        if negb (ndim (snd xy) =? nd)%nat then Raise (ValueError msg_y_shape)
        else
          let* p := predict_trials self models [fst xy] in
          match p with
          | p0 :: _ => Ok p0
          | [] => Raise IndexError
          end)
     (zip X_ y_).

(** [TRF.score] *)
Definition score (self : TRF.t) (outstruct : option OutStruct.t)
  (X y : data_arg) (weight_trial_duration : bool) : ST heap (list Q) :=
match TRF.models_ self with
| None => raise (ValueError msg_score_before_fit)
| Some models =>
    (X' <- deepcopy X ;;
     y' <- deepcopy y ;;
     parsed <- lift (_parse_outstruct_args outstruct X' y') ;;
     X_ <- (fun h => lift (mapM (load h) (fst parsed)) h) ;;
     y_ <- (fun h => lift (mapM (load h) (snd parsed)) h) ;;
     y_preds <- lift (score_predictions self models X_ y_) ;;
     weights <- lift (score_weights weight_trial_duration X_) ;;
     lift (_score_predictions self y_preds y_ weights))%st
end.

End WithExternals.

(** ** A small instance of the external code

    The examples below need numbers to compute with. [Toy] keeps the shapes
    mne documents and replaces the numerical work by arithmetic that can be
    evaluated: it is used only to run the model on concrete inputs. *)

Module Toy.

(** [np.hamming(M)] for [M <= 5], where [0.54 - 0.46 cos(2 pi n / (M-1))]
  is rational; a constant window of the right length beyond, which no
  example reaches. *)
Definition hamming_table (M : nat) : list Q :=
match M with
| 0%nat => []
| 1%nat => [1%Q]
| 2%nat => [8 # 100; 8 # 100]
| 3%nat => [8 # 100; 1%Q; 8 # 100]
| 4%nat => [8 # 100; 77 # 100; 77 # 100; 8 # 100]
| 5%nat => [8 # 100; 54 # 100; 1%Q; 54 # 100; 8 # 100]
| _ => repeat 1%Q M
end.

(** mne: [slice(None if delays[-1] < 0 else delays[-1],
              None if delays[0] > 0 else delays[0])]. *)
Definition delays_to_slice (delays : list Z) : option Z * option Z :=
let last := List.last delays 0%Z in
let first := hd 0%Z delays in
(if (last <? 0)%Z then None else Some last,
 if (0 <? first)%Z then None else Some first).

Definition zeros (n_rows : nat) (tr : list nat) : ndarray :=
mk_array tr (repeat (repeat 0%Q (row_size tr)) n_rows).

Definition n_delays (rf : ReceptiveField) : nat :=
length (mne._times_to_delays (rf_tmin rf) (rf_tmax rf) (rf_sfreq rf)).

(** The sufficient statistics are not computed: the training arrays are
  kept in their place. *)
Definition compute_corrs (X y : ndarray) (smin smax n_jobs : Z)
  (fit_intercept : bool) : result corrs :=
Ok (mk_corrs X y (shape_last X) X y).

(** Coefficients of shape (n_outputs, n_features, n_delays), here all
  equal to [1 / (1 + alpha)]: the stronger the penalty, the smaller. *)
Definition fit_corrs (x_xt x_y : ndarray) (n_ch_x : nat) (reg_type : string)
  (alpha : Q) (n_ch_in : nat) : result ndarray :=
Ok (mk_array [n_ch_in; 2%nat]
      (repeat (repeat (1 / (1 + alpha))%Q (n_ch_in * 2))
              (shape_last x_y))).

Definition intercept (y_off X_off coef : ndarray) : result (list Q) :=
Ok [0%Q].

(** The fit: zero coefficients of the documented shape; a degenerate
  problem (no regularisation and a target that is zero throughout)
  raises. *)
Definition fit (rf : ReceptiveField) (X y : ndarray) : result ReceptiveField :=
if Qeq_bool (est_alpha (rf_estimator rf)) 0
   && forallb (forallb (fun v => Qeq_bool v 0)) (rows y)
then Raise LinAlgError
else Ok (rf_set_coef_ (zeros (shape_last y) [shape_last X; n_delays rf]) rf).

(** The prediction: at every time index, for every output, the sum of the
  predictors times the first coefficient of the output. *)
Definition predict (rf : ReceptiveField) (X : ndarray) : result ndarray :=
match rf_coef_ rf with
| None => Raise (AttributeError "coef_")
| Some c =>
    let out :=
      map (fun x => map (fun w => (hd 0 w * fold_right Qplus 0 x)%Q) (rows c))
          (rows X) in
    Ok (match rf_y_dim rf with
        | Some 3%nat => mk_array [1%nat; length (rows c)] out
        | _ => mk_array [length (rows c)] out
        end)
end.

(** A score per column: minus the summed squared error. *)
Definition neg_sq_err (y_true y : ndarray) : result (list Q) :=
match trailing y with
| [c] =>
    Ok (map (fun k =>
               (- fold_right Qplus 0
                    (zip_with (fun a b => (nth k a 0 - nth k b 0)
                                          * (nth k a 0 - nth k b 0))
                              (rows y_true) (rows y)))%Q)
            (seq 0 c))
| _ => Raise (ValueError msg_concatenate_dims)
end.

#[export] Instance externals : Externals := {|
np_hamming := hamming_table;
_delays_to_slice := delays_to_slice;
_compute_corrs := compute_corrs;
_fit_corrs := fit_corrs;
intercept_formula := intercept;
rf_fit := fit;
rf_predict := predict;
_r2_score := neg_sq_err;
_corr_score := neg_sq_err
|}.

End Toy.

(** A constructed model and data to run it on. *)
Definition col (l : list Q) : ndarray := mk_array [1%nat] (map (fun x => [x]) l).

Definition demo_self : TRF.t :=
  TRF.mk 1 0 2 "ridge" [1%Q] (1 # 4) false "corrcoef" 1 1 None None None None None.

Definition demo_heap : heap :=
  [ col [1; 2; 3; 4; 5; 6]%Q; col [1; 1; 1; 1; 1; 1]%Q ].

(** ** naplib.out_struct: the trial container as an object

    [OutStruct.t] above is what [fit] reads of a container. Here the
    container is the object of out_struct.py, with what is shared: the list
    of trials is the list the caller passed, the trials are dicts that
    others may hold too, and the values of the fields are stored as they
    are given (by reference). *)

Module out_struct.

(** [set_field] raises a bare [Exception]; the other errors are built-in
    ones. *)
Inductive raised : Type :=
| Builtin (e : exn)
| Exception (msg : string).

Inductive outcome (A : Type) : Type :=
| Returned (a : A)
| Raised (e : raised).
Arguments Returned {A} a.
Arguments Raised {A} e.

Definition and_then {A B} (r : outcome A) (k : A -> outcome B) : outcome B :=
  match r with
  | Returned a => k a
  | Raised e => Raised e
  end.

Fixpoint for_each {A B} (f : A -> outcome B) (l : list A) : outcome (list B) :=
  match l with
  | [] => Returned []
  | a :: l' =>
      and_then (f a) (fun b =>
      and_then (for_each f l') (fun bs => Returned (b :: bs)))
  end.

(** The messages (the interpolated values of the f-strings are left out,
    but for the name of the field, which is kept apart). *)
Definition msg_create : string :=
  "Can only create OutStruct from a dict or a list of dicts".
Definition msg_not_a_list : string := "Input data must be a list".
Definition msg_field_length : string :=
  "Length of field is not equal to length of this OutStruct".
Definition msg_invalid_fieldname (fieldname : string) : string :=
  "Invalid fieldname: " ++ fieldname ++ " not found in data.".
Definition msg_not_dicts : string := "input data is not a list of dicts".
Definition msg_fields_differ : string :=
  "New data does not contain the same fields as the first trial.".
Definition msg_join_not_outstruct : string := "All inputs must be an OutStruct".
Definition msg_join_not_ndarray : string := "Can only concatenate np.ndarrays".
(** Errors of the interpreter on an object that is no dict. *)
Definition msg_not_subscriptable : string := "object is not subscriptable".
Definition msg_item_assignment : string :=
  "object does not support item assignment".

(** *** Python lists: indices and slices *)

(** [l[i]] for an integer [i]; [None] where Python raises [IndexError]. *)
Definition py_position (len : nat) (i : Z) : option nat :=
  if ((- Z.of_nat len <=? i) && (i <? Z.of_nat len))%Z
  then Some (Z.to_nat (if (i <? 0)%Z then i + Z.of_nat len else i))
  else None.

Definition py_index {A} (l : list A) (i : Z) : option A :=
  match py_position (length l) i with
  | Some k => l !! k
  | None => None
  end.

(** A bound of [l[start:stop]]: a negative one counts from the end, and
    both are clipped to the list. *)
Definition slice_bound (len : Z) (missing : Z) (b : option Z) : Z :=
  match b with
  | None => missing
  | Some i => if (i <? 0)%Z then Z.max (i + len) 0 else Z.min i len
  end.

(** [l[start:stop]] *)
Definition py_slice {A} (l : list A) (start stop : option Z) : list A :=
  let len := Z.of_nat (length l) in
  let lo := slice_bound len 0 start in
  let hi := slice_bound len len stop in
  take (Z.to_nat (hi - lo)) (drop (Z.to_nat lo) l).

(** [zip] of the lists of [ls], unpacked: the tuples of the elements at one
    index, as many as the shortest list has elements. *)
Fixpoint zip_star {A} (ls : list (list A)) : list (list A) :=
  match ls with
  | [] => []
  | [l] => map (fun x => [x]) l
  | l :: ls' => zip_with cons l (zip_star ls')
  end.

Section WithValues.

(** The values of the fields: any Python objects, held by reference. *)
Context {V : Type}.

(** *** dicts *)

(** A dict: its items in the order of insertion, one per key. *)
Definition dict : Type := list (string * V).

Fixpoint dict_get (d : dict) (key : string) : option V :=
  match d with
  | [] => None
  | (k, v) :: d' => if bool_decide (k = key) then Some v else dict_get d' key
  end.

(** [d[key] = value]: the value of a key that is there is replaced where
    it is; a new key goes last. *)
Fixpoint dict_set (d : dict) (key : string) (value : V) : dict :=
  match d with
  | [] => [(key, value)]
  | (k, v) :: d' =>
      if bool_decide (k = key) then (k, value) :: d'
      else (k, v) :: dict_set d' key value
  end.

(** [d.keys()] *)
Definition keys (d : dict) : list string := map fst d.

(** [dict(pairs)] *)
Definition dict_of (pairs : list (string * V)) : dict :=
  fold_left (fun d p => dict_set d (fst p) (snd p)) pairs [].

(** *** The store *)

(** What a list of trials holds: a dict, by reference, or an object that
    is no dict (and has neither [items] nor items to get or set). *)
Inductive trial : Type :=
| Dict (r : nat)
| NotADict.

(** The dicts and the lists of trials that exist. A reference is an index;
    the references the functions are given are to objects that exist. *)
Record store : Type := mk_store {
  dicts : list dict;
  lists : list (list trial)
}.

Definition dict_at (st : store) (r : nat) : dict := default [] (dicts st !! r).
Definition list_at (st : store) (l : nat) : list trial :=
  default [] (lists st !! l).

Definition new_dict (d : dict) (st : store) : store * nat :=
  (mk_store (dicts st ++ [d]) (lists st), length (dicts st)).
Definition new_list (l : list trial) (st : store) : store * nat :=
  (mk_store (dicts st) (lists st ++ [l]), length (lists st)).

(** [d[key] = value] on the dict at [r] *)
Definition store_item (r : nat) (key : string) (value : V) (st : store)
  : store :=
  mk_store (<[r := dict_set (dict_at st r) key value]> (dicts st)) (lists st).

(** *** class OutStruct *)

Record t : Type := mk { _data : nat; _strict : bool }.

(** [self.data] *)
Definition data (st : store) (self : t) : list trial := list_at st (_data self).

(** [len(self)] *)
Definition __len__ (st : store) (self : t) : nat := length (data st self).

(** [self.fields]: [[k for k, _ in self.data[0].items()]] *)
Definition fields (st : store) (self : t) : outcome (list string) :=
  match data st self with
  | [] => Raised (Builtin IndexError)
  | Dict r :: _ => Returned (keys (dict_at st r))
  | NotADict :: _ => Raised (Builtin (AttributeError "items"))
  end.

(** [self._validate_new_out_data(input_data, strict)] *)
Definition _validate_new_out_data (st : store) (self : t)
    (input_data : list trial) (strict : bool) : outcome unit :=
  and_then (fields st self) (fun fs =>
  let first_trial_fields : gset string := list_to_set fs in
  and_then
    (for_each
       (fun trial =>
          match trial with
          | NotADict => Raised (Builtin (TypeError msg_not_dicts))
          | Dict r =>
              let trial_fields : gset string :=
                list_to_set (keys (dict_at st r)) in
              if strict && negb (bool_decide (trial_fields = first_trial_fields))
              then Raised (Builtin (ValueError msg_fields_differ))
              else Returned tt
          end)
       input_data)
    (fun _ => Returned tt)).

(** The [data] argument of the constructor: a dict, a list, or something
    else. *)
Inductive init_arg : Type :=
| ADict (r : nat)
| AList (l : nat)
| AnotherObject.

(** [OutStruct(data, strict)]: the store, and the object or the error. A
    dict is put into a new list; a list is kept as it is, not copied. *)
Definition __init__ (data : init_arg) (strict : bool) (st : store)
  : store * outcome t :=
  match data with
  | ADict r =>
      let '(st, l) := new_list [Dict r] st in
      let self := mk l strict in
      (st, and_then (_validate_new_out_data st self (list_at st l) strict)
             (fun _ => Returned self))
  | AList l =>
      let self := mk l strict in
      (st, and_then (_validate_new_out_data st self (list_at st l) strict)
             (fun _ => Returned self))
  | AnotherObject => (st, Raised (Builtin (TypeError msg_create)))
  end.

(** The loop of [set_field]: [self.data[i][fieldname] = fielddata[i]]. *)
Fixpoint set_items (self : t) (fielddata : list V) (fieldname : string)
    (indices : list nat) (st : store) : store * outcome unit :=
  match indices with
  | [] => (st, Returned tt)
  | i :: indices' =>
      match data st self !! i, fielddata !! i with
      | Some (Dict r), Some v =>
          set_items self fielddata fieldname indices'
            (store_item r fieldname v st)
      | Some NotADict, Some _ =>
          (st, Raised (Builtin (TypeError msg_item_assignment)))
      | _, _ => (st, Raised (Builtin IndexError))
      end
  end.

(** [self.set_field(fielddata, fieldname)]; [fielddata] is [None] for an
    object that is not a list. *)
Definition set_field (self : t) (fielddata : option (list V))
    (fieldname : string) (st : store) : store * outcome unit :=
  match fielddata with
  | None => (st, Raised (Builtin (TypeError msg_not_a_list)))
  | Some fielddata =>
      if negb (length fielddata =? __len__ st self)%nat
      then (st, Raised (Exception msg_field_length))
      else set_items self fielddata fieldname
             (seq 0 (length (data st self))) st
  end.

(** [self.get_field(fieldname)] *)
Definition get_field (st : store) (self : t) (fieldname : string)
  : outcome (list V) :=
  for_each
    (fun tmp =>
       match tmp with
       | Dict r =>
           match dict_get (dict_at st r) fieldname with
           | Some v => Returned v
           | None =>
               Raised (Builtin (KeyError (msg_invalid_fieldname fieldname)))
           end
       | NotADict => Raised (Builtin (TypeError msg_not_subscriptable))
       end)
    (data st self).

(** [self.data.append(trial_data)] *)
Definition list_append (l : nat) (x : trial) (st : store) : store :=
  mk_store (dicts st) (<[l := list_at st l ++ [x]]> (lists st)).

(** [self.append(trial_data, strict)] *)
Definition append (self : t) (trial_data : trial) (strict : option bool)
    (st : store) : store * outcome unit :=
  let strict := default (_strict self) strict in
  match _validate_new_out_data st self [trial_data] strict with
  | Raised e => (st, Raised e)
  | Returned _ => (list_append (_data self) trial_data st, Returned tt)
  end.

(** The index of [self[index]]: a slice [start:stop], a string, a list of
    strings, a list (or array) of integers, an integer. *)
Inductive index : Type :=
| Slice (start stop : option Z)
| Str (fieldname : string)
| Strs (fieldnames : list string)
| Ints (indices : list Z)
| Int (i : Z).

(** What [self[index]] is: a trial, the list of a field, a container. *)
Inductive item : Type :=
| ATrial (x : trial)
| AField (values : list V)
| AContainer (o : t).

(** [dict([(field, x[field]) for field in index])] *)
Definition selected_items (st : store) (x : trial) (fieldnames : list string)
  : outcome dict :=
  and_then
    (for_each
       (fun field =>
          match x with
          | Dict r =>
              match dict_get (dict_at st r) field with
              | Some v => Returned (field, v)
              | None => Raised (Builtin (KeyError field))
              end
          | NotADict => Raised (Builtin (TypeError msg_not_subscriptable))
          end)
       fieldnames)
    (fun pairs => Returned (dict_of pairs)).

(** [[dict(...) for x in self]]: one new dict per trial. *)
Fixpoint select_fields (fieldnames : list string) (trials : list trial)
    (st : store) : store * outcome (list trial) :=
  match trials with
  | [] => (st, Returned [])
  | x :: trials' =>
      match selected_items st x fieldnames with
      | Raised e => (st, Raised e)
      | Returned d =>
          let '(st, r) := new_dict d st in
          let '(st, rest) := select_fields fieldnames trials' st in
          (st, and_then rest (fun rs => Returned (Dict r :: rs)))
      end
  end.

(** [self[index]] *)
Definition __getitem__ (self : t) (i : index) (st : store)
  : store * outcome item :=
  match i with
  | Slice start stop =>
      let '(st, l) := new_list (py_slice (data st self) start stop) st in
      let '(st, r) := __init__ (AList l) (_strict self) st in
      (st, and_then r (fun o => Returned (AContainer o)))
  | Str fieldname =>
      (st, and_then (get_field st self fieldname)
             (fun values => Returned (AField values)))
  | Strs [] | Ints [] => (st, Raised (Builtin IndexError))
  | Strs fieldnames =>
      match select_fields fieldnames (data st self) st with
      | (st, Raised e) => (st, Raised e)
      | (st, Returned trials) =>
          let '(st, l) := new_list trials st in
          let '(st, r) := __init__ (AList l) false st in
          (st, and_then r (fun o => Returned (AContainer o)))
      end
  | Ints indices =>
      match for_each (fun k => match py_index (data st self) k with
                               | Some x => Returned x
                               | None => Raised (Builtin IndexError)
                               end) indices with
      | Raised e => (st, Raised e)
      | Returned trials =>
          let '(st, l) := new_list trials st in
          let '(st, r) := __init__ (AList l) false st in
          (st, and_then r (fun o => Returned (AContainer o)))
      end
  | Int k =>
      match py_index (data st self) k with
      | Some x => (st, Returned (ATrial x))
      | None => (st, Raised (Builtin IndexError))
      end
  end.

(** [iter(self)], run to its end: [self[i] for i in range(len(self))]. *)
Definition __iter__ (st : store) (self : t) : outcome (list trial) :=
  for_each
    (fun k : nat =>
       match py_index (data st self) (Z.of_nat k) with
       | Some x => Returned x
       | None => Raised (Builtin IndexError)
       end)
    (seq 0 (__len__ st self)).

(** [self[index] = data]: with a string as index, a field is set; with an
    integer, a trial. *)
Inductive assignment : Type :=
| SetField (fieldname : string) (fielddata : option (list V))
| SetTrial (index : Z) (trial_data : trial).

(** [self.__setitem__(index, data)] *)
Definition __setitem__ (self : t) (a : assignment) (st : store)
  : store * outcome unit :=
  match a with
  | SetField fieldname fielddata => set_field self fielddata fieldname st
  | SetTrial i trial_data =>
      if (Z.of_nat (__len__ st self) <? i)%Z
      then (st, Raised (Builtin IndexError))
      else if (i =? Z.of_nat (__len__ st self))%Z
      then append self trial_data None st
      else
        match py_position (__len__ st self) i with
        | Some k =>
            (mk_store (dicts st)
               (<[_data self := <[k := trial_data]> (data st self)]> (lists st)),
             Returned tt)
        | None => (st, Raised (Builtin IndexError))
        end
  end.

(** *** join_fields *)

Section JoinFields.

(** [isinstance(x, np.ndarray)] and [np.concatenate(arrays, axis=axis)] *)
Context (is_ndarray : V -> bool).
Context (np_concatenate : list V -> Z -> outcome V).

(** The first loop: the checks of every input, in order. *)
Definition join_check (st : store) (fieldname : string) (out : option t)
  : outcome unit :=
  match out with
  | None => Raised (Builtin (TypeError msg_join_not_outstruct))
  | Some out =>
      and_then (get_field st out fieldname) (fun field =>
      match field with
      | [] => Raised (Builtin IndexError)
      | x :: _ =>
          if is_ndarray x then Returned tt
          else Raised (Builtin (TypeError msg_join_not_ndarray))
      end)
  end.

(** [[dict([(fieldname, x)]) for x in to_return]] *)
Fixpoint one_field_trials (fieldname : string) (values : list V)
    (st : store) : store * list trial :=
  match values with
  | [] => (st, [])
  | x :: values' =>
      let '(st, r) := new_dict (dict_of [(fieldname, x)]) st in
      let '(st, rs) := one_field_trials fieldname values' st in
      (st, Dict r :: rs)
  end.

(** [join_fields(outstructs, fieldname, axis, return_outstruct)]; an
    element of [outstructs] is [None] when it is no [OutStruct]. *)
Definition join_fields (outstructs : list (option t)) (fieldname : string)
    (axis : Z) (return_outstruct : bool) (st : store)
  : store * outcome (list V + t) :=
  match for_each (join_check st fieldname) outstructs with
  | Raised e => (st, Raised e)
  | Returned _ =>
      match for_each (fun out => match out with
                                 | Some out => get_field st out fieldname
                                 | None => Raised (Builtin (AttributeError "get_field"))
                                 end) outstructs with
      | Raised e => (st, Raised e)
      | Returned starting_fields =>
          match for_each (fun field_set => np_concatenate field_set axis)
                  (zip_star starting_fields) with
          | Raised e => (st, Raised e)
          | Returned to_return =>
              if return_outstruct then
                let '(st, trials) := one_field_trials fieldname to_return st in
                let '(st, l) := new_list trials st in
                let '(st, r) := __init__ (AList l) false st in
                (st, and_then r (fun o => Returned (inr o)))
              else (st, Returned (inl to_return))
          end
      end
  end.

End JoinFields.

End WithValues.

Arguments dict V : clear implicits.
Arguments store V : clear implicits.
Arguments item V : clear implicits.
Arguments assignment V : clear implicits.

End out_struct.

(** * Specifications and examples

    The predicates the properties are stated with, and the data of the
    examples. *)

(** Every run of [m] takes a state to a state related by [R]. *)
Definition respects {S : Type} (R : S -> S -> Prop) {A} (m : ST S A)
  : Prop :=
forall s s' r, m s = (s', r) -> R s s'.

Definition upto_estimator (s s' : TRF.t) : Prop :=
  exists e, s' = TRF.with_estimator_ e s.

(** The model a successful iteration of the loop over the targets
  appends: fitted on the full data for the alpha chosen, its last delay
  dropped. *)
Definition appended_model {E : Externals} (s : TRF.t) (X_ y_ : ndarray) (target_idx : nat)
  (rf : ReceptiveField) : Prop :=
exists y_t best rf0 c0 c,
  take_channel y_ target_idx = Ok y_t
  /\ rf_fit (_get_single_RF_model s best) X_ (newaxis1 y_t) = Ok rf0
  /\ rf_coef_ rf0 = Some c0
  /\ drop_last_axis2 c0 = Ok c
  /\ rf_coef_ rf = Some c.

(** The attributes [fit] assigns before the loop over the targets. *)
Definition fit_started {E : Externals} (s : TRF.t) (y_ : ndarray) : TRF.t :=
let delays :=
  mne._times_to_delays (TRF.tmin s) (TRF.tmax s) (TRF.sfreq s) in
TRF.set_valid_samples_ (_delays_to_slice delays)
  (TRF.set_delays_ delays
     (TRF.set_models_ [] (TRF.set_ndim_y_ (ndim y_) s))).

(** The predictors the loop works on. *)
Definition X_used (X_ y_ : ndarray) : ndarray :=
if (ndim y_ =? 3)%nat then newaxis1 X_ else X_.





(** What is assumed of mne's scorers with [multioutput='raw_values']: one
  score per column of the two-axis array scored. *)
Definition scorers_score_columns {E : Externals} : Prop :=
forall (name : string) (scorer : ndarray -> ndarray -> result (list Q))
       (y_pred y_true : ndarray) (s : list Q) (c : nat),
  _SCORERS name = Ok scorer ->
  scorer y_pred y_true = Ok s ->
  trailing y_true = [c] ->
  length s = c.







(** Two trials of four and of two samples, one predictor and one target. *)
Definition two_trials : heap :=
  [ col [1; 2; 3; 4]%Q; col [2; 4]%Q; col [1; 1; 1; 1]%Q; col [3; 3]%Q ].

Definition two_trials_self : TRF.t :=
  TRF.mk 1 0 1 "ridge" [1%Q] (1 # 4) false "corrcoef" 1 1
         None None None None None.

Definition two_trials_fitted : TRF.t * heap :=
  Eval vm_compute in
    fst (fit (E:=Toy.externals) None (Trials [0; 1]%nat) (Trials [2; 3]%nat)
           (two_trials_self, two_trials)).

(** The arrays that exist before a call are where they were, unchanged. *)
Definition preserves (h h' : heap) : Prop :=
  forall l, (l < length h)%nat -> h' !! l = h !! l.

(** A trial container with one trial: the predictor and the target of
    [demo_heap] under the field names that are the defaults of [fit]. *)
Definition demo_outstruct : OutStruct.t :=
  OutStruct.mk [ {[ "aud" := 0%nat; "resp" := 1%nat ]} ].

(** A result that, if it is a raise, is not a state error. *)
Definition no_state_error {A} (r : result A) : Prop :=
  forall e, r = Raise e -> is_state_error e = false.

(** What is assumed of mne: its predictions and scorers do not raise the
    "call fit first" errors of [TRF]. *)
Definition externals_raise_no_state_error {E : Externals} : Prop :=
  (forall rf x, no_state_error (rf_predict rf x))
  /\ (forall p t, no_state_error (_r2_score p t))
  /\ (forall p t, no_state_error (_corr_score p t)).

(** [TRF(tmin=0, tmax=1, sfreq=1, alpha=[1, 2, 0], fit_intercept=True)]:
    with several candidates and an intercept, the fold loop reads
    [self.coef_] before any model is stored, and [np.concatenate] of the
    empty list raises. *)
Definition intercept_self : TRF.t :=
  TRF.mk 1 0 1 "ridge" [1; 2; 0]%Q (1 # 4) true "corrcoef" 1 1
         None None None None None.

Definition intercept_fit : (TRF.t * heap) * result unit :=
  fit (E:=Toy.externals) None (Trials [0%nat]) (Trials [1%nat])
      (intercept_self, demo_heap).




(** What is assumed of [ReceptiveField.fit] with a [TimeDelayingRidge], as
    mne documents [coef_]: shape (n_outputs, n_features, n_delays), where
    the outputs are the last axis of [y], the features the last axis of
    [X] and the delays those of the window of the object. *)
Definition rf_fit_shape_contract {E : Externals} : Prop :=
  forall (rf rf' : ReceptiveField) (X y : ndarray),
    rf_fit rf X y = Ok rf' ->
    exists c,
      rf_coef_ rf' = Some c
      /\ shape c
         = [shape_last y; shape_last X;
            length (mne._times_to_delays (rf_tmin rf) (rf_tmax rf) (rf_sfreq rf))].

(** The number of numbers per output channel and time index of a target. *)
Definition n_output_features (y_ : ndarray) : nat :=
  List.last (1%nat :: tail (trailing y_)) 0%nat.

(** Stimulus reconstruction on a small scale: one trial of four samples,
    predictors with three features, a target with one channel of two
    features, lags 0 and 1. *)
Definition recon_heap : heap :=
  [ mk_array [3%nat]
      [[1; 0; 2]; [0; 1; 1]; [2; 1; 0]; [1; 1; 1]]%Q;
    mk_array [1%nat; 2%nat]
      [[1; 2]; [2; 1]; [0; 3]; [1; 1]]%Q ].

Definition recon_self : TRF.t :=
  TRF.mk 1 0 1 "ridge" [1%Q] (1 # 4) false "corrcoef" 1 1
         None None None None None.

Definition recon_fitted : TRF.t * heap :=
  Eval vm_compute in
    fst (fit (E:=Toy.externals) None (Trials [0%nat]) (Trials [1%nat])
           (recon_self, recon_heap)).

(** The taper in the specification's words: sample [i] of a trial of [T]
    samples is multiplied by the [i]-th value of the fade-in when it is
    among the first [length w_start] samples, and by the matching value of
    the fade-out when it is among the last [length w_end]. *)
Definition fade_in (w_start : list Q) (i : nat) (r : list Q) : list Q :=
  match w_start !! i with
  | Some w => scale_row w r
  | None => r
  end.

Definition fade_out (w_end : list Q) (T i : nat) (r : list Q) : list Q :=
  if (T - length w_end <=? i)%nat
  then match w_end !! (i - (T - length w_end))%nat with
       | Some w => scale_row w r
       | None => r
       end
  else r.

Definition tapered (w_start w_end : list Q) (v : ndarray) : ndarray :=
  mk_array (trailing v)
    (imap (fun i r => fade_out w_end (length (rows v)) i (fade_in w_start i r))
          (rows v)).


Definition n_delays (self : TRF.t) : nat :=
  length (mne._times_to_delays (TRF.tmin self) (TRF.tmax self)
            (TRF.sfreq self)).



(** ** Further specifications and examples *)

(** The arguments of the constructor, as the instance keeps them. *)
Definition hyperparameters (self : TRF.t)
  : Q * Q * Q * string * list Q * Q * bool * string * Z * Z :=
  (TRF.sfreq self, TRF.tmin self, TRF.tmax self, TRF.reg_type self,
   TRF.alpha self, TRF.xval_test_portion self, TRF.fit_intercept self,
   TRF.scoring self, TRF.n_jobs self, TRF.random_state self).

(** Lines 256-262 of [fit], for the alpha chosen: the model of a channel. *)
Definition channel_model {E : Externals} (self : TRF.t) (alpha : Q)
    (X_ y_ : ndarray) (target_idx : nat) : result ReceptiveField :=
  let* y_t := take_channel y_ target_idx in
  let* rf := rf_fit (_get_single_RF_model self alpha) X_ (newaxis1 y_t) in
  let* c := match rf_coef_ rf with
            | Some c => Ok c
            | None => Raise (AttributeError "coef_")
            end in
  let* c := drop_last_axis2 c in
  Ok (rf_set_coef_ c (rf_set_estimator (est_set_coef_ c (rf_estimator rf)) rf)).

(** The models of the channels in order, up to the first that raises. *)
Fixpoint fit_channels (fit_channel : nat -> result ReceptiveField)
    (channels : list nat) : list ReceptiveField * result unit :=
  match channels with
  | [] => ([], Ok tt)
  | i :: channels' =>
      match fit_channel i with
      | Ok rf =>
          let '(models, r) := fit_channels fit_channel channels' in
          (rf :: models, r)
      | Raise e => ([], Raise e)
      end
  end.

(** An array of four time indices and no channel. *)
Definition no_channel : ndarray := mk_array [0%nat] [[]; []; []; []].




(** A predictor of two axes and a target of one axis, four samples each. *)
Definition one_axis_heap : heap :=
  [ col [1; 2; 3; 4]%Q; mk_array [] [[1]; [2]; [2]; [1]]%Q ].

(** The instance and the heap after [fit] on them. *)
Definition one_axis_fitted : TRF.t * heap :=
  Eval vm_compute in
    fst (fit (E:=Toy.externals) None (Trials [0%nat]) (Trials [1%nat])
           (two_trials_self, one_axis_heap)).

(** What [predict] returns for the two trials after [fit]. *)
Definition two_trials_predictions : list ndarray :=
  Eval vm_compute in
    match predict (E:=Toy.externals) (fst two_trials_fitted)
            (snd two_trials_fitted) None (Trials [0; 1]%nat) with
    | Ok preds => preds
    | Raise _ => []
    end.

(** [score] on the two trials after [fit]: the heap and the scores. *)
Definition demo_scored : heap * result (list Q) :=
  Eval vm_compute in
    score (E:=Toy.externals) (fst two_trials_fitted) None
      (Trials [0; 1]%nat) (Trials [2; 3]%nat) true (snd two_trials_fitted).

(** The preparation of [fit] where both trials are one and the same array,
    for the predictors and for the targets. *)
Definition shared_prepared : heap * result (ndarray * ndarray) :=
  Eval vm_compute in
    fit_prepare (E:=Toy.externals) demo_self None
      (Trials [0; 0]%nat) (Trials [1; 1]%nat) demo_heap.

(** ** The trial container: specifications and examples *)

(** The set of the keys of the dict at [r]. *)
Definition key_set {V} (st : out_struct.store V) (r : nat) : gset string :=
  list_to_set (out_struct.keys (out_struct.dict_at st r)).

(** The trials all have the keys of the first one: what the constructor
    checks under [strict]. *)
Definition uniform {V} (st : out_struct.store V) (refs : list nat) : Prop :=
  forall r r', r ∈ refs -> r' ∈ refs -> key_set st r' = key_set st r.

(** The trials of a container are the dicts at [refs], which exist, as
    does its list. *)
Definition trials_at {V} (st : out_struct.store V) (self : out_struct.t)
    (refs : list nat) : Prop :=
  out_struct.data st self = map out_struct.Dict refs
  /\ Forall (fun r => (r < length (out_struct.dicts st))%nat) refs
  /\ (out_struct._data self < length (out_struct.lists st))%nat.

(** Five dicts, of which the first three are the trials of a strict
    container; a second list holds the first two of them. *)
Definition three_trials_store : out_struct.store nat :=
  out_struct.mk_store
    [ [("name", 1); ("resp", 2)];
      [("name", 3); ("resp", 4)];
      [("resp", 5); ("name", 6)];
      [("name", 7); ("resp", 8)];
      [("name", 9)] ]%nat
    [ [out_struct.Dict 0; out_struct.Dict 1; out_struct.Dict 2];
      [out_struct.Dict 0; out_struct.Dict 1] ]%nat.

(** The strict containers on the two lists. *)
Definition three_trials : out_struct.t := out_struct.mk 0 true.
Definition first_two_trials : out_struct.t := out_struct.mk 1 true.

(** * Properties *)

(** ** Rounding *)





(** ** The result and state monads *)

Lemma bind_Ok {A B} (r : result A) (k : A -> result B) (b : B) :
  bind r k = Ok b -> exists a, r = Ok a /\ k a = Ok b.
Proof. destruct r; simpl; [eauto | discriminate]. Qed.

Lemma mapM_Ok_length {A B} (f : A -> result B) (l : list A) (bs : list B) :
  mapM f l = Ok bs -> length bs = length l.
Proof.
  revert bs. induction l as [|a l IH]; simpl; intros bs H.
  - by injection H as <-.
  - apply bind_Ok in H as (b & _ & H).
    apply bind_Ok in H as (bs' & Hbs & H). injection H as <-.
    simpl. by rewrite (IH bs').
Qed.

Lemma mapM_Ok_lookup {A B} (f : A -> result B) (l : list A) (bs : list B) i a :
  mapM f l = Ok bs -> l !! i = Some a -> exists b, bs !! i = Some b /\ f a = Ok b.
Proof.
  revert bs i. induction l as [|a0 l IH]; simpl; intros bs i H Hi; [done|].
  apply bind_Ok in H as (b & Hb & H).
  apply bind_Ok in H as (bs' & Hbs & H). injection H as <-.
  destruct i as [|i]; simpl in *.
  - injection Hi as ->. eauto.
  - eauto.
Qed.

Lemma mapM_map {A B} (f : A -> result B) (g : A -> B) (l : list A) :
  (forall a, a ∈ l -> f a = Ok (g a)) -> mapM f l = Ok (map g l).
Proof.
  induction l as [|a l IH]; simpl; intros H; [done|].
  rewrite H by constructor. simpl. rewrite IH; [done|].
  intros a' Ha'. apply H. by constructor.
Qed.

Lemma bindS_inv {S A B} (m : ST S A) (k : A -> ST S B) s s' r :
  bindS m k s = (s', r) ->
  (exists s1 a, m s = (s1, Ok a) /\ k a s1 = (s', r))
  \/ (exists e, m s = (s', Raise e) /\ r = Raise e).
Proof.
  unfold bindS. destruct (m s) as [s1 [a | e]].
  - intros H. left. eauto.
  - intros H. injection H as <- <-. right. eauto.
Qed.

Section Respects.

Context {S : Type} (R : S -> S -> Prop).
Context (R_refl : forall s, R s s).
Context (R_trans : forall s1 s2 s3, R s1 s2 -> R s2 s3 -> R s1 s3).

Lemma respects_ret {A} (a : A) : respects R (ret a).
Proof. intros s s' r H. injection H as <- _. apply R_refl. Qed.

Lemma respects_raise {A} e : respects R (@raise S A e).
Proof. intros s s' r H. injection H as <- _. apply R_refl. Qed.

Lemma respects_lift {A} (x : result A) : respects R (lift x).
Proof. intros s s' r H. injection H as <- _. apply R_refl. Qed.

Lemma respects_get : respects R get.
Proof. intros s s' r H. injection H as <- _. apply R_refl. Qed.

Lemma respects_modify (f : S -> S) :
(forall s, R s (f s)) -> respects R (modify f).
Proof. intros Hf s s' r H. injection H as <- _. apply Hf. Qed.

Lemma respects_bind {A B} (m : ST S A) (k : A -> ST S B) :
respects R m -> (forall a, respects R (k a)) -> respects R (bindS m k).
Proof.
intros Hm Hk s s' r H.
apply bindS_inv in H as [(s1 & a & H1 & H2) | (e & H1 & _)].
- eapply R_trans; [eapply Hm | eapply Hk]; eauto.
- eapply Hm; eauto.
Qed.

Lemma respects_mapS {A B} (f : A -> ST S B) (l : list A) :
(forall a, respects R (f a)) -> respects R (mapS f l).
Proof.
intros Hf. induction l as [|a l IH]; simpl.
- apply respects_ret.
- apply respects_bind; [apply Hf|]. intros b.
  apply respects_bind; [apply IH|]. intros bs. apply respects_ret.
Qed.

Lemma respects_forS {A} (l : list A) (f : A -> ST S unit) :
(forall a, respects R (f a)) -> respects R (forS l f).
Proof.
intros Hf. induction l as [|a l IH]; simpl.
- apply respects_ret.
- apply respects_bind; [apply Hf|]. intros _. apply IH.
Qed.

End Respects.

(** The steps that are the same for every relation. *)
Ltac respects_step refl trans :=
  first
    [ apply (respects_ret _ refl)
    | apply (respects_raise _ refl)
    | apply (respects_lift _ refl)
    | apply (respects_get _ refl)
    | apply (respects_bind _ trans); [| intros ? ]
    | apply (respects_mapS _ refl trans); intros ?
    | apply (respects_forS _ refl trans); intros ? ].

(** ** What the fold loop may assign: only [estimator_] *)

Lemma upto_estimator_refl s : upto_estimator s s.
Proof. exists (TRF.estimator_ s). by destruct s. Qed.

Lemma upto_estimator_trans s1 s2 s3 :
  upto_estimator s1 s2 -> upto_estimator s2 s3 -> upto_estimator s1 s3.
Proof. intros [e1 ->] [e2 ->]. by exists e2. Qed.

Ltac upto_estimator_step :=
  respects_step upto_estimator_refl upto_estimator_trans.

Section FitInvariants.

Context {E : Externals}.

Lemma write_estimator_respects f rf :
respects upto_estimator (write_estimator f rf).
Proof.
unfold write_estimator. repeat upto_estimator_step.
apply respects_modify. intros s. by eexists.
Qed.

Lemma cv_alphas_respects alphas rf cr X_test y_test :
respects upto_estimator (cv_alphas alphas rf cr X_test y_test).
Proof.
revert rf. induction alphas as [|a alphas IH]; intros rf; simpl.
- upto_estimator_step.
- repeat first [ apply write_estimator_respects | apply IH
               | upto_estimator_step | destruct (TRF.fit_intercept _) ].
Qed.

Lemma cv_fold_respects fold : respects upto_estimator (cv_fold fold).
Proof.
unfold cv_fold.
repeat first [ apply write_estimator_respects | apply cv_alphas_respects
             | upto_estimator_step ].
Qed.

Lemma cross_validate_respects X_ y_t :
respects upto_estimator (cross_validate X_ y_t).
Proof.
unfold cross_validate.
repeat first [ apply cv_fold_respects | upto_estimator_step ].
Qed.

End FitInvariants.

(** Inversion of the runs of the primitive computations. *)
Lemma lift_inv {S A} (x : result A) (s s' : S) r :
  lift x s = (s', r) -> s' = s /\ r = x.
Proof. intros H. by injection H as <- <-. Qed.

Lemma get_inv {S} (s s' : S) r : get s = (s', r) -> s' = s /\ r = Ok s.
Proof. intros H. by injection H as <- <-. Qed.

Lemma modify_inv {S} (f : S -> S) (s s' : S) r :
  modify f s = (s', r) -> s' = f s /\ r = Ok tt.
Proof. intros H. by injection H as <- <-. Qed.

Lemma ret_inv {S A} (a : A) (s s' : S) r :
  ret a s = (s', r) -> s' = s /\ r = Ok a.
Proof. intros H. by injection H as <- <-. Qed.

Lemma raise_inv {S A} e (s s' : S) (r : result A) :
  raise e s = (s', r) -> s' = s /\ r = Raise e.
Proof. intros H. by injection H as <- <-. Qed.

(** One step of a run: the first computation returned, or it raised. *)
Tactic Notation "run_step" hyp(H) "as" ident(s1) ident(a) ident(Hm) :=
  let Hr := fresh "Hr" in
  apply bindS_inv in H as [(s1 & a & Hm & H) | (? & H & Hr)];
  [ | first [ discriminate Hr | revert Hr; intros -> ] ].

Ltac run_prim H :=
  first
    [ apply lift_inv in H
    | apply get_inv in H
    | apply modify_inv in H
    | apply ret_inv in H
    | apply raise_inv in H ];
  destruct H as [-> H].

Section FitTarget.

Context {E : Externals}.

Lemma get_single_RF_model_upto e s a :
_get_single_RF_model (TRF.with_estimator_ e s) a = _get_single_RF_model s a.
Proof. done. Qed.

Lemma fit_target_run X_ y_ i s s' r :
fit_target X_ y_ i s = (s', r) ->
exists e,
  match r with
  | Ok _ =>
      exists ms rf,
        TRF.models_ s = Some ms
        /\ s' = TRF.with_estimator_ e (TRF.set_models_ (ms ++ [rf]) s)
        /\ appended_model s X_ y_ i rf
  | Raise _ => s' = TRF.with_estimator_ e s
  end.
Proof.
unfold fit_target. intros H.
run_step H as s1 y_t H1; [| run_prim H; by apply upto_estimator_refl].
run_prim H1.
run_step H as s2 self H2; [| by run_prim H]. run_prim H2. injection H2 as ->.
run_step H as s3 best H3.
2:{ destruct (1 <? _)%nat.
    - by apply cross_validate_respects in H.
    - run_prim H. by apply upto_estimator_refl. }
assert (upto_estimator s s3) as [e1 ->].
{ destruct (1 <? _)%nat.
  - by apply cross_validate_respects in H3.
  - run_prim H3. apply upto_estimator_refl. }
clear H3.
run_step H as s4 self H4; [| by run_prim H]. run_prim H4. injection H4 as ->.
run_step H as s5 rf0 H5; [| run_prim H; by exists e1]. run_prim H5.
run_step H as s6 c0 H6; [| run_prim H; by exists e1]. run_prim H6.
run_step H as s7 c H7; [| run_prim H; by exists e1]. run_prim H7.
run_step H as s8 self H8; [| by run_prim H]. run_prim H8. injection H8 as ->.
simpl in H. destruct (TRF.models_ s) as [ms|] eqn:Hms.
- run_prim H. subst r. exists e1. eexists ms, _. split; [done|]. split.
  + destruct s; simpl in *; by subst.
  + unfold appended_model. destruct (rf_coef_ rf0) as [c0'|] eqn:Hc0; [|done].
    injection H6 as ->. eexists y_t, best, rf0, c0', c. eauto.
- run_prim H. subst r. by exists e1.
Qed.

End FitTarget.

Section FitModels.

Context {E : Externals}.

Lemma appended_model_upto e ms s X_ y_ i rf :
appended_model (TRF.with_estimator_ e (TRF.set_models_ ms s)) X_ y_ i rf
<-> appended_model s X_ y_ i rf.
Proof. done. Qed.

(** The loop over the targets: the models of the targets fitted so far
  are appended one by one; a raise leaves those appended before it. *)
Lemma fit_targets_run X_ y_ l s s' r ms :
forS l (fit_target X_ y_) s = (s', r) ->
TRF.models_ s = Some ms ->
exists e ext,
  s' = TRF.with_estimator_ e (TRF.set_models_ (ms ++ ext) s)
  /\ Forall2 (appended_model s X_ y_) (take (length ext) l) ext
  /\ match r with
     | Ok _ => length ext = length l
     | Raise _ => (length ext < length l)%nat
     end.
Proof.
revert s ms. induction l as [|i l IH]; simpl; intros s ms H Hms.
- run_prim H. subst r. exists (TRF.estimator_ s), []. rewrite app_nil_r.
  split; [destruct s; simpl in *; by subst|]. split; [constructor|done].
- run_step H as s1 u H1.
  + apply fit_target_run in H1 as (e1 & ms1 & rf & Hms1 & -> & Hrf).
    rewrite Hms in Hms1. injection Hms1 as <-.
    apply (IH _ (ms ++ [rf])) in H as (e & ext & -> & Hext & Hr); [|done].
    exists e, (rf :: ext). split; [|split].
    * by rewrite <- app_assoc.
    * simpl. constructor; [done|].
      eapply Forall2_impl; [exact Hext|]. intros j rf' Hj.
      by apply appended_model_upto in Hj.
    * destruct r; simpl; lia.
  + apply fit_target_run in H as (e1 & ->).
    exists e1, []. rewrite app_nil_r. split; [|split].
    * destruct s; simpl in *; by subst.
    * constructor.
    * simpl. lia.
Qed.

Lemma fit_models_run X_ y_ s s' r :
fit_models X_ y_ s = (s', r) ->
(s' = TRF.set_ndim_y_ (ndim y_) s /\ r = Raise IndexError)
\/ exists e ext,
     s' = TRF.with_estimator_ e (TRF.set_models_ ext (fit_started s y_))
     /\ Forall2 (appended_model s (X_used X_ y_) y_)
                (seq 0 (length ext)) ext
     /\ match r with
        | Ok _ => shape1 y_ = Ok (length ext)
        | Raise _ =>
            forall n, shape1 y_ = Ok n -> (length ext < n)%nat
        end.
Proof.
unfold fit_models. intros H.
run_step H as s1 u H1; [| by run_prim H]. run_prim H1. clear H1.
run_step H as s2 X' H2.
2:{ left. destruct (ndim y_ =? 3)%nat; [destruct (ndim X_ <? 2)%nat|];
      run_prim H; by try injection H as ->. }
assert (s2 = TRF.set_ndim_y_ (ndim y_) s /\ X' = X_used X_ y_) as [-> ->].
{ unfold X_used. destruct (ndim y_ =? 3)%nat; [destruct (ndim X_ <? 2)%nat|];
    run_prim H2; [done| |]; by injection H2 as ->. }
clear H2.
run_step H as s3 u3 H3; [| by run_prim H]. run_prim H3. clear H3.
run_step H as s4 self H4; [| by run_prim H]. run_prim H4. injection H4 as ->.
run_step H as s5 u5 H5; [| by run_prim H]. run_prim H5. clear H5.
run_step H as s6 u6 H6; [| by run_prim H]. run_prim H6. clear H6.
right.
run_step H as s7 n H7.
2:{ run_prim H. exists (TRF.estimator_ s), [].
    split; [by destruct s|]. split; [constructor|].
    intros n Hn. by rewrite Hn in H. }
run_prim H7.
eapply (fit_targets_run _ _ _ _ _ _ []) in H as (e & ext & -> & Hext & Hr);
  [|done].
rewrite length_seq in Hr.
exists e, ext. split; [by destruct s|]. split.
- assert (take (length ext) (seq 0 n) = seq 0 (length ext)) as Htake.
  { assert (length ext <= n)%nat as Hle by (destruct r; lia).
    rewrite take_seq. f_equal. lia. }
  rewrite <- Htake. eapply Forall2_impl; [exact Hext|]. by intros.
- destruct r.
  + by rewrite Hr.
  + intros n' Hn'. rewrite <- H7 in Hn'. by injection Hn' as <-.
Qed.

End FitModels.

(** ** The constructor *)

(** C8. [TRF.__init__] raises exactly when [tmin >= tmax], or when more
    than one alpha candidate is given (the default grid of eight included)
    together with a test portion above 0.5; what it raises is then one of
    the two configuration errors, and it is raised by the constructor: no
    object is returned. An object that is returned carries no fitted
    attribute yet. *)
Theorem init_configuration_error
    (tmin tmax sfreq : Q) (reg_type : string) (alpha : alpha_arg)
    (xval_test_portion : Q) (fit_intercept : bool) (scoring : string)
    (n_jobs random_state : Z) :
  ((exists e,
       TRF.__init__ tmin tmax sfreq reg_type alpha xval_test_portion
         fit_intercept scoring n_jobs random_state = Raise e)
   <-> ((tmax <= tmin)%Q
        \/ ((1 < length (TRF.alpha_candidates alpha))%nat
            /\ (1 # 2 < xval_test_portion)%Q)))
  /\ (forall e,
        TRF.__init__ tmin tmax sfreq reg_type alpha xval_test_portion
          fit_intercept scoring n_jobs random_state = Raise e ->
        is_configuration_error e = true)
  /\ (forall self,
        TRF.__init__ tmin tmax sfreq reg_type alpha xval_test_portion
          fit_intercept scoring n_jobs random_state = Ok self ->
        TRF.alpha self = TRF.alpha_candidates alpha
        /\ TRF.ndim_y_ self = None /\ TRF.models_ self = None).
Proof.
  unfold TRF.__init__.
  destruct (Qle_bool tmax tmin) eqn:Ht.
  - apply Qle_bool_iff in Ht. split; [|split].
    + split; [auto | eauto].
    + intros e [= <-]. reflexivity.
    + discriminate.
  - assert (~ (tmax <= tmin)%Q) as Hnt.
    { intros Hle. apply Qle_bool_iff in Hle. congruence. }
    destruct (1 <? length (TRF.alpha_candidates alpha))%nat eqn:Hlen;
      [apply Nat.ltb_lt in Hlen | apply Nat.ltb_ge in Hlen];
      (destruct (Qle_bool xval_test_portion (1 # 2)) eqn:Hp;
       [apply Qle_bool_iff in Hp
       | assert (1 # 2 < xval_test_portion)%Q as Hgt
           by (apply Qnot_le_lt; intros Hle; apply Qle_bool_iff in Hle;
               congruence)]);
      simpl; (split; [|split]).
    + split; [intros [e He]; discriminate|].
      intros [Hle | [_ Hgt]]; [done | exfalso; lra].
    + discriminate.
    + by intros self [= <-].
    + split; eauto.
    + intros e [= <-]. reflexivity.
    + discriminate.
    + split; [intros [e He]; discriminate|].
      intros [Hle | [Hl _]]; [done | lia].
    + discriminate.
    + by intros self [= <-].
    + split; [intros [e He]; discriminate|].
      intros [Hle | [Hl _]]; [done | lia].
    + discriminate.
    + by intros self [= <-].
Qed.

(** ** The delay set *)




Section DelaySet.

Context {E : Externals}.


End DelaySet.


(** ** The cross-validation splits *)

Lemma int_nonneg (q : Q) : (0 <= q)%Q -> py.int q = Qfloor q.
Proof.
  intros Hq. unfold py.int.
  destruct (Qle_bool 0 q) eqn:Hb; [done|].
  apply Qle_bool_iff in Hq. congruence.
Qed.

(** [int((T - w) / w + 1)] is the integer quotient [(T - w) / w + 1]. *)
Lemma num_chunks_quotient (T w : Z) :
  (0 <= T)%Z -> (0 < w)%Z ->
  py.int (inject_Z (T - w) / inject_Z w + 1) = ((T - w) / w + 1)%Z
  /\ ((T - w) / w + 1 = T / w)%Z.
Proof.
  intros HT Hw.
  assert ((T - w) / w + 1 = T / w)%Z as Hq.
  { rewrite <- (Z.div_add (T - w) 1 w) by lia. f_equal. lia. }
  split; [|exact Hq].
  assert (inject_Z (T - w) / inject_Z w + 1 == inject_Z T / inject_Z w)%Q as He.
  { unfold Z.sub. rewrite inject_Z_plus, inject_Z_opp. field.
    intros H0. assert (inject_Z 0 < inject_Z w)%Q as Hlt by (rewrite <- Zlt_Qlt; lia).
    rewrite H0 in Hlt. by apply Qlt_irrefl in Hlt. }
  rewrite int_nonneg.
  - rewrite (Qfloor_comp _ _ He), <- Zdiv_Qdiv. lia.
  - rewrite He. apply Qle_shift_div_l.
    + change 0%Q with (inject_Z 0). rewrite <- Zlt_Qlt. lia.
    + rewrite Qmult_0_l. change 0%Q with (inject_Z 0). rewrite <- Zle_Qle. lia.
Qed.

Lemma range_step (n w : Z) :
  (0 <= n)%Z -> (0 < w)%Z ->
  py.range 0 (n * w) w = map (fun k => (Z.of_nat k * w)%Z) (seq 0 (Z.to_nat n)).
Proof.
  intros Hn Hw. unfold py.range.
  destruct (0 <? w)%Z eqn:Hb; [|lia].
  assert ((n * w - 0 + w - 1) / w = n)%Z as ->.
  { symmetry. apply (Z.div_unique _ _ _ (w - 1)); lia. }
  apply map_ext. intros k. lia.
Qed.

Lemma arange_lookup (n i : Z) :
  (0 <= i < n)%Z -> np.arange 0 n !! Z.to_nat i = Some i.
Proof.
  intros Hi. unfold np.arange. rewrite list_lookup_fmap.
  rewrite lookup_seq_lt by lia. simpl. f_equal. lia.
Qed.


(** The folds in closed form, where the block is not empty. *)
Lemma xval_time_splits_run {A : Type} (data : list A) (test_portion : Q) :
  let T := Z.of_nat (length data) in
  let w := np.floor (inject_Z T * test_portion) in
  (1 <= w)%Z ->
  _xval_time_splits data test_portion
  = Ok (map (fun i : Z => (np.delete data i (i + w), np.slice data i (i + w)))
          (map (fun k : nat => (Z.of_nat k * w)%Z)
               (seq 0 (Z.to_nat ((T - w) / w + 1))))).
Proof.
  intros T w Hw. unfold _xval_time_splits. fold T. fold w.
  destruct (w =? 0)%Z eqn:Hw0; [lia|]. clear Hw0.
  destruct (num_chunks_quotient T w) as [-> Hq]; [lia | lia |].
  set (n := ((T - w) / w + 1)%Z) in *.
  assert (0 <= n)%Z as Hn by (rewrite Hq; apply Z.div_pos; lia).
  assert (n * w <= T)%Z as HnT.
  { rewrite Hq, Z.mul_comm. apply Z.mul_div_le. lia. }
  rewrite range_step by lia.
  rewrite (mapM_map _ (fun i : Z =>
                         (np.delete data i (i + w), np.slice data i (i + w)))).
  - reflexivity.
  - intros i Hi. apply list_elem_of_fmap in Hi as (k & -> & Hk).
    apply elem_of_seq in Hk. rewrite arange_lookup by nia. done.
Qed.



(** ** The choice of alpha *)







Lemma mapS_Forall2 {S A B} (f : A -> ST S B) (P : A -> B -> Prop)
    (l : list A) (s s' : S) (bs : list B) :
  (forall a s1 s2 b, f a s1 = (s2, Ok b) -> P a b) ->
  mapS f l s = (s', Ok bs) -> Forall2 P l bs.
Proof.
  intros Hf. revert s bs. induction l as [|a l IH]; simpl; intros s bs H.
  - apply ret_inv in H as [_ [= ->]]. constructor.
  - run_step H as s1 b H1.
    run_step H as s2 bs' H2.
    apply ret_inv in H as [-> [= ->]]. constructor; eauto.
Qed.



Section Selection.

Context {E : Externals}.


Lemma np_average_length columns weights v :
np_average columns weights = Ok v ->
length v = length (hd [] columns).
Proof.
unfold np_average. destruct columns as [|c0 cs]; [done|].
destruct (negb _); [done|]. destruct (negb _); [done|].
destruct (Qeq_bool _ _); [done|]. intros [= <-].
by rewrite length_map, length_seq.
Qed.






End Selection.

(** The toy scorer returns one score per column. *)
Lemma toy_scorers_score_columns : scorers_score_columns (E:=Toy.externals).
Proof.
  intros name scorer y_pred y_true s c Hname Hs Htr.
  assert (scorer = Toy.neg_sq_err) as ->.
  { unfold _SCORERS in Hname. simpl in Hname.
    repeat destruct (bool_decide _); congruence. }
  unfold Toy.neg_sq_err in Hs. rewrite Htr in Hs. injection Hs as <-.
  by rewrite length_map, length_seq.
Qed.


(** ** The score *)






Section Score.

Context {E : Externals}.




End Score.


(** ** The caller's arrays *)

Lemma preserves_refl h : preserves h h.
Proof. by intros l Hl. Qed.

Lemma preserves_length h h' : preserves h h' -> (length h <= length h')%nat.
Proof.
  intros Hp. destruct (decide (length h <= length h')%nat) as [|Hn]; [done|].
  assert (length h' < length h)%nat as Hlt by lia.
  specialize (Hp (length h') Hlt).
  rewrite (lookup_ge_None_2 h') in Hp by lia.
  symmetry in Hp. apply lookup_ge_None_1 in Hp. lia.
Qed.

Lemma preserves_trans h1 h2 h3 :
  preserves h1 h2 -> preserves h2 h3 -> preserves h1 h3.
Proof.
  intros H12 H23 l Hl. rewrite H23, H12; [done | done |].
  apply preserves_length in H12. lia.
Qed.

(** [deepcopy] allocates and never writes: what it returns for a list of
    arrays are references to new objects. *)
Lemma deepcopy_arrays_fresh (N : nat) (ls : list loc) :
  forall (h : heap) (memo : gmap loc loc) (h' : heap) (ls' : list loc),
    (N <= length h)%nat ->
    (forall l l1, memo !! l = Some l1 -> (N <= l1)%nat) ->
    deepcopy_arrays h memo ls = (h', ls') ->
    preserves h h' /\ Forall (fun l' => (N <= l')%nat) ls'.
Proof.
  induction ls as [|l ls IH]; intros h memo h' ls' HN Hmemo H; simpl in H.
  - injection H as <- <-. split; [apply preserves_refl | constructor].
  - destruct (memo !! l) as [l1|] eqn:Hl.
    + destruct (deepcopy_arrays h memo ls) as [h2 ls2] eqn:Hrec.
      injection H as <- <-.
      destruct (IH _ _ _ _ HN Hmemo Hrec) as [Hp Hall].
      split; [done|]. constructor; eauto.
    + unfold alloc in H.
      match type of H with
      | context [deepcopy_arrays ?a ?b ?c] =>
          destruct (deepcopy_arrays a b c) as [h2 ls2] eqn:Hrec
      end.
      injection H as <- <-.
      apply IH in Hrec as [Hp Hall].
      * split; [|constructor; [lia | done]].
        intros l' Hl'. rewrite Hp by (rewrite length_app; simpl; lia).
        by rewrite lookup_app_l.
      * rewrite length_app. simpl. lia.
      * intros k k1 Hk. destruct (decide (l = k)) as [->|Hne].
        -- rewrite lookup_insert_eq in Hk. injection Hk as <-. lia.
        -- rewrite lookup_insert_ne in Hk by done. eauto.
Qed.

Lemma deepcopy_fresh (a : data_arg) (h h' : heap) (r : result data_arg) :
  deepcopy a h = (h', r) ->
  preserves h h'
  /\ match a with
     | Field name => r = Ok (Field name)
     | Trials _ =>
         exists ls', r = Ok (Trials ls')
                     /\ Forall (fun l' => (length h <= l')%nat) ls'
     end.
Proof.
  unfold deepcopy. destruct a as [name | ls].
  - intros [= <- <-]. split; [apply preserves_refl | done].
  - destruct (deepcopy_arrays h ∅ ls) as [h2 ls2] eqn:Hrec.
    intros [= <- <-].
    apply (deepcopy_arrays_fresh (length h)) in Hrec as [Hp Hall]; [|lia|done].
    split; [done|]. eauto.
Qed.

(** An assignment through a reference writes the array it points to and
    no other. *)
Lemma assign_rows_frame flat win3 F0 l f (h h' : heap) r :
  assign_rows flat win3 F0 l f h = (h', r) ->
  length h' = length h /\ forall l', l' <> l -> h' !! l' = h !! l'.
Proof.
  unfold assign_rows. destruct (h !! l) as [a|]; [|by intros [= <- <-]].
  destruct (taper_compatible _ _ _); [|by intros [= <- <-]].
  destruct (f _) as [rs|e]; intros [= <- <-]; [|done].
  split; [apply length_insert|]. intros l' Hne.
  by apply list_lookup_insert_ne.
Qed.

Lemma taper_in_place_frame flat win3 F0 ws we l (h h' : heap) r :
  taper_in_place flat win3 F0 ws we l h = (h', r) ->
  length h' = length h /\ forall l', l' <> l -> h' !! l' = h !! l'.
Proof.
  unfold taper_in_place. intros H.
  apply bindS_inv in H as [(h1 & u & H1 & H2) | (e & H1 & _)].
  - apply assign_rows_frame in H1 as [Hl1 Hf1].
    apply assign_rows_frame in H2 as [Hl2 Hf2].
    split; [lia|]. intros l' Hne. by rewrite Hf2, Hf1.
  - by apply assign_rows_frame in H1.
Qed.

Lemma taper_loop_frame flat win3 F0 ws we (N : nat) (ls : list loc) :
  Forall (fun l => (N <= l)%nat) ls ->
  forall h h' r,
    forS ls (taper_in_place flat win3 F0 ws we) h = (h', r) ->
    length h' = length h /\ forall l', (l' < N)%nat -> h' !! l' = h !! l'.
Proof.
  induction 1 as [|l ls Hl _ IH]; intros h h' r H; simpl in H.
  - apply ret_inv in H as [-> _]. done.
  - apply bindS_inv in H as [(h1 & u & H1 & H2) | (e & H1 & _)].
    + apply taper_in_place_frame in H1 as [Hl1 Hf1].
      apply IH in H2 as [Hl2 Hf2]. split; [lia|].
      intros l' Hl'. rewrite Hf2 by done. apply Hf1. lia.
    + apply taper_in_place_frame in H1 as [Hl1 Hf1]. split; [done|].
      intros l' Hl'. apply Hf1. lia.
Qed.

Section Frame.

Context {E : Externals}.

(** [fit] with the arrays passed directly: the copies are tapered, the
    caller's arrays are not written. *)
Lemma fit_prepare_preserves_direct (self : TRF.t)
    (outstruct : option OutStruct.t) (xs ys : list loc)
    (h h' : heap) (r : result (ndarray * ndarray)) :
  fit_prepare self outstruct (Trials xs) (Trials ys) h = (h', r) ->
  preserves h h'.
Proof.
  unfold fit_prepare. intros H.
  apply bindS_inv in H as [(h1 & X' & H1 & H) | (e & H & _)];
    [| by apply deepcopy_fresh in H as [Hp _]].
  apply deepcopy_fresh in H1 as [Hp1 (xs' & [= ->] & Hxs')].
  apply bindS_inv in H as [(h2 & y' & H2 & H) | (e & H & _)].
  2:{ apply deepcopy_fresh in H as [Hp _].
      by eapply preserves_trans. }
  apply deepcopy_fresh in H2 as [Hp2 (ys' & [= ->] & Hys')].
  assert (preserves h h2) as Hp by (by eapply preserves_trans).
  assert (Forall (fun l => (length h <= l)%nat) ys') as Hfresh.
  { eapply Forall_impl; [exact Hys'|]. intros l Hl. simpl in Hl.
    apply preserves_length in Hp1. lia. }
  clear Hp1 Hp2 Hxs' Hys'.
  apply bindS_inv in H as [(h3 & parsed & H3 & H) | (e & H & _)];
    [| by apply lift_inv in H as [-> _]].
  apply lift_inv in H3 as [-> H3].
  assert (snd parsed = ys') as Hsnd.
  { unfold _parse_outstruct_args in H3. simpl in H3.
    destruct (length xs' =? length ys')%nat; [|done]. by injection H3 as ->. }
  rewrite Hsnd in H. clear H3 Hsnd.
  apply bindS_inv in H as [(h4 & Xs & H4 & H) | (e & H & _)];
    [| by apply lift_inv in H as [-> _]].
  apply lift_inv in H4 as [-> _].
  apply bindS_inv in H as [(h5 & X_ & H5 & H) | (e & H & _)];
    [| by apply lift_inv in H as [-> _]].
  apply lift_inv in H5 as [-> _].
  apply bindS_inv in H as [(h6 & y0 & H6 & H) | (e & H & _)].
  2:{ destruct ys'; [by apply raise_inv in H as [-> _]
                    | by apply lift_inv in H as [-> _]]. }
  assert (h6 = h2) as ->.
  { destruct ys'; [by apply raise_inv in H6 as [-> _]
                  | by apply lift_inv in H6 as [-> _]]. }
  clear H6.
  apply bindS_inv in H as [(h7 & u & H7 & H) | (e & H & _)].
  2:{ destruct (_ && _); [by apply raise_inv in H as [-> _]
                         | by apply ret_inv in H as [-> _]]. }
  assert (h7 = h2) as ->.
  { destruct (_ && _); [by apply raise_inv in H7 as [-> _]
                       | by apply ret_inv in H7 as [-> _]]. }
  clear H7.
  assert (forall h8 r8,
            forS ys' (taper_in_place (ndim y0 =? 1)%nat
                        (ndim (view (ndim y0 =? 1)%nat y0) =? 3)%nat
                        (shape_last y0) (hamming_start self) (hamming_end self))
                 h2 = (h8, r8) -> preserves h h8) as Hloop.
  { intros h8 r8 H8.
    apply (taper_loop_frame _ _ _ _ _ (length h)) in H8 as [_ Hf]; [|done].
    intros l Hl. rewrite Hf by done. by apply Hp. }
  apply bindS_inv in H as [(h8 & u8 & H8 & H) | (e & H & _)]; [|by eapply Hloop].
  apply Hloop in H8.
  apply bindS_inv in H as [(h9 & ys_ & H9 & H) | (e & H & _)];
    [| by apply lift_inv in H as [-> _]].
  apply lift_inv in H9 as [-> _].
  apply bindS_inv in H as [(h10 & y_ & H10 & H) | (e & H & _)];
    [| by apply lift_inv in H as [-> _]].
  apply lift_inv in H10 as [-> _].
  by apply ret_inv in H as [-> _].
Qed.

Lemma fit_preserves_direct (outstruct : option OutStruct.t) (xs ys : list loc)
    (self self' : TRF.t) (h h' : heap) (r : result unit) :
  fit outstruct (Trials xs) (Trials ys) (self, h) = ((self', h'), r) ->
  preserves h h'.
Proof.
  unfold fit. intros H.
  destruct (fit_prepare self outstruct (Trials xs) (Trials ys) h)
    as [h1 [[X_ y_]|e]] eqn:Hprep.
  - destruct (fit_models X_ y_ self) as [s1 r1]. injection H as _ <- _.
    by eapply fit_prepare_preserves_direct.
  - injection H as _ <- _. by eapply fit_prepare_preserves_direct.
Qed.

(** [score] copies its arguments and writes nothing: whatever the
    arguments, the arrays that existed are unchanged. *)
Lemma score_preserves (self : TRF.t) (outstruct : option OutStruct.t)
    (X y : data_arg) (w : bool) (h h' : heap) (r : result (list Q)) :
  score self outstruct X y w h = (h', r) -> preserves h h'.
Proof.
  unfold score. destruct (TRF.models_ self) as [models|].
  2:{ intros H. apply raise_inv in H as [-> _]. apply preserves_refl. }
  intros H.
  apply bindS_inv in H as [(h1 & X' & H1 & H) | (e & H & _)];
    [| by apply deepcopy_fresh in H as [Hp _]].
  apply deepcopy_fresh in H1 as [Hp1 _].
  apply bindS_inv in H as [(h2 & y' & H2 & H) | (e & H & _)].
  2:{ apply deepcopy_fresh in H as [Hp _]. by eapply preserves_trans. }
  apply deepcopy_fresh in H2 as [Hp2 _].
  assert (preserves h h2) as Hp by (by eapply preserves_trans).
  apply bindS_inv in H as [(h3 & parsed & H3 & H) | (e & H & _)];
    [| by apply lift_inv in H as [-> _]].
  apply lift_inv in H3 as [-> _].
  apply bindS_inv in H as [(h4 & X_ & H4 & H) | (e & H & _)];
    [| by apply lift_inv in H as [-> _]].
  apply lift_inv in H4 as [-> _].
  apply bindS_inv in H as [(h5 & y_ & H5 & H) | (e & H & _)];
    [| by apply lift_inv in H as [-> _]].
  apply lift_inv in H5 as [-> _].
  apply bindS_inv in H as [(h6 & yp & H6 & H) | (e & H & _)];
    [| by apply lift_inv in H as [-> _]].
  apply lift_inv in H6 as [-> _].
  apply bindS_inv in H as [(h7 & ws & H7 & H) | (e & H & _)];
    [| by apply lift_inv in H as [-> _]].
  apply lift_inv in H7 as [-> _].
  by apply lift_inv in H as [-> _].
Qed.

End Frame.

(** C10 fails on the code when the data are given by field name (the
    default arguments of [fit]): [copy.deepcopy] is applied to the names,
    the arrays of the container are not copied, and the taper is written
    into the caller's target array. Here the target of six ones is, after
    [fit] has returned, [[0.08; 0.77; 1; 1; 0.77; 0.08]] in the caller's
    own array; no new array was allocated. *)
Theorem fit_by_field_name_tapers_callers_target :
  snd (fit (E:=Toy.externals) (Some demo_outstruct) (Field "aud")
         (Field "resp") (demo_self, demo_heap)) = Ok tt
  /\ OutStruct.get_field demo_outstruct "resp" = Ok [1%nat]
  /\ demo_heap !! 1%nat = Some (col [1; 1; 1; 1; 1; 1]%Q)
  /\ snd (fst (fit (E:=Toy.externals) (Some demo_outstruct) (Field "aud")
                 (Field "resp") (demo_self, demo_heap))) !! 1%nat
     = Some (col [8 # 100; 77 # 100; 1; 1; 77 # 100; 8 # 100]%Q)
  /\ length (snd (fst (fit (E:=Toy.externals) (Some demo_outstruct)
                         (Field "aud") (Field "resp") (demo_self, demo_heap))))
     = length demo_heap.
Proof. repeat split; vm_compute; reflexivity. Qed.

(** ** The state errors *)

Lemma nse_Ok {A} (a : A) : no_state_error (Ok a).
Proof. by intros e. Qed.

Lemma nse_Raise {A} (e : exn) :
  is_state_error e = false -> no_state_error (@Raise A e).
Proof. by intros He e' [= <-]. Qed.

Lemma nse_bind {A B} (r : result A) (k : A -> result B) :
  no_state_error r -> (forall a, no_state_error (k a)) ->
  no_state_error (bind r k).
Proof.
  intros Hr Hk e. destruct r as [a|e0]; simpl.
  - apply Hk.
  - intros [= <-]. by apply Hr.
Qed.

Lemma nse_bind_eq {A B} (r : result A) (k : A -> result B) :
  no_state_error r -> (forall a, r = Ok a -> no_state_error (k a)) ->
  no_state_error (bind r k).
Proof.
  intros Hr Hk e. destruct r as [a|e0]; simpl.
  - by apply Hk.
  - intros [= <-]. by apply Hr.
Qed.

Lemma nse_mapM {A B} (f : A -> result B) (l : list A) :
  (forall a, no_state_error (f a)) -> no_state_error (mapM f l).
Proof.
  intros Hf. induction l as [|a l IH]; simpl; [apply nse_Ok|].
  apply nse_bind; [apply Hf|]. intros b.
  apply nse_bind; [apply IH|]. intros bs. apply nse_Ok.
Qed.

(** The steps of a proof that a result is no state error: a raise of the
    model itself is checked by evaluation. *)
Ltac nse_step :=
  first
    [ apply nse_Ok
    | apply nse_Raise; reflexivity
    | apply nse_bind; [| intros ? ]
    | apply nse_mapM; intros ?
    | match goal with
      | |- no_state_error (match ?x with _ => _ end) => destruct x
      | |- no_state_error (if ?b then _ else _) => destruct b
      end ].

Lemma nse_load h l : no_state_error (load h l).
Proof. unfold load. repeat nse_step. Qed.

Lemma nse_get_field o name : no_state_error (OutStruct.get_field o name).
Proof. unfold OutStruct.get_field. repeat nse_step. Qed.

Lemma nse_parse_arg os a : no_state_error (_parse_outstruct_arg os a).
Proof.
  unfold _parse_outstruct_arg. destruct a; [destruct os|];
    auto using nse_get_field; repeat nse_step.
Qed.

Lemma nse_parse_args os a b : no_state_error (_parse_outstruct_args os a b).
Proof.
  unfold _parse_outstruct_args.
  repeat first [ apply nse_parse_arg | nse_step ].
Qed.

Lemma nse_concatenate l : no_state_error (concatenate l).
Proof. unfold concatenate. repeat nse_step. Qed.

Lemma nse_concatenate_axis1 l : no_state_error (concatenate_axis1 l).
Proof. unfold concatenate_axis1. repeat nse_step. Qed.

Lemma nse_flatten_features a : no_state_error (flatten_features a).
Proof.
  unfold flatten_features.
  destruct (trailing a) as [|? [|? [|? ?]]]; repeat nse_step.
Qed.

Lemma nse_shape1 a : no_state_error (shape1 a).
Proof. unfold shape1. repeat nse_step. Qed.

Lemma nse_np_average c w : no_state_error (np_average c w).
Proof. unfold np_average. repeat nse_step. Qed.

Section StateErrors.

Context {E : Externals}.

Lemma nse_coef_ self nd :
  TRF.ndim_y_ self = Some nd -> no_state_error (coef_ self).
Proof.
  intros Hnd. unfold coef_. rewrite Hnd.
  repeat first [ apply nse_concatenate | nse_step ].
  unfold newaxis0_3. repeat nse_step.
Qed.

Lemma nse_predict_trials self models X :
  externals_raise_no_state_error ->
  no_state_error (predict_trials self models X).
Proof.
  intros (Hp & _ & _). unfold predict_trials, reshape_T_1_rest.
  repeat first [ apply Hp | apply nse_concatenate_axis1 | nse_step ].
Qed.

Lemma nse_predict self models h os X :
  externals_raise_no_state_error ->
  TRF.models_ self = Some models ->
  no_state_error (predict self h os X).
Proof.
  intros Hext Hm. unfold predict. rewrite Hm.
  repeat first [ apply nse_parse_arg | apply nse_load
               | apply nse_predict_trials; assumption | nse_step ].
Qed.

Lemma nse_trial_scores self preds trues :
  externals_raise_no_state_error ->
  no_state_error (trial_scores self preds trues).
Proof.
  intros (_ & Hr2 & Hcorr). unfold trial_scores.
  apply nse_bind_eq.
  { unfold _SCORERS. repeat nse_step. }
  intros scorer Hscorer.
  assert (forall p t, no_state_error (scorer p t)) as Hs.
  { unfold _SCORERS in Hscorer.
    repeat destruct (bool_decide _); try done; by injection Hscorer as <-. }
  unfold trial_score.
  repeat first [ apply Hs | apply nse_flatten_features | apply nse_shape1
               | nse_step ].
Qed.

Lemma nse_score_predictions_inner self preds trues ws :
  externals_raise_no_state_error ->
  no_state_error (_score_predictions self preds trues ws).
Proof.
  intros Hext. unfold _score_predictions.
  repeat first [ apply nse_trial_scores; assumption | apply nse_np_average
               | nse_step ].
Qed.

Lemma nse_score_weights w X_ : no_state_error (score_weights w X_).
Proof. unfold score_weights. repeat nse_step. Qed.

Lemma nse_score_predictions self models X_ y_ :
  externals_raise_no_state_error ->
  no_state_error (score_predictions self models X_ y_).
Proof.
  intros Hext. unfold score_predictions.
  repeat first [ apply nse_predict_trials; assumption | nse_step ].
Qed.

Lemma deepcopy_returns a h h' r : deepcopy a h = (h', r) -> exists a', r = Ok a'.
Proof.
  unfold deepcopy. destruct a; [intros [= _ <-]; eauto|].
  destruct (deepcopy_arrays _ _ _). intros [= _ <-]. eauto.
Qed.

Lemma score_no_state_error self models os X y w h h' e :
  externals_raise_no_state_error ->
  TRF.models_ self = Some models ->
  score self os X y w h = (h', Raise e) ->
  is_state_error e = false.
Proof.
  intros Hext Hm H. unfold score in H. rewrite Hm in H.
  apply bindS_inv in H as [(h1 & X' & H1 & H) | (e1 & H & [= ->])];
    [| by apply deepcopy_returns in H as [? ?]].
  apply bindS_inv in H as [(h2 & y' & H2 & H) | (e2 & H & [= ->])];
    [| by apply deepcopy_returns in H as [? ?]].
  apply bindS_inv in H as [(h3 & parsed & H3 & H) | (e3 & H & [= ->])];
    [| apply lift_inv in H as [_ H]; symmetry in H; by apply nse_parse_args in H].
  apply bindS_inv in H as [(h4 & X_ & H4 & H) | (e4 & H & [= ->])];
    [| apply lift_inv in H as [_ H]; symmetry in H; revert H;
       apply nse_mapM; intros; apply nse_load].
  apply bindS_inv in H as [(h5 & y_ & H5 & H) | (e5 & H & [= ->])];
    [| apply lift_inv in H as [_ H]; symmetry in H; revert H;
       apply nse_mapM; intros; apply nse_load].
  apply bindS_inv in H as [(h6 & yp & H6 & H) | (e6 & H & [= ->])];
    [| apply lift_inv in H as [_ H]; symmetry in H;
       by apply nse_score_predictions in H].
  apply bindS_inv in H as [(h7 & ws & H7 & H) | (e7 & H & [= ->])];
    [| apply lift_inv in H as [_ H]; symmetry in H;
       by apply nse_score_weights in H].
  apply lift_inv in H as [_ H]. symmetry in H.
  by apply nse_score_predictions_inner in H.
Qed.

End StateErrors.

Lemma toy_externals_raise_no_state_error :
  externals_raise_no_state_error (E:=Toy.externals).
Proof.
  split; [|split]; simpl.
  - intros rf x. unfold Toy.predict. repeat nse_step.
  - intros p t. unfold Toy.neg_sq_err.
    destruct (trailing t) as [|? [|? ?]]; repeat nse_step.
  - intros p t. unfold Toy.neg_sq_err.
    destruct (trailing t) as [|? [|? ?]]; repeat nse_step.
Qed.


Section Lifecycle.

Context {E : Externals}.



End Lifecycle.


Section FailedFit.

Context {E : Externals}.

(** C6, amended. If [fit] raises while it resolves, copies, tapers or
    concatenates its arguments, the instance has exactly the attributes it
    had before the call. If [fit] raises later, the instance is not left
    unfit: [ndim_y_] is assigned, so the access to [coef_] does not raise
    the state error; and, unless the raise is the [IndexError] of the
    reshape of the predictors, [models_] is assigned and holds the models
    of the output channels fitted before the failure (fewer than there are
    channels), so neither [predict] nor [score] raises the state error. *)
Theorem failed_fit_state
    (outstruct : option OutStruct.t) (X y : data_arg)
    (self self' : TRF.t) (h h' : heap) (e : exn) :
  externals_raise_no_state_error ->
  fit outstruct X y (self, h) = ((self', h'), Raise e) ->
  (fit_prepare self outstruct X y h = (h', Raise e) /\ self' = self)
  \/ exists X_ y_,
       fit_prepare self outstruct X y h = (h', Ok (X_, y_))
       /\ TRF.ndim_y_ self' = Some (ndim y_)
       /\ (forall e', coef_ self' = Raise e' -> is_state_error e' = false)
       /\ ((e = IndexError /\ self' = TRF.set_ndim_y_ (ndim y_) self)
           \/ exists models,
                TRF.models_ self' = Some models
                /\ (forall n, shape1 y_ = Ok n -> (length models < n)%nat)
                /\ Forall2 (appended_model self (X_used X_ y_) y_)
                           (seq 0 (length models)) models
                /\ (forall h1 outstruct1 X1 e',
                       predict self' h1 outstruct1 X1 = Raise e' ->
                       is_state_error e' = false)
                /\ (forall h1 h2 outstruct1 X1 y1 w e',
                       score self' outstruct1 X1 y1 w h1 = (h2, Raise e') ->
                       is_state_error e' = false)).
Proof.
  intros Hext H. unfold fit in H.
  destruct (fit_prepare self outstruct X y h) as [h1 [[X_ y_]|e1]] eqn:Hprep.
  2:{ injection H as <- <- <-. by left. }
  destruct (fit_models X_ y_ self) as [s1 r1] eqn:Hm.
  injection H as -> -> ->. right. exists X_, y_. split; [done|].
  apply fit_models_run in Hm as [[-> [= ->]] | (est & ext & -> & Hext2 & Hlen)].
  - split; [done|]. split; [by eapply nse_coef_|]. by left.
  - split; [done|]. split; [by eapply nse_coef_|]. right.
    exists ext. split; [done|]. split; [done|]. split; [done|]. split.
    + intros h1 os1 X1 e'. by eapply nse_predict.
    + intros h1 h2 os1 X1 y1 w e'. by eapply score_no_state_error.
Qed.

End FailedFit.

(** C6, as stated, fails: this [fit] raises, and the instance it leaves is
    not the never-fitted one. [predict] on no trials raises the state error
    before the call and returns the empty list after it. *)
Lemma failed_fit_is_not_unfit :
  TRF.__init__ 0 1 1 "ridge" (AlphaList [1; 2; 0]%Q) (1 # 4) true "corrcoef" 1 1
    = Ok intercept_self
  /\ snd intercept_fit = Raise (ValueError msg_concatenate_empty)
  /\ predict (E:=Toy.externals) intercept_self demo_heap None (Trials [])
     = Raise (ValueError msg_predict_before_fit)
  /\ predict (E:=Toy.externals) (fst (fst intercept_fit))
       (snd (fst intercept_fit)) None (Trials []) = Ok []
  /\ TRF.ndim_y_ (fst (fst intercept_fit)) = Some 2%nat
  /\ TRF.models_ (fst (fst intercept_fit)) = Some [].
Proof. repeat split; vm_compute; reflexivity. Qed.

Lemma failed_fit_state_witness :
  TRF.ndim_y_ (fst (fst intercept_fit)) = Some 2%nat
  /\ forall e', coef_ (fst (fst intercept_fit)) = Raise e' ->
                is_state_error e' = false.
Proof.
  destruct (failed_fit_state (E:=Toy.externals) None (Trials [0%nat])
              (Trials [1%nat]) intercept_self (fst (fst intercept_fit))
              demo_heap (snd (fst intercept_fit))
              (ValueError msg_concatenate_empty)
              toy_externals_raise_no_state_error)
    as [[_ Hsame] | (X_ & y_ & _ & Hnd & Hcoef & _)].
  - vm_compute. reflexivity.
  - exfalso. revert Hsame. vm_compute. discriminate.
  - split; [vm_compute; reflexivity | exact Hcoef].
Defined.


(** ** The shape of the coefficients *)

Lemma shape_drop_last_axis2 (c c' : ndarray) (o f d : nat) :
  shape c = [o; f; d] -> drop_last_axis2 c = Ok c' ->
  shape c' = [o; f; Nat.pred d].
Proof.
  unfold shape, drop_last_axis2. intros [= Ho Htr]. rewrite Htr.
  intros [= <-]. simpl. by rewrite length_map, Ho.
Qed.

Lemma length_concat_single_rows (l : list ndarray) :
  Forall (fun b => length (rows b) = 1%nat) l ->
  length (concat (map rows l)) = length l.
Proof.
  induction 1 as [|b bs Hb _ IH]; [done|].
  cbn [map concat]. rewrite length_app, IH, Hb. done.
Qed.

Lemma concatenate_shape (l : list ndarray) (tr : list nat) (a : ndarray) :
  Forall (fun b => shape b = 1%nat :: tr) l ->
  concatenate l = Ok a ->
  shape a = length l :: tr.
Proof.
  unfold concatenate. destruct l as [|a0 l']; [done|]. intros Hall.
  destruct (forallb _ l'); [|done]. intros [= <-]. unfold shape.
  cbn [trailing rows]. f_equal.
  - apply (length_concat_single_rows (a0 :: l')).
    eapply Forall_impl; [exact Hall|]. by intros b [= -> _].
  - pose proof (Forall_inv Hall) as H0. by injection H0 as _ ->.
Qed.

Lemma concatenate_Ok (l : list ndarray) (tr : list nat) :
  l <> [] -> Forall (fun b => trailing b = tr) l ->
  exists a, concatenate l = Ok a.
Proof.
  unfold concatenate. destruct l as [|a0 l]; [done|]. intros _ Hall.
  assert (forallb (fun b => bool_decide (trailing b = trailing a0)) l = true)
    as ->; [|eauto].
  pose proof (Forall_inv Hall) as H0. apply Forall_inv_tail in Hall.
  apply forallb_forall. intros b Hb. apply bool_decide_eq_true.
  rewrite Forall_forall in Hall. rewrite <- list_elem_of_In in Hb.
  by rewrite (Hall b Hb), H0.
Qed.

Section CoefShape.

Context {E : Externals}.

Lemma appended_model_shape self X_ y_ i rf :
  rf_fit_shape_contract ->
  appended_model self X_ y_ i rf ->
  exists c,
    rf_coef_ rf = Some c
    /\ shape c
       = [n_output_features y_; shape_last X_;
          Nat.pred (length (mne._times_to_delays (TRF.tmin self) (TRF.tmax self)
                              (TRF.sfreq self)))].
Proof.
  intros Hcontract (y_t & best & rf0 & c0 & c & Hch & Hfit & Hc0 & Hdrop & Hc).
  apply Hcontract in Hfit as (c0' & Hc0' & Hshape).
  rewrite Hc0 in Hc0'. injection Hc0' as <-.
  exists c. split; [done|].
  eapply shape_drop_last_axis2 in Hdrop; [|exact Hshape].
  rewrite Hdrop. simpl. f_equal.
  unfold take_channel in Hch. unfold n_output_features, shape_last, shape.
  destruct (trailing y_) as [|C tr]; [done|].
  destruct (i <? C)%nat; [|done]. injection Hch as <-. simpl.
  by destruct tr.
Qed.

Lemma mapM_Forall2_Ok {A B} (f : A -> result B) (P : A -> B -> Prop)
    (l : list A) :
  Forall (fun a => exists b, f a = Ok b /\ P a b) l ->
  exists bs, mapM f l = Ok bs /\ Forall2 P l bs.
Proof.
  induction 1 as [|a l (b & Hb & HP) _ (bs & Hbs & Hall)]; simpl.
  - exists []. split; [done | constructor].
  - rewrite Hb. simpl. rewrite Hbs. simpl. exists (b :: bs).
    split; [done | by constructor].
Qed.

(** The stacked coefficients of [n] models whose coefficients all have the
    shape [(o, f, d)]. *)
Lemma coef_stacked_shape (self : TRF.t) (nd o f d : nat)
    (models : list ReceptiveField) :
  TRF.ndim_y_ self = Some nd ->
  TRF.models_ self = Some models ->
  models <> [] ->
  Forall (fun rf => exists c, rf_coef_ rf = Some c /\ shape c = [o; f; d])
         models ->
  exists c,
    coef_ self = Ok c
    /\ (nd = 2%nat -> o = 1%nat -> shape c = [length models; f; d])
    /\ (nd <> 2%nat -> shape c = [length models; o; f; d]).
Proof.
  intros Hnd Hm Hne Hall. unfold coef_. rewrite Hnd, Hm. simpl bind.
  destruct (decide (nd = 2%nat)) as [-> | Hnd2].
  - destruct (mapM_Forall2_Ok
                (fun mdl : ReceptiveField =>
                   let* c := match rf_coef_ mdl with
                             | Some c => Ok c
                             | None => Raise (AttributeError "coef_")
                             end in
                   if (2 =? 2)%nat then Ok c else newaxis0_3 c)
                (fun mdl c => shape c = [o; f; d]) models)
      as (cs & -> & Hcs).
    { eapply Forall_impl; [exact Hall|]. intros rf (c & Hc & Hs).
      exists c. rewrite Hc. done. }
    simpl bind.
    assert (cs <> []) as Hcne.
    { apply Forall2_length in Hcs. destruct cs; [|done].
      destruct models; [done | simpl in Hcs; lia]. }
    destruct (concatenate_Ok cs [f; d]) as [a Ha]; [done | |].
    { clear -Hcs. induction Hcs as [|? c ? ? Hc _ IH]; constructor; [|done].
      unfold shape in Hc. by injection Hc as _ ->. }
    exists a. split; [done|]. split; [|done].
    intros _ ->. apply Forall2_length in Hcs as Hlen. rewrite Hlen.
    eapply concatenate_shape; [|exact Ha].
    clear -Hcs. induction Hcs; constructor; done.
  - destruct (mapM_Forall2_Ok
                (fun mdl : ReceptiveField =>
                   let* c := match rf_coef_ mdl with
                             | Some c => Ok c
                             | None => Raise (AttributeError "coef_")
                             end in
                   if (nd =? 2)%nat then Ok c else newaxis0_3 c)
                (fun mdl c => shape c = [1%nat; o; f; d]) models)
      as (cs & -> & Hcs).
    { eapply Forall_impl; [exact Hall|]. intros rf (c & Hc & Hs).
      exists (newaxis0 c). rewrite Hc. simpl bind.
      apply Nat.eqb_neq in Hnd2. rewrite Hnd2. unfold newaxis0_3, ndim.
      unfold shape in Hs. injection Hs as Hrows Htr. rewrite Htr. simpl.
      split; [done|]. unfold shape, newaxis0, shape. simpl.
      by rewrite Hrows, Htr. }
    simpl bind.
    assert (cs <> []) as Hcne.
    { apply Forall2_length in Hcs. destruct cs; [|done].
      destruct models; [done | simpl in Hcs; lia]. }
    destruct (concatenate_Ok cs [o; f; d]) as [a Ha]; [done | |].
    { clear -Hcs. induction Hcs as [|? c ? ? Hc _ IH]; constructor; [|done].
      unfold shape in Hc. by injection Hc as _ ->. }
    exists a. split; [done|]. split; [done|].
    intros _. apply Forall2_length in Hcs as Hlen. rewrite Hlen.
    eapply concatenate_shape; [|exact Ha].
    clear -Hcs. induction Hcs; constructor; done.
Qed.

Lemma fit_models_IndexError X_ y_ s :
  (ndim y_ =? 3)%nat = true -> (ndim X_ <? 2)%nat = true ->
  snd (fit_models X_ y_ s) = Raise IndexError.
Proof.
  intros H3 H2. unfold fit_models. rewrite H3, H2. reflexivity.
Qed.

Lemma shape_last_X_used X_ y_ :
  ((ndim y_ =? 3)%nat = true -> (ndim X_ <? 2)%nat = false) ->
  shape_last (X_used X_ y_) = shape_last X_.
Proof.
  unfold X_used. destruct (ndim y_ =? 3)%nat; [|done]. intros H.
  specialize (H eq_refl). apply Nat.ltb_ge in H. unfold ndim in H.
  unfold shape_last, shape, newaxis1. simpl.
  destruct (trailing X_) as [|a tr]; [simpl in H; lia|]. done.
Qed.

(** C3, amended. After a [fit] that returned, with at least one output
    channel, [coef_] is the stack of the channels' coefficients and its
    delay axis (the last) has length [n_delays - 1]: the shape is
    (n_outputs, n_features, n_delays - 1) for targets of two axes and
    (n_outputs, n_output_features, n_features, n_delays - 1) for targets
    of three axes. *)
Theorem coef_shape_after_fit
    (outstruct : option OutStruct.t) (X y : data_arg)
    (self self' : TRF.t) (h h' : heap) :
  rf_fit_shape_contract ->
  fit outstruct X y (self, h) = ((self', h'), Ok tt) ->
  exists (X_ y_ : ndarray) (n_outputs : nat),
    fit_prepare self outstruct X y h = (h', Ok (X_, y_))
    /\ shape1 y_ = Ok n_outputs
    /\ ((0 < n_outputs)%nat ->
        exists c,
          coef_ self' = Ok c
          /\ (ndim y_ = 2%nat ->
              shape c
              = [n_outputs; shape_last X_;
                 (length (mne._times_to_delays (TRF.tmin self) (TRF.tmax self)
                            (TRF.sfreq self)) - 1)%nat])
          /\ (ndim y_ = 3%nat ->
              shape c
              = [n_outputs; shape_last y_; shape_last X_;
                 (length (mne._times_to_delays (TRF.tmin self) (TRF.tmax self)
                            (TRF.sfreq self)) - 1)%nat])).
Proof.
  intros Hcontract H. unfold fit in H.
  destruct (fit_prepare self outstruct X y h) as [h1 [[X_ y_]|e1]] eqn:Hprep;
    [|done].
  destruct (fit_models X_ y_ self) as [s1 r1] eqn:Hm.
  injection H as -> -> ->.
  exists X_, y_.
  assert ((ndim y_ =? 3)%nat = true -> (ndim X_ <? 2)%nat = false) as HX.
  { intros H3. destruct (ndim X_ <? 2)%nat eqn:H2; [|done].
    pose proof (fit_models_IndexError X_ y_ self H3 H2) as Herr.
    rewrite Hm in Herr. done. }
  apply fit_models_run in Hm as [[_ [=]] | (est & ext & -> & Hext & Hlen)].
  exists (length ext). split; [done|]. split; [done|].
  intros Hpos.
  set (d := length (mne._times_to_delays (TRF.tmin self) (TRF.tmax self)
                      (TRF.sfreq self))).
  destruct (coef_stacked_shape
              (TRF.with_estimator_ est (TRF.set_models_ ext (fit_started self y_)))
              (ndim y_) (n_output_features y_) (shape_last X_) (Nat.pred d) ext)
    as (c & Hc & H2d & H3d); try done.
  { intros ->. simpl in Hpos. lia. }
  { clear -Hcontract Hext HX.
    induction Hext as [|i rf ? ? Hrf _ IH]; constructor; [|exact IH].
    destruct (appended_model_shape _ _ _ _ _ Hcontract Hrf) as (c & Hc & Hs).
    exists c. split; [done|]. rewrite Hs.
    by rewrite (shape_last_X_used _ _ HX). }
  exists c. split; [done|]. unfold n_output_features in *. split.
  - intros Hnd. rewrite Nat.sub_1_r. apply H2d; [done|].
    unfold ndim in Hnd. destruct (trailing y_) as [|? [|? ?]]; simpl in *; done.
  - intros Hnd. rewrite Nat.sub_1_r. rewrite H3d by lia. f_equal.
    unfold ndim in Hnd. unfold shape_last, shape.
    destruct (trailing y_) as [|? [|? [|? ?]]]; simpl in *; done.
Qed.

End CoefShape.

Lemma toy_rf_fit_shape_contract : rf_fit_shape_contract (E:=Toy.externals).
Proof.
  intros rf rf' X y H. simpl in H. unfold Toy.fit in H.
  destruct (_ && _); [done|]. injection H as <-.
  eexists. split; [reflexivity|].
  unfold shape, Toy.zeros, Toy.n_delays. simpl. by rewrite repeat_length.
Qed.

(** C3, counterexample. With three predictor features and a target of one
    channel with two features, the fitted [coef_] has shape
    (n_outputs, n_output_features, n_features, n_delays - 1) = (1, 2, 3, 1)
    and not (n_outputs, n_features, n_output_features, n_delays - 1)
    = (1, 3, 2, 1). *)
Lemma coef_axes_of_stimulus_reconstruction :
  exists (self' : TRF.t) (h' : heap) (c : ndarray),
    fit (E:=Toy.externals) None (Trials [0%nat]) (Trials [1%nat])
      (recon_self, recon_heap) = ((self', h'), Ok tt)
    /\ length (mne._times_to_delays (TRF.tmin recon_self) (TRF.tmax recon_self)
                 (TRF.sfreq recon_self)) = 2%nat
    /\ coef_ self' = Ok c
    /\ shape c = [1; 2; 3; 1]%nat
    /\ shape c <> [1; 3; 2; 1]%nat.
Proof.
  eexists _, _, _. split; [vm_compute; reflexivity|].
  split; [vm_compute; reflexivity|].
  split; [vm_compute; reflexivity|].
  split; [vm_compute; reflexivity | vm_compute; discriminate].
Qed.

Lemma coef_shape_after_fit_witness :
  fit (E:=Toy.externals) None (Trials [0%nat]) (Trials [1%nat])
    (recon_self, recon_heap) = (recon_fitted, Ok tt)
  /\ exists (X_ y_ : ndarray) (n_outputs : nat),
       fit_prepare (E:=Toy.externals) recon_self None (Trials [0%nat])
         (Trials [1%nat]) recon_heap = (snd recon_fitted, Ok (X_, y_))
       /\ shape1 y_ = Ok n_outputs
       /\ ((0 < n_outputs)%nat ->
           exists c,
             coef_ (fst recon_fitted) = Ok c
             /\ (ndim y_ = 2%nat ->
                 shape c
                 = [n_outputs; shape_last X_;
                    (length (mne._times_to_delays (TRF.tmin recon_self)
                               (TRF.tmax recon_self) (TRF.sfreq recon_self))
                     - 1)%nat])
             /\ (ndim y_ = 3%nat ->
                 shape c
                 = [n_outputs; shape_last y_; shape_last X_;
                    (length (mne._times_to_delays (TRF.tmin recon_self)
                               (TRF.tmax recon_self) (TRF.sfreq recon_self))
                     - 1)%nat])).
Proof.
  split; [vm_compute; reflexivity|].
  apply (coef_shape_after_fit (E:=Toy.externals) None (Trials [0%nat])
           (Trials [1%nat]) recon_self (fst recon_fitted) recon_heap
           (snd recon_fitted)).
  - apply toy_rf_fit_shape_contract.
  - vm_compute; reflexivity.
Defined.

(** ** The taper of the targets *)

Lemma taper_start_rows (w : list Q) (rs rs' : list (list Q)) :
  taper_start w rs = Ok rs' -> rs' = imap (fade_in w) rs.
Proof.
  unfold taper_start.
  destruct (Nat.min (length rs) (length w) =? length w)%nat eqn:Hs.
  - apply Nat.eqb_eq in Hs. intros [= <-].
    apply list_eq. intros i. rewrite list_lookup_imap. unfold fade_in.
    destruct (decide (i < length w)%nat) as [Hi|Hi].
    + rewrite lookup_app_l
        by (rewrite length_zip_with, length_take; lia).
      rewrite lookup_zip_with, lookup_take, decide_True by lia.
      destruct (lookup_lt_is_Some_2 w i Hi) as [x ->]. simpl.
      by destruct (rs !! i).
    + rewrite lookup_app_r
        by (rewrite length_zip_with, length_take; lia).
      rewrite length_zip_with, length_take, lookup_drop.
      replace (length w + (i - length w `min` (length w `min` length rs)))%nat
        with i by lia.
      rewrite (lookup_ge_None_2 w i) by lia. by destruct (rs !! i).
  - destruct ((length w =? 1)%nat && _) eqn:Hb; [|done].
    apply andb_true_iff in Hb as [Hw Hb]. apply Nat.eqb_eq in Hb, Hw.
    intros [= <-].
    destruct rs; [done | cbn [length] in *; lia].
Qed.

Lemma taper_end_rows (w : list Q) (rs rs' : list (list Q)) :
  taper_end w rs = Ok rs' -> rs' = imap (fade_out w (length rs)) rs.
Proof.
  unfold taper_end.
  destruct ((if (length w =? 0)%nat then length rs
             else Nat.min (length rs) (length w)) =? length w)%nat eqn:Hs.
  - apply Nat.eqb_eq in Hs. intros [= <-].
    assert (length w <= length rs)%nat as Hle
      by (destruct (length w =? 0)%nat; lia).
    apply list_eq. intros i. rewrite list_lookup_imap. unfold fade_out.
    destruct (decide (i < length rs - length w)%nat) as [Hi|Hi].
    + rewrite lookup_app_l by (rewrite length_take; lia).
      rewrite lookup_take, decide_True by lia.
      destruct (Nat.leb_spec (length rs - length w) i); [lia|].
      by destruct (rs !! i).
    + assert (length (take (length rs - length w) rs)
              = length rs - length w)%nat as Hlt
        by (rewrite length_take; lia).
      rewrite lookup_app_r by lia. rewrite Hlt.
      rewrite lookup_zip_with, lookup_drop.
      replace (length rs - length w + (i - (length rs - length w)))%nat
        with i by lia.
      destruct (Nat.leb_spec (length rs - length w) i); [|lia].
      destruct (w !! (i - (length rs - length w))%nat) as [x|] eqn:Hw; simpl.
      * by destruct (rs !! i).
      * apply lookup_ge_None_1 in Hw.
        rewrite (lookup_ge_None_2 rs i) by lia. done.
  - destruct ((length w =? 1)%nat && _) eqn:Hb; [|done].
    apply andb_true_iff in Hb as [Hw Hb]. apply Nat.eqb_eq in Hb, Hw.
    rewrite Hw in Hb. simpl in Hb. intros [= <-].
    destruct rs; [done | cbn [length] in *; lia].
Qed.

Lemma taper_rows (ws we : list Q) (rs rs1 rs2 : list (list Q)) :
  taper_start ws rs = Ok rs1 -> taper_end we rs1 = Ok rs2 ->
  rs2 = imap (fun i r => fade_out we (length rs) i (fade_in ws i r)) rs.
Proof.
  intros ->%taper_start_rows ->%taper_end_rows. rewrite length_imap.
  apply list_eq. intros i. rewrite !list_lookup_imap.
  by destruct (rs !! i).
Qed.

(** The samples between the two ends are left as they are. *)
Lemma tapered_middle (ws we : list Q) (v : ndarray) (i : nat) :
  (length ws <= i < length (rows v) - length we)%nat ->
  rows (tapered ws we v) !! i = rows v !! i.
Proof.
  intros Hi. unfold tapered. simpl. rewrite list_lookup_imap.
  unfold fade_out, fade_in.
  destruct (Nat.leb_spec (length (rows v) - length we) i); [lia|].
  rewrite (lookup_ge_None_2 ws i) by lia. by destruct (rows v !! i).
Qed.

(** *** Rounding and truncation *)



(** *** Writing through the view of a one-axis target *)

Lemma length_chunks (n d : nat) (r : list Q) : length (chunks n d r) = n.
Proof. revert r. induction n as [|n IH]; intros r; simpl; [done|]. by rewrite IH. Qed.

Lemma concat_chunks (n d : nat) (r : list Q) :
  length r = (n * d)%nat -> concat (chunks n d r) = r.
Proof.
  revert r. induction n as [|n IH]; intros r Hr; simpl.
  - by destruct r.
  - rewrite IH by (rewrite length_drop; lia). apply take_drop.
Qed.

Lemma chunks_well_shaped (n d : nat) (r : list Q) :
  length r = (n * d)%nat -> Forall (fun c => length c = d) (chunks n d r).
Proof.
  revert r. induction n as [|n IH]; intros r Hr; simpl; constructor.
  - rewrite length_take. lia.
  - apply IH. rewrite length_drop. lia.
Qed.

Lemma length_concat_well_shaped (d : nat) (rs : list (list Q)) :
  Forall (fun r => length r = d) rs -> length (concat rs) = (length rs * d)%nat.
Proof.
  induction 1 as [|r rs Hr _ IH]; simpl; [done|].
  rewrite length_app, IH, Hr. lia.
Qed.

Lemma singletons_concat (rs : list (list Q)) :
  Forall (fun r => length r = 1%nat) rs ->
  map (fun x => [x]) (concat rs) = rs.
Proof.
  induction 1 as [|r rs Hr _ IH]; simpl; [done|].
  destruct r as [|x [|? ?]]; try done. simpl. by rewrite IH.
Qed.

Lemma length_fade_in ws i r : length (fade_in ws i r) = length r.
Proof.
  unfold fade_in, scale_row. destruct (ws !! i); [apply length_map | done].
Qed.

Lemma length_fade_out we T i r : length (fade_out we T i r) = length r.
Proof.
  unfold fade_out, scale_row. destruct (_ <=? _)%nat; [|done].
  destruct (we !! _); [apply length_map | done].
Qed.

Lemma imap_row_lengths (f : nat -> list Q -> list Q) (d : nat)
    (rs : list (list Q)) :
  (forall i r, length (f i r) = length r) ->
  Forall (fun r => length r = d) rs ->
  Forall (fun r => length r = d) (imap f rs).
Proof.
  intros Hf Hrs. apply Forall_forall. intros r Hr.
  apply list_elem_of_lookup in Hr as [i Hi].
  rewrite list_lookup_imap in Hi.
  destruct (rs !! i) as [r0|] eqn:Hr0; [|done]. injection Hi as <-.
  rewrite Hf. rewrite Forall_forall in Hrs. apply Hrs.
  by eapply list_elem_of_lookup_2.
Qed.

(** What an array looks like through its view after rows of the right
    lengths were written through the view. *)
Lemma view_write_view (flat : bool) (a : ndarray) (rs : list (list Q)) :
  well_shaped a ->
  length rs = length (rows (view flat a)) ->
  Forall (fun r => length r = row_size (trailing (view flat a))) rs ->
  view flat (write_view flat a rs) = mk_array (trailing (view flat a)) rs
  /\ trailing (write_view flat a rs) = trailing a
  /\ well_shaped (write_view flat a rs).
Proof.
  intros Ha Hlen Hrs. destruct flat; simpl in *.
  - unfold reshape_col, write_view, well_shaped in *. simpl in *.
    rewrite length_map in Hlen.
    rewrite (length_concat_well_shaped _ _ Ha) in Hlen.
    assert (length (concat rs)
            = length (rows a) * row_size (trailing a))%nat as Hc.
    { rewrite (length_concat_well_shaped 1) by done. lia. }
    split; [|split; [done|]].
    + rewrite concat_chunks by done. by rewrite singletons_concat.
    + by apply chunks_well_shaped.
  - done.
Qed.

Lemma view_well_shaped (flat : bool) (a : ndarray) :
  well_shaped a -> well_shaped (view flat a).
Proof.
  intros Ha. destruct flat; [|done].
  unfold well_shaped, view, reshape_col. simpl.
  apply Forall_forall. intros r Hr. apply list_elem_of_fmap in Hr as (x & -> & _).
  done.
Qed.

Lemma assign_rows_effect flat win3 F0 l f (h h' : heap) :
  assign_rows flat win3 F0 l f h = (h', Ok tt) ->
  exists a rs,
    h !! l = Some a
    /\ taper_compatible win3 F0 (view flat a) = true
    /\ f (rows (view flat a)) = Ok rs
    /\ h' = <[l := write_view flat a rs]> h.
Proof.
  unfold assign_rows. destruct (h !! l) as [a|]; [|done].
  destruct (taper_compatible _ _ _) eqn:Hc; [|done].
  destruct (f _) as [rs|e] eqn:Hf; [|done].
  intros [= <-]. by exists a, rs.
Qed.

(** The body of the loop, on one target: seen through its view, the array
    at [l] is the tapered one afterwards. *)
Lemma taper_in_place_effect flat win3 F0 ws we l (h h' : heap) (a : ndarray) :
  h !! l = Some a ->
  well_shaped a ->
  taper_in_place flat win3 F0 ws we l h = (h', Ok tt) ->
  exists a',
    h' = <[l := a']> h
    /\ view flat a' = tapered ws we (view flat a)
    /\ taper_compatible win3 F0 (view flat a) = true.
Proof.
  intros Hl Ha H. unfold taper_in_place in H.
  run_step H as h1 u H1. destruct u.
  apply assign_rows_effect in H1 as (a0 & rs1 & Hl0 & Hc & Hf1 & ->).
  rewrite Hl in Hl0. injection Hl0 as <-.
  apply assign_rows_effect in H as (a1 & rs2 & Hl1 & _ & Hf2 & ->).
  assert (l < length h)%nat as Hlt by (by eapply lookup_lt_Some).
  rewrite list_lookup_insert_eq in Hl1 by done. injection Hl1 as <-.
  pose proof (taper_start_rows _ _ _ Hf1) as E1.
  pose proof (view_well_shaped flat a Ha) as Hv.
  destruct (view_write_view flat a rs1) as (Hv1 & Ht1 & Hw1); [done | | |].
  { rewrite E1. apply length_imap. }
  { rewrite E1. apply imap_row_lengths; [apply length_fade_in | exact Hv]. }
  rewrite Hv1 in Hf2. simpl in Hf2.
  pose proof (taper_rows _ _ _ _ _ Hf1 Hf2) as E2.
  pose proof (taper_end_rows _ _ _ Hf2) as E2'.
  destruct (view_write_view flat (write_view flat a rs1) rs2)
    as (Hv2 & Ht2 & Hw2); [done | | |].
  { rewrite Hv1. simpl. rewrite E2'. apply length_imap. }
  { rewrite Hv1. simpl. rewrite E2'.
    apply imap_row_lengths; [apply length_fade_out|].
    rewrite E1. apply imap_row_lengths; [apply length_fade_in | exact Hv]. }
  exists (write_view flat (write_view flat a rs1) rs2).
  split; [by rewrite list_insert_insert_eq|]. split; [|done].
  rewrite Hv2, Hv1. simpl. unfold tapered. by rewrite E2.
Qed.






Section Taper.

Context {E : Externals}.







End Taper.




(** * Further properties *)

(** ** The cross-validation splits: what is held out *)




(** ** The cross-validation splits: predictors and targets go together *)

Lemma zip_delete {A B} (xs : list A) (ys : list B) (a b : Z) :
  length xs = length ys ->
  np.delete (zip xs ys) a b = zip (np.delete xs a b) (np.delete ys a b).
Proof.
  intros Hlen. unfold np.delete.
  rewrite zip_with_take, zip_with_drop. symmetry. apply zip_with_app.
  rewrite !length_take. lia.
Qed.

Lemma zip_slice {A B} (xs : list A) (ys : list B) (a b : Z) :
  np.slice (zip xs ys) a b = zip (np.slice xs a b) (np.slice ys a b).
Proof. unfold np.slice. by rewrite zip_with_drop, zip_with_take. Qed.

Lemma zip_with_map_same {A B C D} (f : B -> C -> D) (g : A -> B) (h : A -> C)
    (l : list A) :
  zip_with f (map g l) (map h l) = map (fun i => f (g i) (h i)) l.
Proof. induction l as [|a l IH]; simpl; [done | by rewrite IH]. Qed.

(** X2. [fit] splits the predictors and the target of a channel with two
    separate generators and zips them. For series of one length and a
    block that is not empty the two run in step: fold by fold they take the
    same time indices, so that splitting the series of (predictor, target)
    pairs gives the pairs of what the two generators give. *)
Theorem xval_folds_aligned {A B : Type} (xs : list A) (ys : list B)
    (test_portion : Q) :
  length xs = length ys ->
  (1 <= np.floor (inject_Z (Z.of_nat (length xs)) * test_portion))%Z ->
  exists (fx : list (list A * list A)) (fy : list (list B * list B)),
    _xval_time_splits xs test_portion = Ok fx
    /\ _xval_time_splits ys test_portion = Ok fy
    /\ length fx = length fy
    /\ _xval_time_splits (zip xs ys) test_portion
       = Ok (zip_with (fun a b => (zip (fst a) (fst b), zip (snd a) (snd b)))
               fx fy).
Proof.
  intros Hlen Hw.
  assert (length (zip xs ys) = length xs) as Hz
    by (rewrite length_zip_with; lia).
  rewrite (xval_time_splits_run xs test_portion Hw).
  rewrite (xval_time_splits_run ys test_portion) by (by rewrite <- Hlen).
  rewrite (xval_time_splits_run (zip xs ys) test_portion) by (by rewrite Hz).
  rewrite Hz, <- Hlen.
  eexists _, _. split; [reflexivity|]. split; [reflexivity|].
  split; [by rewrite !length_map|].
  rewrite zip_with_map_same. f_equal. apply map_ext. intros i. simpl.
  by rewrite zip_delete, zip_slice.
Qed.

Lemma xval_folds_aligned_witness :
  exists (fx : list (list Z * list Z)) (fy : list (list bool * list bool)),
    _xval_time_splits [1; 2; 3; 4; 5]%Z (2 # 5) = Ok fx
    /\ _xval_time_splits [true; false; true; true; false] (2 # 5) = Ok fy
    /\ length fx = length fy
    /\ _xval_time_splits
         (zip [1; 2; 3; 4; 5]%Z [true; false; true; true; false]) (2 # 5)
       = Ok (zip_with (fun a b => (zip (fst a) (fst b), zip (snd a) (snd b)))
               fx fy).
Proof.
  apply (xval_folds_aligned [1; 2; 3; 4; 5]%Z [true; false; true; true; false]
           (2 # 5)).
  - reflexivity.
  - vm_compute. discriminate.
Defined.

(** ** fit: what it leaves on the instance *)

Section FitState.

Context {E : Externals}.

(** X3. [fit] writes fitted attributes only: whether it returns or raises,
    the instance has the hyperparameters it had. *)
Theorem fit_keeps_hyperparameters (outstruct : option OutStruct.t)
    (X y : data_arg) (self self' : TRF.t) (h h' : heap) (r : result unit) :
  fit outstruct X y (self, h) = ((self', h'), r) ->
  hyperparameters self' = hyperparameters self.
Proof.
  unfold fit. intros H.
  destruct (fit_prepare self outstruct X y h) as [h1 [[X_ y_]|e]];
    [|by injection H as <- _ _].
  destruct (fit_models X_ y_ self) as [s1 r1] eqn:Hm.
  injection H as <- _ _.
  apply fit_models_run in Hm as [[-> _] | (e & ext & -> & _)]; reflexivity.
Qed.

(** X4. When [fit] returns, the instance holds the number of axes of the
    concatenated target, the delay set of the window and its slice, and
    exactly one model per output channel ([y_.shape[1]]), in the order of
    the channels; the model of channel [i] was fitted on column [i] of the
    target, and its last delay is dropped. *)
Theorem fit_returns_one_model_per_channel (outstruct : option OutStruct.t)
    (X y : data_arg) (self self' : TRF.t) (h h' : heap) :
  fit outstruct X y (self, h) = ((self', h'), Ok tt) ->
  exists (X_ y_ : ndarray) (models : list ReceptiveField),
    fit_prepare self outstruct X y h = (h', Ok (X_, y_))
    /\ TRF.ndim_y_ self' = Some (ndim y_)
    /\ TRF.delays_ self'
       = Some (mne._times_to_delays (TRF.tmin self) (TRF.tmax self)
                 (TRF.sfreq self))
    /\ TRF.valid_samples_ self'
       = Some (_delays_to_slice
                 (mne._times_to_delays (TRF.tmin self) (TRF.tmax self)
                    (TRF.sfreq self)))
    /\ TRF.models_ self' = Some models
    /\ shape1 y_ = Ok (length models)
    /\ Forall2 (appended_model self (X_used X_ y_) y_)
               (seq 0 (length models)) models.
Proof.
  unfold fit. intros H.
  destruct (fit_prepare self outstruct X y h) as [h1 [[X_ y_]|e]];
    [|by injection H as _ _ ?].
  destruct (fit_models X_ y_ self) as [s1 r1] eqn:Hm.
  injection H as -> -> ->.
  apply fit_models_run in Hm as [[_ [=]] | (e & ext & -> & Hext & Hn)].
  exists X_, y_, ext. done.
Qed.

End FitState.

Lemma fit_keeps_hyperparameters_witness :
  hyperparameters (fst two_trials_fitted) = hyperparameters two_trials_self.
Proof.
  apply (fit_keeps_hyperparameters (E:=Toy.externals) None
           (Trials [0; 1]%nat) (Trials [2; 3]%nat) two_trials_self
           (fst two_trials_fitted) two_trials (snd two_trials_fitted) (Ok tt)).
  vm_compute. reflexivity.
Defined.

Lemma fit_returns_one_model_per_channel_witness :
  exists (X_ y_ : ndarray) (models : list ReceptiveField),
    fit_prepare (E:=Toy.externals) two_trials_self None (Trials [0; 1]%nat)
      (Trials [2; 3]%nat) two_trials = (snd two_trials_fitted, Ok (X_, y_))
    /\ TRF.ndim_y_ (fst two_trials_fitted) = Some (ndim y_)
    /\ TRF.delays_ (fst two_trials_fitted)
       = Some (mne._times_to_delays (TRF.tmin two_trials_self)
                 (TRF.tmax two_trials_self) (TRF.sfreq two_trials_self))
    /\ TRF.valid_samples_ (fst two_trials_fitted)
       = Some (_delays_to_slice (Externals:=Toy.externals)
                 (mne._times_to_delays (TRF.tmin two_trials_self)
                    (TRF.tmax two_trials_self) (TRF.sfreq two_trials_self)))
    /\ TRF.models_ (fst two_trials_fitted) = Some models
    /\ shape1 y_ = Ok (length models)
    /\ Forall2 (appended_model (E:=Toy.externals) two_trials_self
                  (X_used X_ y_) y_)
               (seq 0 (length models)) models.
Proof.
  apply (fit_returns_one_model_per_channel (E:=Toy.externals) None
           (Trials [0; 1]%nat) (Trials [2; 3]%nat) two_trials_self
           (fst two_trials_fitted) two_trials (snd two_trials_fitted)).
  vm_compute. reflexivity.
Defined.

(** ** fit with one candidate, with none, and with no channel *)

Section FitOneAlpha.

Context {E : Externals}.

Lemma fit_target_one_alpha (X_ y_ : ndarray) (i : nat) (a : Q)
    (ms : list ReceptiveField) (s : TRF.t) :
  TRF.alpha s = [a] ->
  TRF.models_ s = Some ms ->
  fit_target X_ y_ i s
  = match channel_model s a X_ y_ i with
    | Ok rf => (TRF.set_models_ (ms ++ [rf]) s, Ok tt)
    | Raise e => (s, Raise e)
    end.
Proof.
  intros Ha Hms. unfold fit_target, channel_model, bindS, lift, get, modify.
  destruct (take_channel y_ i) as [y_t|e]; [|done]. simpl.
  rewrite Ha. simpl. unfold alpha_at. rewrite Ha. simpl.
  destruct (rf_fit _ _ _) as [rf|e]; [|done]. simpl.
  destruct (rf_coef_ rf) as [c|]; [|done]. simpl.
  destruct (drop_last_axis2 c) as [c'|e]; [|done]. simpl.
  by rewrite Hms.
Qed.

Lemma fit_targets_one_alpha (X_ y_ : ndarray) (a : Q) (channels : list nat) :
  forall (ms : list ReceptiveField) (s : TRF.t),
    TRF.alpha s = [a] ->
    TRF.models_ s = Some ms ->
    forS channels (fit_target X_ y_) s
    = (TRF.set_models_
         (ms ++ fst (fit_channels (channel_model s a X_ y_) channels)) s,
       snd (fit_channels (channel_model s a X_ y_) channels)).
Proof.
  induction channels as [|i channels IH]; intros ms s Ha Hms; simpl.
  - unfold ret. rewrite app_nil_r. f_equal. destruct s; simpl in *. by subst.
  - unfold bindS. rewrite (fit_target_one_alpha _ _ _ a ms) by done.
    destruct (channel_model s a X_ y_ i) as [rf|e].
    + rewrite (IH (ms ++ [rf])) by done.
      change (channel_model (TRF.set_models_ (ms ++ [rf]) s) a X_ y_)
        with (channel_model s a X_ y_).
      destruct (fit_channels (channel_model s a X_ y_) channels) as [models r].
      simpl. by rewrite <- app_assoc.
    + simpl. rewrite app_nil_r. f_equal. destruct s; simpl in *. by subst.
Qed.

(** X5. With exactly one candidate [fit] runs no cross-validation: the
    channels are fitted one after the other with that candidate, each
    model is stored as soon as it is fitted, and the first channel that
    raises stops the loop and leaves the models stored before it. The
    test portion and the scorer play no part, and [estimator_] is not
    assigned. *)
Theorem fit_one_candidate (X_ y_ : ndarray) (a : Q) (n : nat) (s : TRF.t) :
  TRF.alpha s = [a] ->
  shape1 y_ = Ok n ->
  ((ndim y_ =? 3)%nat = true -> (ndim X_ <? 2)%nat = false) ->
  fit_models X_ y_ s
  = (TRF.set_models_
       (fst (fit_channels (channel_model s a (X_used X_ y_) y_) (seq 0 n)))
       (fit_started s y_),
     snd (fit_channels (channel_model s a (X_used X_ y_) y_) (seq 0 n))).
Proof.
  intros Ha Hn HX. unfold fit_models.
  assert ((if (ndim y_ =? 3)%nat
           then if (ndim X_ <? 2)%nat then raise IndexError
                else ret (newaxis1 X_)
           else ret X_)
          = (ret (X_used X_ y_) : ST TRF.t ndarray)) as ->.
  { unfold X_used. destruct (ndim y_ =? 3)%nat; [|done].
    by rewrite HX. }
  unfold bindS at 1. unfold modify at 1. unfold bindS at 1. unfold ret at 1.
  unfold bindS at 1. unfold modify at 1. unfold bindS at 1. unfold get at 1.
  unfold bindS at 1. unfold modify at 1. unfold bindS at 1. unfold modify at 1.
  unfold bindS at 1. unfold lift at 1. rewrite Hn.
  rewrite (fit_targets_one_alpha _ _ a _ []) by done.
  done.
Qed.

End FitOneAlpha.

Lemma fit_one_candidate_witness :
  fit_models (E:=Toy.externals) (col [1; 2; 3; 4]%Q) (col [1; 1; 1; 1]%Q)
    two_trials_self
  = (TRF.set_models_
       (fst (fit_channels
               (channel_model (E:=Toy.externals) two_trials_self 1
                  (X_used (col [1; 2; 3; 4]%Q) (col [1; 1; 1; 1]%Q))
                  (col [1; 1; 1; 1]%Q))
               (seq 0 1)))
       (fit_started (E:=Toy.externals) two_trials_self (col [1; 1; 1; 1]%Q)),
     snd (fit_channels
            (channel_model (E:=Toy.externals) two_trials_self 1
               (X_used (col [1; 2; 3; 4]%Q) (col [1; 1; 1; 1]%Q))
               (col [1; 1; 1; 1]%Q))
            (seq 0 1))).
Proof.
  apply (fit_one_candidate (E:=Toy.externals) (col [1; 2; 3; 4]%Q)
           (col [1; 1; 1; 1]%Q) 1 1 two_trials_self); reflexivity.
Defined.

Section FitEdges.

Context {E : Externals}.

Lemma fit_target_no_alpha (X_ y_ y_t : ndarray) (i : nat) (s : TRF.t) :
  TRF.alpha s = [] ->
  take_channel y_ i = Ok y_t ->
  fit_target X_ y_ i s = (s, Raise IndexError).
Proof.
  intros Ha Hy. unfold fit_target, bindS, lift, get. rewrite Hy. simpl.
  rewrite Ha. simpl. unfold alpha_at. by rewrite Ha.
Qed.

(** X6. An empty list of candidates passes the constructor. [fit] then
    raises [IndexError] at the first channel ([self.alpha[0]]), after it has
    assigned [ndim_y_], an empty [models_], [delays_] and
    [valid_samples_]. *)
Theorem fit_no_candidate (tmin tmax sfreq : Q) (reg_type : string)
    (xval_test_portion : Q) (fit_intercept : bool) (scoring : string)
    (n_jobs random_state : Z) (self : TRF.t) (X_ y_ : ndarray) (n : nat) :
  TRF.__init__ tmin tmax sfreq reg_type (AlphaList []) xval_test_portion
    fit_intercept scoring n_jobs random_state = Ok self ->
  shape1 y_ = Ok (S n) ->
  ((ndim y_ =? 3)%nat = true -> (ndim X_ <? 2)%nat = false) ->
  fit_models X_ y_ self = (fit_started self y_, Raise IndexError).
Proof.
  intros Hinit Hn HX.
  assert (TRF.alpha self = []) as Ha.
  { unfold TRF.__init__ in Hinit. destruct (Qle_bool tmax tmin); [done|].
    simpl in Hinit. by injection Hinit as <-. }
  unfold fit_models.
  assert ((if (ndim y_ =? 3)%nat
           then if (ndim X_ <? 2)%nat then raise IndexError
                else ret (newaxis1 X_)
           else ret X_)
          = (ret (X_used X_ y_) : ST TRF.t ndarray)) as ->.
  { unfold X_used. destruct (ndim y_ =? 3)%nat; [|done].
    by rewrite HX. }
  unfold bindS at 1. unfold modify at 1. unfold bindS at 1. unfold ret at 1.
  unfold bindS at 1. unfold modify at 1. unfold bindS at 1. unfold get at 1.
  unfold bindS at 1. unfold modify at 1. unfold bindS at 1. unfold modify at 1.
  unfold bindS at 1. unfold lift at 1. rewrite Hn.
  assert (exists y_t, take_channel y_ 0 = Ok y_t) as [y_t Hy].
  { unfold shape1 in Hn. unfold take_channel.
    destruct (trailing y_) as [|c tr]; [done|]. injection Hn as ->.
    simpl. eauto. }
  simpl forS. unfold bindS at 1.
  rewrite (fit_target_no_alpha _ _ y_t) by done.
  done.
Qed.

(** X7. A target without output channels ([y_.shape[1] = 0]) makes [fit]
    return with an empty list of models. On that instance the access to
    [coef_] raises the [ValueError] of [np.concatenate] of an empty list,
    which is not the state error; so does [predict] on one trial or
    more. *)
Theorem fit_without_channels (X_ y_ : ndarray) (s s' : TRF.t) :
  shape1 y_ = Ok 0%nat ->
  fit_models X_ y_ s = (s', Ok tt) ->
  TRF.models_ s' = Some []
  /\ coef_ s' = Raise (ValueError msg_concatenate_empty)
  /\ forall (h : heap) (outstruct : option OutStruct.t) (l : loc)
            (ls : list loc),
       Forall (fun l' => is_Some (h !! l')) (l :: ls) ->
       predict s' h outstruct (Trials (l :: ls))
       = Raise (ValueError msg_concatenate_empty).
Proof.
  intros Hn H.
  apply fit_models_run in H as [[_ [=]] | (e & ext & -> & _ & Hlen)].
  rewrite Hn in Hlen. injection Hlen as Hlen.
  destruct ext; [|done]. split; [done|]. split; [done|].
  intros h outstruct l ls Hall. unfold predict. simpl.
  apply Forall_cons in Hall as [[x Hx] Hall].
  unfold load at 1. rewrite Hx. simpl.
  assert (exists xs, mapM (load h) ls = Ok xs) as [xs ->].
  { clear -Hall. induction Hall as [|l' ls [x Hx] _ [xs IH]]; simpl.
    - by exists [].
    - unfold load at 1. rewrite Hx. simpl. rewrite IH. simpl. eauto. }
  done.
Qed.

Lemma fit_models_overwrites
    (sfreq tmin tmax : Q) (reg_type : string) (alpha : list Q)
    (xval_test_portion : Q) (fit_intercept : bool) (scoring : string)
    (n_jobs random_state : Z)
    (nd1 nd2 : option nat) (ms1 ms2 : option (list ReceptiveField))
    (d1 d2 : option (list Z)) (v1 v2 : option (option Z * option Z))
    (est : option TimeDelayingRidge) (X_ y_ : ndarray) :
  let s1 := TRF.mk sfreq tmin tmax reg_type alpha xval_test_portion
              fit_intercept scoring n_jobs random_state nd1 ms1 d1 v1 est in
  let s2 := TRF.mk sfreq tmin tmax reg_type alpha xval_test_portion
              fit_intercept scoring n_jobs random_state nd2 ms2 d2 v2 est in
  snd (fit_models X_ y_ s1) = snd (fit_models X_ y_ s2)
  /\ (snd (fit_models X_ y_ s1) = Ok tt ->
      fit_models X_ y_ s1 = fit_models X_ y_ s2).
Proof.
  intros s1 s2. unfold fit_models.
  unfold bindS at 1. unfold modify at 1.
  unfold bindS at 14. unfold modify at 8.
  destruct (ndim y_ =? 3)%nat; [destruct (ndim X_ <? 2)%nat|].
  - split; [reflexivity|]. intros [=].
  - split; [|intros _]; reflexivity.
  - split; [|intros _]; reflexivity.
Qed.

(** X8. What an earlier [fit] left in [ndim_y_], [models_], [delays_] and
    [valid_samples_] has no effect on a later one: on two instances that
    differ in these attributes only, [fit] with the same arguments on the
    same store has the same outcome and leaves the same store, and where it
    returns it leaves the same instance. *)
Theorem fit_overwrites_fitted_attributes
    (sfreq tmin tmax : Q) (reg_type : string) (alpha : list Q)
    (xval_test_portion : Q) (fit_intercept : bool) (scoring : string)
    (n_jobs random_state : Z)
    (nd1 nd2 : option nat) (ms1 ms2 : option (list ReceptiveField))
    (d1 d2 : option (list Z)) (v1 v2 : option (option Z * option Z))
    (est : option TimeDelayingRidge)
    (outstruct : option OutStruct.t) (X y : data_arg) (h : heap) :
  let s1 := TRF.mk sfreq tmin tmax reg_type alpha xval_test_portion
              fit_intercept scoring n_jobs random_state nd1 ms1 d1 v1 est in
  let s2 := TRF.mk sfreq tmin tmax reg_type alpha xval_test_portion
              fit_intercept scoring n_jobs random_state nd2 ms2 d2 v2 est in
  let run1 := fit outstruct X y (s1, h) in
  let run2 := fit outstruct X y (s2, h) in
  snd run1 = snd run2
  /\ snd (fst run1) = snd (fst run2)
  /\ (snd run1 = Ok tt -> fst (fst run1) = fst (fst run2)).
Proof.
  intros s1 s2 run1 run2. unfold run1, run2, fit.
  change (fit_prepare s2 outstruct X y h)
    with (fit_prepare s1 outstruct X y h).
  destruct (fit_prepare s1 outstruct X y h) as [h1 [[X_ y_]|e]].
  - destruct (fit_models_overwrites sfreq tmin tmax reg_type alpha
                xval_test_portion fit_intercept scoring n_jobs random_state
                nd1 nd2 ms1 ms2 d1 d2 v1 v2 est X_ y_) as [Hr Hs].
    fold s1 s2 in Hr, Hs.
    destruct (fit_models X_ y_ s1) as [s1' r1].
    destruct (fit_models X_ y_ s2) as [s2' r2]. simpl in *.
    split; [done|]. split; [done|]. intros Hok.
    specialize (Hs Hok). by injection Hs as ->.
  - simpl. split; [done|]. split; [done|]. intros [=].
Qed.

End FitEdges.

Lemma fit_no_candidate_witness :
  fit_models (E:=Toy.externals) (col [1; 2; 3; 4]%Q) (col [1; 1; 1; 1]%Q)
    (TRF.mk 1 0 1 "ridge" [] (1 # 4) false "corrcoef" 1 1
       None None None None None)
  = (fit_started (E:=Toy.externals)
       (TRF.mk 1 0 1 "ridge" [] (1 # 4) false "corrcoef" 1 1
          None None None None None)
       (col [1; 1; 1; 1]%Q),
     Raise IndexError).
Proof.
  apply (fit_no_candidate (E:=Toy.externals) 0 1 1 "ridge" (1 # 4) false
           "corrcoef" 1 1 _ (col [1; 2; 3; 4]%Q) (col [1; 1; 1; 1]%Q) 0).
  - reflexivity.
  - reflexivity.
  - discriminate.
Defined.

Lemma fit_without_channels_witness :
  TRF.models_
    (fst (fit_models (E:=Toy.externals) (col [1; 2; 3; 4]%Q) no_channel
            two_trials_self)) = Some []
  /\ coef_ (fst (fit_models (E:=Toy.externals) (col [1; 2; 3; 4]%Q)
                   no_channel two_trials_self))
     = Raise (ValueError msg_concatenate_empty)
  /\ forall (h : heap) (outstruct : option OutStruct.t) (l : loc)
            (ls : list loc),
       Forall (fun l' => is_Some (h !! l')) (l :: ls) ->
       predict (E:=Toy.externals)
         (fst (fit_models (E:=Toy.externals) (col [1; 2; 3; 4]%Q)
                 no_channel two_trials_self))
         h outstruct (Trials (l :: ls))
       = Raise (ValueError msg_concatenate_empty).
Proof.
  apply (fit_without_channels (E:=Toy.externals) (col [1; 2; 3; 4]%Q)
           no_channel two_trials_self).
  - reflexivity.
  - vm_compute. reflexivity.
Defined.

(** ** fit: targets the taper does not fit *)



Lemma deepcopy_arrays_head (h h2 : heap) (l : loc) (ls ls2 : list loc)
    (a : ndarray) :
  h !! l = Some a ->
  deepcopy_arrays h ∅ (l :: ls) = (h2, ls2) ->
  exists ls', ls2 = length h :: ls' /\ h2 !! length h = Some a.
Proof.
  intros Hl H. simpl in H. rewrite lookup_empty, Hl in H. unfold alloc in H.
  simpl in H.
  destruct (deepcopy_arrays (h ++ [a]) (<[l:=length h]> ∅) ls)
    as [h3 ls3] eqn:Hrec.
  injection H as <- <-. exists ls3. split; [done|].
  apply (deepcopy_arrays_fresh (length h)) in Hrec as [Hp _].
  - rewrite Hp by (rewrite length_app; simpl; lia).
    by rewrite lookup_app_r, Nat.sub_diag by lia.
  - rewrite length_app. lia.
  - intros k k1 Hk. destruct (decide (l = k)) as [->|Hne].
    + rewrite lookup_insert_eq in Hk. injection Hk as <-. lia.
    + by rewrite lookup_insert_ne, lookup_empty in Hk.
Qed.


Section TaperFits.

Context {E : Externals}.



End TaperFits.


(** ** Copies *)

Lemma deepcopy_arrays_valid (ls : list loc) :
  forall (h : heap) (memo : gmap loc loc) (h' : heap) (ls' : list loc),
    (forall l l1, memo !! l = Some l1 -> (l1 < length h)%nat) ->
    deepcopy_arrays h memo ls = (h', ls') ->
    length ls' = length ls
    /\ (length h <= length h')%nat
    /\ Forall (fun l' => (l' < length h')%nat) ls'.
Proof.
  induction ls as [|l ls IH]; intros h memo h' ls' Hmemo H; simpl in H.
  - injection H as <- <-. split; [done|]. split; [done | constructor].
  - destruct (memo !! l) as [l1|] eqn:Hl.
    + destruct (deepcopy_arrays h memo ls) as [h2 ls2] eqn:Hrec.
      injection H as <- <-.
      destruct (IH _ _ _ _ Hmemo Hrec) as (Hlen & Hle & Hall).
      split; [simpl; by rewrite Hlen|]. split; [done|].
      constructor; [|done]. apply Hmemo in Hl. lia.
    + unfold alloc in H.
      match type of H with
      | context [deepcopy_arrays ?a ?b ?c] =>
          destruct (deepcopy_arrays a b c) as [h2 ls2] eqn:Hrec
      end.
      injection H as <- <-.
      apply IH in Hrec as (Hlen & Hle & Hall).
      * rewrite length_app in Hle. simpl in Hle.
        split; [simpl; by rewrite Hlen|]. split; [lia|].
        constructor; [lia | done].
      * intros k k1 Hk. rewrite length_app. simpl.
        destruct (decide (l = k)) as [->|Hne].
        -- rewrite lookup_insert_eq in Hk. injection Hk as <-. lia.
        -- rewrite lookup_insert_ne in Hk by done. apply Hmemo in Hk. lia.
Qed.

Lemma deepcopy_trials (ls : list loc) (h h' : heap) (r : result data_arg) :
  deepcopy (Trials ls) h = (h', r) ->
  exists ls',
    r = Ok (Trials ls')
    /\ length ls' = length ls
    /\ preserves h h'
    /\ Forall (fun l' => (l' < length h')%nat) ls'.
Proof.
  intros H. pose proof H as Hf. apply deepcopy_fresh in Hf as [Hp _].
  unfold deepcopy in H.
  destruct (deepcopy_arrays h ∅ ls) as [h2 ls2] eqn:Hrec.
  injection H as <- <-.
  apply deepcopy_arrays_valid in Hrec as (Hlen & _ & Hall); [|done].
  exists ls2. done.
Qed.

Lemma mapM_load_valid (h : heap) (ls : list loc) :
  Forall (fun l => (l < length h)%nat) ls ->
  exists arrays,
    mapM (load h) ls = Ok arrays
    /\ Forall2 (fun l a => h !! l = Some a) ls arrays.
Proof.
  induction 1 as [|l ls Hl _ (arrays & IH & Hall)]; simpl.
  - exists []. split; [done | constructor].
  - destruct (lookup_lt_is_Some_2 h l Hl) as [a Ha].
    unfold load at 1. rewrite Ha. simpl. rewrite IH. simpl.
    exists (a :: arrays). split; [done | by constructor].
Qed.

(** ** score: targets of one axis *)

Section ScoreOneAxis.

Context {E : Externals}.

Lemma fit_prepare_one_axis (self : TRF.t) (outstruct : option OutStruct.t)
    (xs ls : list loc) (l : loc) (a : ndarray) (h h' : heap)
    (X_ y_ : ndarray) :
  h !! l = Some a ->
  ndim a = 1%nat ->
  fit_prepare self outstruct (Trials xs) (Trials (l :: ls)) h
  = (h', Ok (X_, y_)) ->
  ndim y_ = 2%nat /\ length xs = length (l :: ls).
Proof.
  intros Hl Hnd H. unfold fit_prepare in H.
  run_step H as h1 X' H1.
  apply deepcopy_trials in H1 as (xs' & [= ->] & Hlx & Hp1 & _).
  run_step H as h2 y' H2.
  unfold deepcopy in H2.
  destruct (deepcopy_arrays h1 ∅ (l :: ls)) as [h2' ls2] eqn:Hcopy.
  injection H2 as <- <-.
  pose proof Hcopy as Hv.
  apply deepcopy_arrays_valid in Hv as (Hly & _ & _); [|done].
  apply (deepcopy_arrays_head _ _ _ _ _ a) in Hcopy as (ls' & -> & Hnew).
  2:{ rewrite Hp1; [done|]. by eapply lookup_lt_Some. }
  run_step H as h3 parsed H3. run_prim H3.
  assert (snd parsed = length h1 :: ls'
          /\ length xs' = length (length h1 :: ls')) as [Hsnd Hlen].
  { unfold _parse_outstruct_args in H3. simpl in H3.
    destruct (length xs' =? S (length ls'))%nat eqn:Hq; [|done].
    apply Nat.eqb_eq in Hq. by injection H3 as ->. }
  rewrite Hsnd in H. clear H3 Hsnd.
  split; [|by rewrite <- Hlx, Hlen, Hly].
  run_step H as h4 Xs H4. run_prim H4.
  run_step H as h5 X0 H5. run_prim H5.
  run_step H as h6 y0 H6. run_prim H6.
  unfold load in H6. rewrite Hnew in H6. injection H6 as ->.
  run_step H as h7 u H7. clear H7.
  run_step H as h8 u8 H8. clear H8.
  run_step H as h9 ys_ H9. run_prim H9.
  run_step H as h10 y1 H10. run_prim H10.
  apply ret_inv in H as [_ [= _ ->]].
  rewrite Hnd in H9. simpl in H9. symmetry in H9, H10.
  apply bind_Ok in H9 as (v & Hv & H9).
  apply bind_Ok in Hv as (a' & _ & [= <-]).
  apply bind_Ok in H9 as (vs & _ & [= <-]).
  unfold concatenate in H10. destruct (forallb _ _); [|done].
  by injection H10 as <-.
Qed.

(** X10. [fit] turns targets of one axis into columns, [score] does not:
    after a [fit] that returned on directly passed arrays whose first
    target has one axis, [score] on the very same arguments raises the
    [ValueError] of the check of the number of axes. *)
Theorem score_rejects_one_axis_targets (self self' : TRF.t)
    (outstruct : option OutStruct.t) (xs ls : list loc) (l : loc)
    (a : ndarray) (h h' : heap) (weight_trial_duration : bool) :
  h !! l = Some a ->
  ndim a = 1%nat ->
  fit outstruct (Trials xs) (Trials (l :: ls)) (self, h)
  = ((self', h'), Ok tt) ->
  snd (score self' outstruct (Trials xs) (Trials (l :: ls))
         weight_trial_duration h')
  = Raise (ValueError msg_y_shape).
Proof.
  intros Hl Hnd Hfit.
  pose proof (fit_preserves_direct _ _ _ _ _ _ _ _ Hfit) as Hp.
  assert (h' !! l = Some a) as Hl'.
  { rewrite Hp; [done|]. by eapply lookup_lt_Some. }
  unfold fit in Hfit.
  destruct (fit_prepare self outstruct (Trials xs) (Trials (l :: ls)) h)
    as [h1 [[X_ y_]|e]] eqn:Hprep; [|done].
  apply (fit_prepare_one_axis _ _ _ _ _ a) in Hprep as [Hy Hlen]; [|done..].
  destruct (fit_models X_ y_ self) as [s1 r1] eqn:Hm.
  injection Hfit as -> _ ->.
  apply fit_models_run in Hm as [[_ [=]] | (e & ext & -> & _ & _)].
  destruct (score _ _ _ _ _ _) as [hf rf] eqn:Hs. simpl.
  unfold score in Hs. simpl TRF.models_ in Hs.
  run_step Hs as h2 X' H1; [|by apply deepcopy_trials in Hs as (? & [=] & _)].
  apply deepcopy_trials in H1 as (xs' & [= ->] & Hlx & Hp1 & Hvx).
  run_step Hs as h3 y' H2.
  2:{ by apply deepcopy_trials in Hs as (? & [=] & _). }
  unfold deepcopy in H2.
  destruct (deepcopy_arrays h2 ∅ (l :: ls)) as [h3' ls2] eqn:Hcopy.
  injection H2 as <- <-.
  pose proof Hcopy as Hv.
  apply deepcopy_arrays_valid in Hv as (Hly & Hle & Hvy); [|done].
  apply (deepcopy_arrays_head _ _ _ _ _ a) in Hcopy as (ls' & -> & Hnew).
  2:{ rewrite Hp1; [done|]. by eapply lookup_lt_Some. }
  assert (_parse_outstruct_args outstruct (Trials xs')
            (Trials (length h2 :: ls')) = Ok (xs', length h2 :: ls')) as Hparse.
  { unfold _parse_outstruct_args. simpl.
    replace (length xs' =? S (length ls'))%nat with true; [done|].
    symmetry. apply Nat.eqb_eq. simpl in Hly, Hlen. lia. }
  rewrite Hparse in Hs.
  run_step Hs as h4 parsed H3; [|by run_prim Hs]. run_prim H3.
  injection H3 as ->.
  destruct (mapM_load_valid h3' xs') as (X_arrays & HX & HXall).
  { eapply Forall_impl; [exact Hvx|]. intros k Hk. simpl in Hk. lia. }
  destruct (mapM_load_valid h3' (length h2 :: ls')) as (y_arrays & HY & HYall);
    [done|].
  simpl fst in Hs. simpl snd in Hs.
  run_step Hs as h5 X_0 H4; [|run_prim Hs; congruence]. run_prim H4.
  run_step Hs as h6 y_0 H5; [|run_prim Hs; congruence]. run_prim H5.
  assert (X_0 = X_arrays) as -> by congruence.
  assert (y_0 = y_arrays) as -> by congruence.
  apply Forall2_cons_inv_l in HYall as (a0 & y_rest & Ha0 & _ & ->).
  rewrite Hnew in Ha0. injection Ha0 as <-.
  destruct X_arrays as [|x0 X_rest].
  { apply Forall2_length in HXall. simpl in *. lia. }
  assert (score_predictions
            (TRF.with_estimator_ e (TRF.set_models_ ext (fit_started self y_)))
            ext (x0 :: X_rest) (a :: y_rest)
          = Raise (ValueError msg_y_shape)) as Hsp.
  { unfold score_predictions. cbn [zip_with mapM bind TRF.ndim_y_
      TRF.with_estimator_ TRF.set_models_ TRF.with_models_ fit_started
      TRF.set_valid_samples_ TRF.set_delays_ TRF.set_ndim_y_ snd fst].
    rewrite Hnd, Hy. done. }
  rewrite Hsp in Hs.
  run_step Hs as h7 preds H6; [by run_prim H6|].
  run_prim Hs. by injection Hs as ->.
Qed.

End ScoreOneAxis.

Lemma score_rejects_one_axis_targets_witness :
  snd (score (E:=Toy.externals) (fst one_axis_fitted) None (Trials [0%nat])
         (Trials [1%nat]) true (snd one_axis_fitted))
  = Raise (ValueError msg_y_shape).
Proof.
  apply (score_rejects_one_axis_targets (E:=Toy.externals) two_trials_self
           (fst one_axis_fitted) None [0%nat] [] 1%nat
           (mk_array [] [[1]; [2]; [2]; [1]]%Q) one_axis_heap
           (snd one_axis_fitted) true).
  - reflexivity.
  - reflexivity.
  - vm_compute. reflexivity.
Defined.

(** ** predict: one prediction per trial, one column per model *)

Lemma list_sum_unit_axes (l : list ndarray) :
  Forall (fun b => hd 0%nat (trailing b) = 1%nat) l ->
  list_sum (map (fun b => hd 0%nat (trailing b)) l) = length l.
Proof.
  induction 1 as [|b l Hb _ IH]; simpl; [done|]. by rewrite Hb, IH.
Qed.

Lemma concatenate_axis1_shape1 (l : list ndarray) (p : ndarray) :
  Forall (fun b => hd 0%nat (trailing b) = 1%nat) l ->
  concatenate_axis1 l = Ok p ->
  shape1 p = Ok (length l).
Proof.
  intros Hall H. unfold concatenate_axis1 in H.
  destruct l as [|a l']; [done|].
  destruct (trailing a) as [|c rest] eqn:Htr; [done|].
  destruct (forallb _ _); [|done]. injection H as <-.
  unfold shape1. cbn [trailing]. f_equal.
  by apply (list_sum_unit_axes (a :: l')).
Qed.

Section Predict.

Context {E : Externals}.

(** X11. When [predict] returns on directly passed trials, it returns one
    prediction for each trial, and axis 1 of every prediction has one
    index for each fitted model, that is for each output channel. *)
Theorem predict_one_column_per_model (self : TRF.t)
    (models : list ReceptiveField) (h : heap)
    (outstruct : option OutStruct.t) (xs : list loc) (preds : list ndarray) :
  TRF.models_ self = Some models ->
  predict self h outstruct (Trials xs) = Ok preds ->
  length preds = length xs
  /\ Forall (fun p => shape1 p = Ok (length models)) preds.
Proof.
  intros Hm H. unfold predict in H. rewrite Hm in H. simpl in H.
  apply bind_Ok in H as (X & HX & H). unfold predict_trials in H.
  split.
  - apply mapM_Ok_length in H, HX. congruence.
  - apply Forall_forall. intros p Hp.
    apply list_elem_of_lookup in Hp as [i Hi].
    assert (is_Some (X !! i)) as [x Hx].
    { apply lookup_lt_is_Some. apply mapM_Ok_length in H.
      rewrite <- H. by eapply lookup_lt_Some. }
    destruct (mapM_Ok_lookup _ _ _ _ _ H Hx) as (p' & Hp' & Hpred).
    rewrite Hi in Hp'. injection Hp' as <-.
    apply bind_Ok in Hpred as (cols & Hcols & Hcat).
    apply concatenate_axis1_shape1 in Hcat.
    + rewrite Hcat. f_equal. by apply mapM_Ok_length in Hcols.
    + apply Forall_forall. intros b Hb.
      apply list_elem_of_lookup in Hb as [j Hj].
      assert (is_Some (models !! j)) as [mdl Hmdl].
      { apply lookup_lt_is_Some. apply mapM_Ok_length in Hcols.
        rewrite <- Hcols. by eapply lookup_lt_Some. }
      destruct (mapM_Ok_lookup _ _ _ _ _ Hcols Hmdl) as (b' & Hb' & Hb2).
      rewrite Hj in Hb'. injection Hb' as <-.
      apply bind_Ok in Hb2 as (tmp & _ & Hb2).
      apply bind_Ok in Hb2 as (nd & _ & Hb2).
      destruct (nd =? 2)%nat.
      * by injection Hb2 as <-.
      * unfold reshape_T_1_rest in Hb2. destruct (rows tmp); [done|].
        by injection Hb2 as <-.
Qed.

End Predict.

Lemma predict_one_column_per_model_witness :
  length two_trials_predictions = 2%nat
  /\ Forall (fun p => shape1 p = Ok 1%nat) two_trials_predictions.
Proof.
  apply (predict_one_column_per_model (E:=Toy.externals)
           (fst two_trials_fitted)
           (default [] (TRF.models_ (fst two_trials_fitted)))
           (snd two_trials_fitted) None [0; 1]%nat two_trials_predictions).
  - vm_compute. reflexivity.
  - vm_compute. reflexivity.
Defined.

(** ** score: one entry per output channel *)

Section ScoreLength.

Context {E : Externals}.

Lemma trial_score_length (self : TRF.t) (name : string)
    (scorer : ndarray -> ndarray -> result (list Q))
    (y_pred y_true : ndarray) (s : list Q) :
  scorers_score_columns ->
  _SCORERS name = Ok scorer ->
  TRF.ndim_y_ self = Some 2%nat \/ TRF.ndim_y_ self = Some 3%nat ->
  trial_score self scorer y_pred y_true = Ok s ->
  shape1 y_true = Ok (length s).
Proof.
  intros Hcols Hname Hnd H. unfold trial_score in H.
  apply bind_Ok in H as (nd & Hnd' & H).
  destruct (ndim y_true =? nd)%nat eqn:Hdim; [|done]. simpl in H.
  apply Nat.eqb_eq in Hdim.
  apply bind_Ok in H as ([p t] & Hresh & H).
  apply bind_Ok in H as (c_pred & _ & H).
  apply bind_Ok in H as (c_true & Hc & H).
  destruct (negb _); [done|]. simpl in H.
  rewrite Hc. f_equal. symmetry.
  destruct Hnd as [Hn | Hn]; rewrite Hn in Hnd'; injection Hnd' as <-;
    simpl in Hresh.
  - injection Hresh as <- <-.
    eapply (Hcols name scorer y_pred y_true); [done | done |].
    unfold ndim in Hdim. unfold shape1 in Hc.
    destruct (trailing y_true) as [|c [|? ?]]; simpl in *; try done.
    by injection Hc as ->.
  - apply bind_Ok in Hresh as (p' & _ & Hresh).
    apply bind_Ok in Hresh as (t' & Ht & Hresh). injection Hresh as <- <-.
    eapply (Hcols name scorer p' t'); [done | done |].
    unfold flatten_features in Ht. unfold shape1 in Hc.
    destruct (trailing y_true) as [|C [|F [|? ?]]]; try done.
    injection Ht as <-. by injection Hc as ->.
Qed.

(** X12. When [score] returns on directly passed trials, with scorers that
    give one score per column, its value has one entry for each output
    channel of the targets (axis 1 of the first target). *)
Theorem score_one_entry_per_channel (self : TRF.t)
    (outstruct : option OutStruct.t) (xs ls : list loc) (l : loc)
    (a : ndarray) (weight_trial_duration : bool) (h h' : heap)
    (r : list Q) :
  scorers_score_columns ->
  TRF.ndim_y_ self = Some 2%nat \/ TRF.ndim_y_ self = Some 3%nat ->
  h !! l = Some a ->
  score self outstruct (Trials xs) (Trials (l :: ls)) weight_trial_duration h
  = (h', Ok r) ->
  shape1 a = Ok (length r).
Proof.
  intros Hcols Hnd Hl H. unfold score in H.
  destruct (TRF.models_ self) as [models|]; [|done].
  run_step H as h1 X' H1.
  apply deepcopy_trials in H1 as (xs' & [= ->] & Hlx & Hp1 & _).
  run_step H as h2 y' H2.
  unfold deepcopy in H2.
  destruct (deepcopy_arrays h1 ∅ (l :: ls)) as [h2' ls2] eqn:Hcopy.
  injection H2 as <- <-.
  apply (deepcopy_arrays_head _ _ _ _ _ a) in Hcopy as (ls' & -> & Hnew).
  2:{ rewrite Hp1; [done|]. by eapply lookup_lt_Some. }
  run_step H as h3 parsed H3. run_prim H3.
  assert (parsed = (xs', length h1 :: ls')
          /\ length xs' = length (length h1 :: ls')) as [-> Hlen].
  { unfold _parse_outstruct_args in H3. simpl in H3.
    destruct (length xs' =? S (length ls'))%nat eqn:Hq; [|done].
    apply Nat.eqb_eq in Hq. by injection H3 as ->. }
  clear H3. simpl fst in H. simpl snd in H.
  run_step H as h4 X_ H4. run_prim H4. symmetry in H4.
  run_step H as h5 y_ H5. run_prim H5. symmetry in H5.
  run_step H as h6 y_preds H6. run_prim H6. symmetry in H6.
  run_step H as h7 weights H7. run_prim H7.
  run_prim H. symmetry in H.
  simpl in H5. apply bind_Ok in H5 as (a0 & Ha0 & H5).
  unfold load in Ha0. rewrite Hnew in Ha0. injection Ha0 as <-.
  apply bind_Ok in H5 as (y_rest & _ & [= <-]).
  destruct X_ as [|x0 X_rest].
  { apply mapM_Ok_length in H4. simpl in *. lia. }
  simpl in H6. apply bind_Ok in H6 as (p0 & _ & H6).
  apply bind_Ok in H6 as (p_rest & _ & [= <-]).
  unfold _score_predictions in H.
  apply bind_Ok in H as (scores & Hscores & Havg).
  unfold trial_scores in Hscores.
  apply bind_Ok in Hscores as (scorer & Hname & Hscores). simpl in Hscores.
  apply bind_Ok in Hscores as (s0 & Hs0 & Hscores).
  apply bind_Ok in Hscores as (s_rest & _ & [= <-]).
  apply np_average_length in Havg. simpl in Havg. rewrite Havg.
  by eapply trial_score_length.
Qed.

End ScoreLength.

Lemma score_one_entry_per_channel_witness :
  shape1 (col [1; 1; 1; 1]%Q) = Ok (length [-11232 # 1296]).
Proof.
  apply (score_one_entry_per_channel (E:=Toy.externals)
           (fst two_trials_fitted) None [0; 1]%nat [3%nat] 2%nat
           (col [1; 1; 1; 1]%Q) true (snd two_trials_fitted)
           (fst (score (E:=Toy.externals) (fst two_trials_fitted) None
                   (Trials [0; 1]%nat) (Trials [2; 3]%nat) true
                   (snd two_trials_fitted)))).
  - apply toy_scorers_score_columns.
  - left. reflexivity.
  - reflexivity.
  - vm_compute. reflexivity.
Defined.

(** ** The caller's arrays, again *)

Lemma taper_in_place_well_shaped flat win3 F0 ws we l (h h' : heap)
    (a a' : ndarray) :
  h !! l = Some a ->
  well_shaped a ->
  taper_in_place flat win3 F0 ws we l h = (h', Ok tt) ->
  h' !! l = Some a' ->
  well_shaped a'.
Proof.
  intros Hl Ha H Hl'. unfold taper_in_place in H.
  run_step H as h1 u H1. destruct u.
  apply assign_rows_effect in H1 as (a0 & rs1 & Hl0 & Hc & Hf1 & ->).
  rewrite Hl in Hl0. injection Hl0 as <-.
  apply assign_rows_effect in H as (a1 & rs2 & Hl1 & _ & Hf2 & ->).
  assert (l < length h)%nat as Hlt by (by eapply lookup_lt_Some).
  rewrite list_lookup_insert_eq in Hl1 by done. injection Hl1 as <-.
  rewrite list_lookup_insert_eq in Hl' by (by rewrite length_insert).
  injection Hl' as <-.
  pose proof (taper_start_rows _ _ _ Hf1) as E1.
  pose proof (view_well_shaped flat a Ha) as Hv.
  destruct (view_write_view flat a rs1) as (Hv1 & Ht1 & Hw1); [done | | |].
  { rewrite E1. apply length_imap. }
  { rewrite E1. apply imap_row_lengths; [apply length_fade_in | exact Hv]. }
  rewrite Hv1 in Hf2. simpl in Hf2.
  pose proof (taper_end_rows _ _ _ Hf2) as E2.
  destruct (view_write_view flat (write_view flat a rs1) rs2)
    as (_ & _ & Hw2); [done | | | done].
  { rewrite Hv1. simpl. rewrite E2. apply length_imap. }
  { rewrite Hv1. simpl. rewrite E2.
    apply imap_row_lengths; [apply length_fade_out|].
    rewrite E1. apply imap_row_lengths; [apply length_fade_in | exact Hv]. }
Qed.

Section CallersArrays.

Context {E : Externals}.

(** X13. With the arrays passed directly, [fit] works on copies: every
    array that existed before the call is where it was, with the numbers it
    had, whether [fit] returns or raises. *)
Theorem fit_on_arrays_keeps_callers_arrays (outstruct : option OutStruct.t)
    (xs ys : list loc) (self self' : TRF.t) (h h' : heap) (r : result unit)
    (l : loc) (a : ndarray) :
  fit outstruct (Trials xs) (Trials ys) (self, h) = ((self', h'), r) ->
  h !! l = Some a ->
  h' !! l = Some a.
Proof.
  intros H Hl. apply fit_preserves_direct in H.
  rewrite H; [done|]. by eapply lookup_lt_Some.
Qed.

(** X14. [score] writes into no array, whether its arguments are arrays or
    names of fields: every array that existed before the call is unchanged
    after it. *)
Theorem score_keeps_callers_arrays (self : TRF.t)
    (outstruct : option OutStruct.t) (X y : data_arg)
    (weight_trial_duration : bool) (h h' : heap) (r : result (list Q))
    (l : loc) (a : ndarray) :
  score self outstruct X y weight_trial_duration h = (h', r) ->
  h !! l = Some a ->
  h' !! l = Some a.
Proof.
  intros H Hl. apply score_preserves in H.
  rewrite H; [done|]. by eapply lookup_lt_Some.
Qed.

(** X15. A target array that is passed twice is copied once
    ([copy.deepcopy] keeps the two entries one object), and the loop tapers
    it twice: both trials enter the concatenation with their ends
    multiplied by the window two times. *)
Theorem fit_tapers_shared_target_twice (self : TRF.t)
    (outstruct : option OutStruct.t) (xs : list loc) (l : loc) (a : ndarray)
    (h h' : heap) (X_ y_ : ndarray) :
  h !! l = Some a ->
  well_shaped a ->
  fit_prepare self outstruct (Trials xs) (Trials [l; l]) h
  = (h', Ok (X_, y_)) ->
  let twice :=
    tapered (hamming_start self) (hamming_end self)
      (tapered (hamming_start self) (hamming_end self)
         (view (ndim a =? 1)%nat a)) in
  concatenate [twice; twice] = Ok y_.
Proof.
  intros Hl Ha H. unfold fit_prepare in H.
  run_step H as h1 X' H1.
  apply deepcopy_trials in H1 as (xs' & [= ->] & _ & Hp1 & _).
  run_step H as h2 y' H2.
  assert (h1 !! l = Some a) as Hl1.
  { rewrite Hp1; [done|]. by eapply lookup_lt_Some. }
  unfold deepcopy in H2. simpl in H2.
  rewrite lookup_empty, Hl1, lookup_insert_eq in H2. simpl in H2.
  injection H2 as <- <-.
  run_step H as h3 parsed H3. run_prim H3.
  assert (snd parsed = [length h1; length h1]) as Hsnd.
  { unfold _parse_outstruct_args in H3. simpl in H3.
    destruct (_ =? _)%nat; [|done]. by injection H3 as ->. }
  rewrite Hsnd in H. clear H3 Hsnd.
  run_step H as h4 Xs H4. run_prim H4.
  run_step H as h5 X0 H5. run_prim H5.
  run_step H as h6 y0 H6. run_prim H6.
  assert ((h1 ++ [a]) !! length h1 = Some a) as Hnew
    by (by rewrite lookup_app_r, Nat.sub_diag by lia).
  unfold load in H6. rewrite Hnew in H6. injection H6 as ->.
  run_step H as h7 u H7.
  assert (h7 = h1 ++ [a]) as ->.
  { destruct (_ && _); [by apply raise_inv in H7 as [-> _]
                       | by apply ret_inv in H7 as [-> _]]. }
  clear H7.
  run_step H as h8 u8 H8. destruct u8. cbn [forS] in H8.
  run_step H8 as h9 u9 H9. destruct u9.
  run_step H8 as h10 u10 H10. destruct u10. run_prim H8.
  assert (length h1 < length (h1 ++ [a]))%nat as Hlt
    by (rewrite length_app; simpl; lia).
  pose proof H9 as Hw9.
  apply (taper_in_place_effect _ _ _ _ _ _ _ _ a) in H9
    as (a1 & -> & Hv1 & _); [|done..].
  assert (well_shaped a1) as Ha1.
  { eapply (taper_in_place_well_shaped _ _ _ _ _ _ _ _ a a1);
      [exact Hnew | exact Ha | exact Hw9 |].
    by rewrite list_lookup_insert_eq. }
  apply (taper_in_place_effect _ _ _ _ _ _ _ _ a1) in H10
    as (a2 & -> & Hv2 & _); [|by rewrite list_lookup_insert_eq|done].
  rewrite list_insert_insert_eq in H.
  run_step H as h11 ys_ H11. run_prim H11.
  run_step H as h12 y1 H12. run_prim H12.
  apply ret_inv in H as [_ [= _ ->]].
  cbn [mapM] in H11. unfold load in H11.
  rewrite list_lookup_insert_eq in H11 by done. cbn [bind] in H11.
  match type of H11 with
  | Ok _ = Ok ?vs => assert (ys_ = vs) as -> by congruence
  end.
  rewrite Hv2, Hv1 in H12. by intros twice.
Qed.

End CallersArrays.

Lemma fit_on_arrays_keeps_callers_arrays_witness :
  snd two_trials_fitted !! 2%nat = Some (col [1; 1; 1; 1]%Q).
Proof.
  apply (fit_on_arrays_keeps_callers_arrays (E:=Toy.externals) None
           [0; 1]%nat [2; 3]%nat two_trials_self (fst two_trials_fitted)
           two_trials (snd two_trials_fitted) (Ok tt) 2%nat
           (col [1; 1; 1; 1]%Q)).
  - vm_compute. reflexivity.
  - reflexivity.
Defined.

Lemma score_keeps_callers_arrays_witness :
  fst demo_scored !! 3%nat = Some (col [3; 3]%Q).
Proof.
  apply (score_keeps_callers_arrays (E:=Toy.externals)
           (fst two_trials_fitted) None (Trials [0; 1]%nat)
           (Trials [2; 3]%nat) true (snd two_trials_fitted) (fst demo_scored)
           (snd demo_scored) 3%nat (col [3; 3]%Q)).
  - vm_compute. reflexivity.
  - vm_compute. reflexivity.
Defined.

Lemma fit_tapers_shared_target_twice_witness :
  concatenate
    [tapered (hamming_start (E:=Toy.externals) demo_self)
       (hamming_end (E:=Toy.externals) demo_self)
       (tapered (hamming_start (E:=Toy.externals) demo_self)
          (hamming_end (E:=Toy.externals) demo_self)
          (view (ndim (col [1; 1; 1; 1; 1; 1]%Q) =? 1)%nat
             (col [1; 1; 1; 1; 1; 1]%Q)));
     tapered (hamming_start (E:=Toy.externals) demo_self)
       (hamming_end (E:=Toy.externals) demo_self)
       (tapered (hamming_start (E:=Toy.externals) demo_self)
          (hamming_end (E:=Toy.externals) demo_self)
          (view (ndim (col [1; 1; 1; 1; 1; 1]%Q) =? 1)%nat
             (col [1; 1; 1; 1; 1; 1]%Q)))]
  = Ok (col [64 # 10000; 5929 # 10000; 1; 1; 5929 # 10000; 64 # 10000;
             64 # 10000; 5929 # 10000; 1; 1; 5929 # 10000; 64 # 10000]%Q).
Proof.
  apply (fit_tapers_shared_target_twice (E:=Toy.externals) demo_self None
           [0; 0]%nat 1%nat (col [1; 1; 1; 1; 1; 1]%Q) demo_heap
           (fst shared_prepared)
           (col [1; 2; 3; 4; 5; 6; 1; 2; 3; 4; 5; 6]%Q)).
  - reflexivity.
  - repeat constructor.
  - vm_compute. reflexivity.
Defined.

(** ** The trial container *)

(** *** dicts *)

Section Dicts.

Context {V : Type}.
Implicit Types d : out_struct.dict V.

Lemma dict_get_set d key value :
  out_struct.dict_get (out_struct.dict_set d key value) key = Some value.
Proof.
  induction d as [|[k v] d IH]; simpl.
  - by rewrite bool_decide_eq_true_2.
  - destruct (bool_decide (k = key)) eqn:Hk; simpl.
    + by rewrite Hk.
    + by rewrite Hk.
Qed.

Lemma dict_get_set_ne d key value key' :
  key' <> key ->
  out_struct.dict_get (out_struct.dict_set d key value) key'
  = out_struct.dict_get d key'.
Proof.
  intros Hne. induction d as [|[k v] d IH]; simpl.
  - by rewrite bool_decide_eq_false_2.
  - destruct (bool_decide (k = key)) eqn:Hk; simpl.
    + apply bool_decide_eq_true in Hk as ->.
      by rewrite !bool_decide_eq_false_2.
    + by rewrite IH.
Qed.

Lemma keys_dict_set d key value :
  out_struct.keys (out_struct.dict_set d key value)
  = if decide (key ∈ out_struct.keys d) then out_struct.keys d
    else out_struct.keys d ++ [key].
Proof.
  induction d as [|[k v] d IH].
  - cbn [out_struct.dict_set out_struct.keys map fst].
    by destruct (decide (key ∈ [])) as [?%not_elem_of_nil|].
  - cbn [out_struct.dict_set].
    destruct (bool_decide (k = key)) eqn:Hk.
    + apply bool_decide_eq_true in Hk as ->.
      cbn [out_struct.keys map fst].
      rewrite decide_True; [done|]. apply elem_of_cons. by left.
    + apply bool_decide_eq_false in Hk.
      unfold out_struct.keys in *. cbn [map fst]. rewrite IH.
      destruct (decide (key ∈ map fst d)) as [Hin|Hnin].
      * rewrite decide_True; [done|]. apply elem_of_cons. by right.
      * rewrite decide_False; [done|]. intros [->|?]%elem_of_cons; done.
Qed.

Lemma key_set_dict_set d key value :
  (list_to_set (out_struct.keys (out_struct.dict_set d key value)) : gset string)
  = {[ key ]} ∪ list_to_set (out_struct.keys d).
Proof.
  rewrite keys_dict_set. destruct (decide _) as [Hin|Hnin].
  - apply set_eq. intros x. rewrite elem_of_union, elem_of_singleton.
    rewrite !elem_of_list_to_set. split; [by right|]. by intros [->|?].
  - rewrite list_to_set_app_L. simpl. rewrite (right_id_L ∅ (∪)).
    apply (comm_L (∪)).
Qed.

Lemma dict_get_is_Some d key :
  is_Some (out_struct.dict_get d key) <-> key ∈ out_struct.keys d.
Proof.
  induction d as [|[k v] d IH]; simpl.
  - split; [by intros [? ?] | by intros ?%not_elem_of_nil].
  - destruct (bool_decide (k = key)) eqn:Hk.
    + apply bool_decide_eq_true in Hk as ->.
      split; [intros _; apply elem_of_cons; by left | by eauto].
    + apply bool_decide_eq_false in Hk. rewrite IH.
      rewrite elem_of_cons. split; [by right | by intros [->|?]].
Qed.

(** [dict(pairs)] of pairs that are read off one dict: the keys of the
    pairs, with the values of that dict. *)
Lemma dict_get_fold_set d (pairs : list (string * V)) d0 key :
  (forall p, p ∈ pairs -> out_struct.dict_get d p.1 = Some p.2) ->
  out_struct.dict_get
    (fold_left (fun d p => out_struct.dict_set d (fst p) (snd p)) pairs d0) key
  = if decide (key ∈ map fst pairs) then out_struct.dict_get d key
    else out_struct.dict_get d0 key.
Proof.
  revert d0. induction pairs as [|[k v] pairs IH]; intros d0 Hall.
  - cbn [fold_left map].
    by destruct (decide (key ∈ [])) as [?%not_elem_of_nil|].
  - cbn [fold_left map fst snd]. rewrite IH.
    2:{ intros p Hp. apply Hall. apply elem_of_cons. by right. }
    destruct (decide (key ∈ map fst pairs)) as [Hin|Hnin].
    + rewrite decide_True; [done|]. apply elem_of_cons. by right.
    + destruct (decide (key = k)) as [->|Hne].
      * rewrite decide_True by (apply elem_of_cons; by left).
        rewrite dict_get_set. symmetry.
        apply (Hall (k, v)). apply elem_of_cons. by left.
      * rewrite dict_get_set_ne by done.
        rewrite decide_False; [done|]. by intros [?|?]%elem_of_cons.
Qed.

End Dicts.

Section Container.

Context {V : Type}.
Implicit Types st : out_struct.store V.

Lemma for_each_returned_length {A B} (f : A -> out_struct.outcome B)
    (l : list A) (bs : list B) :
  out_struct.for_each f l = out_struct.Returned bs -> length bs = length l.
Proof.
  revert bs. induction l as [|a l IH]; simpl; intros bs H.
  - by injection H as <-.
  - destruct (f a) as [b|e]; [|done]. simpl in H.
    destruct (out_struct.for_each f l) as [bs'|e]; [|done].
    injection H as <-. simpl. by rewrite (IH bs').
Qed.

Lemma for_each_ext {A B} (f g : A -> out_struct.outcome B) (l : list A) :
  (forall a, a ∈ l -> f a = g a) ->
  out_struct.for_each f l = out_struct.for_each g l.
Proof.
  induction l as [|a l IH]; intros H; simpl; [done|].
  rewrite H by (apply elem_of_cons; by left).
  rewrite IH; [done|]. intros b Hb. apply H. apply elem_of_cons. by right.
Qed.

Lemma for_each_returned {A B} (f : A -> out_struct.outcome B) (g : A -> B)
    (l : list A) :
  (forall a, a ∈ l -> f a = out_struct.Returned (g a)) ->
  out_struct.for_each f l = out_struct.Returned (map g l).
Proof.
  induction l as [|a l IH]; intros H; simpl; [done|].
  rewrite H by (apply elem_of_cons; by left). simpl.
  rewrite IH; [done|]. intros b Hb. apply H. apply elem_of_cons. by right.
Qed.

(** The validation returns exactly on dicts that, under [strict], have the
    keys of the first trial of the container. *)
Lemma validate_returns st (self : out_struct.t) (strict : bool)
    (input_data : list (@out_struct.trial)) (r : nat)
    (rest : list (@out_struct.trial)) :
  out_struct.data st self = out_struct.Dict r :: rest ->
  (exists u,
      out_struct._validate_new_out_data st self input_data strict
      = out_struct.Returned u)
  <-> exists refs,
        input_data = map out_struct.Dict refs
        /\ (strict = true ->
            Forall (fun r' => key_set st r' = key_set st r) refs).
Proof.
  intros Hdata. unfold out_struct._validate_new_out_data, out_struct.fields.
  rewrite Hdata. cbn [out_struct.and_then]. unfold key_set.
  induction input_data as [|x l IH].
  - cbn. split; [|by eauto]. intros _. exists []. split; [done|].
    by constructor.
  - cbn [out_struct.for_each]. destruct x as [r'|].
    + destruct (strict && negb (bool_decide _)) eqn:Hc;
        cbn [out_struct.and_then].
      * split; [by intros [? ?]|]. intros (refs & Heq & Hall).
        destruct refs as [|r2 refs]; [done|]. injection Heq as -> ->.
        apply andb_true_iff in Hc as [-> Hc].
        apply negb_true_iff, bool_decide_eq_false in Hc.
        specialize (Hall eq_refl). by apply Forall_cons in Hall as [? _].
      * split.
        -- intros [u H]. destruct IH as [IH _].
           destruct IH as (refs & -> & Hall).
           { destruct (out_struct.for_each _ l); [by eauto | done]. }
           exists (r' :: refs). split; [done|]. intros ->. constructor; [|auto].
           simpl in Hc. by apply negb_false_iff, bool_decide_eq_true in Hc.
        -- intros (refs & Heq & Hall).
           destruct refs as [|r2 refs]; [done|]. injection Heq as -> ->.
           destruct IH as [_ IH]. destruct IH as [u Hu].
           { exists refs. split; [done|]. intros Hs.
             specialize (Hall Hs). by apply Forall_cons in Hall as [_ ?]. }
           destruct (out_struct.for_each _ (map out_struct.Dict refs));
             [by eauto | done].
    + cbn [out_struct.and_then]. split; [by intros [? ?]|].
      intros (refs & Heq & _). by destruct refs.
Qed.

Lemma init_list_of_dicts st (l : nat) (strict : bool) (r : nat)
    (refs : list nat) :
  out_struct.list_at st l = map out_struct.Dict (r :: refs) ->
  (strict = true -> Forall (fun r' => key_set st r' = key_set st r) refs) ->
  out_struct.__init__ (out_struct.AList l) strict st
  = (st, out_struct.Returned (out_struct.mk l strict)).
Proof.
  intros Hat Hall. unfold out_struct.__init__.
  destruct (validate_returns st (out_struct.mk l strict) strict
              (out_struct.list_at st l) r (map out_struct.Dict refs))
    as [_ [u Hu]]; [done | | by rewrite Hu].
  exists (r :: refs). split; [done|]. intros Hs. constructor; auto.
Qed.

Lemma init_empty_list st (l : nat) (strict : bool) :
  out_struct.list_at st l = [] ->
  out_struct.__init__ (out_struct.AList l) strict st
  = (st, out_struct.Raised (out_struct.Builtin IndexError)).
Proof.
  intros Hat. unfold out_struct.__init__, out_struct._validate_new_out_data,
    out_struct.fields, out_struct.data. simpl. by rewrite Hat.
Qed.

(** X16. What the constructor checks of a list: that it has a first trial,
    that every trial is a dict and, under [strict], that every trial has
    the keys of the first one; no field is required by name. The list is
    kept, not copied; the store is as it was. *)
Theorem init_accepts_uniform_dicts st (l : nat) (strict : bool) :
  fst (out_struct.__init__ (out_struct.AList l) strict st) = st
  /\ ((exists self,
          snd (out_struct.__init__ (out_struct.AList l) strict st)
          = out_struct.Returned self)
      <-> exists r refs,
            out_struct.list_at st l = map out_struct.Dict (r :: refs)
            /\ (strict = true ->
                Forall (fun r' => key_set st r' = key_set st r) refs))
  /\ forall self,
       snd (out_struct.__init__ (out_struct.AList l) strict st)
       = out_struct.Returned self ->
       self = out_struct.mk l strict.
Proof.
  unfold out_struct.__init__. cbn [fst snd]. split; [done|].
  set (self := out_struct.mk l strict).
  assert (out_struct.data st self = out_struct.list_at st l) as Hdata by done.
  split.
  - destruct (out_struct.list_at st l) as [|[r|] rest] eqn:Hl.
    + unfold out_struct._validate_new_out_data, out_struct.fields.
      rewrite Hdata. cbn. split; [by intros [? ?]|].
      by intros (? & ? & ? & _).
    + pose proof (validate_returns st self strict
                    (out_struct.Dict r :: rest) r rest Hdata) as Hv.
      split.
      * intros [o Ho]. destruct Hv as [Hv _].
        destruct Hv as (refs & Heq & Hall).
        { destruct (out_struct._validate_new_out_data _ _ _ _);
            [by eauto | done]. }
        destruct refs as [|r' refs]; [done|]. injection Heq as <- ->.
        exists r, refs. split; [done|]. intros Hs. specialize (Hall Hs).
        by apply Forall_cons in Hall as [_ ?].
      * intros (r' & refs & Heq & Hall). injection Heq as <- ->.
        destruct Hv as [_ Hv]. destruct Hv as [u Hu].
        { exists (r :: refs). split; [done|]. intros Hs. constructor; auto. }
        rewrite Hu. cbn. eauto.
    + unfold out_struct._validate_new_out_data, out_struct.fields.
      rewrite Hdata. cbn. split; [by intros [? ?]|].
      by intros (? & ? & ? & _).
  - intros o Ho.
    destruct (out_struct._validate_new_out_data _ _ _ _); [|done].
    cbn in Ho. by injection Ho as <-.
Qed.

(** *** set_field and get_field *)

Lemma data_store_item st self r key value :
  out_struct.data (out_struct.store_item r key value st) self
  = out_struct.data st self.
Proof. done. Qed.

Lemma dict_at_store_item st r key value r' :
  (r < length (out_struct.dicts st))%nat ->
  out_struct.dict_at (out_struct.store_item r key value st) r'
  = if decide (r' = r)
    then out_struct.dict_set (out_struct.dict_at st r) key value
    else out_struct.dict_at st r'.
Proof.
  intros Hr. unfold out_struct.dict_at, out_struct.store_item. simpl.
  destruct (decide (r' = r)) as [->|Hne].
  - by rewrite list_lookup_insert_eq.
  - by rewrite list_lookup_insert_ne.
Qed.

(** The loop of [set_field] over distinct dicts: the dict of trial [j] gets
    item [j] of the data; nothing else changes. *)
Lemma set_items_run (self : out_struct.t) (fielddata : list V)
    (fieldname : string) (refs : list nat) (n : nat) :
  NoDup refs ->
  length fielddata = length refs ->
  forall (i : nat) st,
    (i + n = length refs)%nat ->
    out_struct.data st self = map out_struct.Dict refs ->
    Forall (fun r => (r < length (out_struct.dicts st))%nat) refs ->
    exists st',
      out_struct.set_items self fielddata fieldname (seq i n) st
      = (st', out_struct.Returned tt)
      /\ out_struct.lists st' = out_struct.lists st
      /\ length (out_struct.dicts st') = length (out_struct.dicts st)
      /\ (forall j r v,
            refs !! j = Some r -> fielddata !! j = Some v -> (i <= j)%nat ->
            out_struct.dict_at st' r
            = out_struct.dict_set (out_struct.dict_at st r) fieldname v)
      /\ (forall r,
            r ∉ drop i refs ->
            out_struct.dict_at st' r = out_struct.dict_at st r).
Proof.
  intros Hnd Hlen. induction n as [|n IH]; intros i st Hi Hdata Hvalid.
  - exists st. simpl. repeat split; try done.
    intros j r v Hr _ Hj. apply lookup_lt_Some in Hr. lia.
  - cbn [seq out_struct.set_items]. rewrite Hdata, list_lookup_fmap.
    destruct (lookup_lt_is_Some_2 refs i) as [r Hr]; [lia|].
    destruct (lookup_lt_is_Some_2 fielddata i) as [v Hv]; [lia|].
    rewrite Hr, Hv. simpl.
    assert (r < length (out_struct.dicts st))%nat as Hrv.
    { rewrite Forall_forall in Hvalid. apply Hvalid.
      by eapply list_elem_of_lookup_2. }
    destruct (IH (S i) (out_struct.store_item r fieldname v st))
      as (st' & Hrun & Hlists & Hdl & Hset & Hframe); [lia | done | |].
    { simpl. by rewrite length_insert. }
    exists st'. split; [exact Hrun|]. split; [done|].
    split; [by rewrite Hdl; simpl; rewrite length_insert|]. split.
    + intros j r' v' Hr' Hv' Hj.
      destruct (decide (j = i)) as [->|Hne].
      * rewrite Hr in Hr'. rewrite Hv in Hv'.
        injection Hr' as <-. injection Hv' as <-.
        rewrite Hframe.
        -- by rewrite dict_at_store_item, decide_True.
        -- intros Hin. apply list_elem_of_lookup in Hin as [k Hk].
           rewrite lookup_drop in Hk.
           pose proof (NoDup_lookup _ _ _ _ Hnd Hr Hk). lia.
      * rewrite (Hset j r' v') by (done || lia).
        rewrite dict_at_store_item by done.
        rewrite decide_False; [done|]. intros ->.
        pose proof (NoDup_lookup _ _ _ _ Hnd Hr Hr'). lia.
    + intros r' Hnin. rewrite Hframe.
      * rewrite dict_at_store_item by done.
        rewrite decide_False; [done|]. intros ->. apply Hnin.
        apply list_elem_of_lookup. exists 0%nat.
        rewrite lookup_drop. by rewrite Nat.add_0_r.
      * intros Hin. apply Hnin.
        apply list_elem_of_lookup in Hin as [k Hk].
        rewrite lookup_drop in Hk.
        apply list_elem_of_lookup. exists (S k).
        rewrite lookup_drop. by rewrite <- Hk, Nat.add_succ_r.
Qed.

(** X17. On a container whose trials are distinct dicts, [set_field] with a
    list of the length of the container returns, and [get_field] of the
    name then returns that very list; every other field reads as before,
    and the list of trials is the same. With a list of another length
    [set_field] raises and nothing is written. *)
Theorem set_field_get_field st (self : out_struct.t) (refs : list nat)
    (fielddata : list V) (fieldname : string) :
  trials_at st self refs ->
  NoDup refs ->
  (length fielddata = length refs ->
   exists st',
     out_struct.set_field self (Some fielddata) fieldname st
     = (st', out_struct.Returned tt)
     /\ out_struct.get_field st' self fieldname = out_struct.Returned fielddata
     /\ (forall other,
           other <> fieldname ->
           out_struct.get_field st' self other
           = out_struct.get_field st self other)
     /\ out_struct.data st' self = out_struct.data st self)
  /\ (length fielddata <> length refs ->
      out_struct.set_field self (Some fielddata) fieldname st
      = (st, out_struct.Raised
               (out_struct.Exception out_struct.msg_field_length))).
Proof.
  intros (Hdata & Hvalid & Hl) Hnd.
  unfold out_struct.set_field, out_struct.__len__.
  rewrite Hdata, length_map. split.
  - intros Hlen. rewrite Hlen, Nat.eqb_refl. simpl.
    destruct (set_items_run self fielddata fieldname refs (length refs)
                Hnd Hlen 0%nat st)
      as (st' & Hrun & Hlists & _ & Hset & _); [done..|].
    exists st'. split; [exact Hrun|].
    assert (out_struct.data st' self = map out_struct.Dict refs) as Hdata'.
    { unfold out_struct.data, out_struct.list_at in *. by rewrite Hlists. }
    split; [|split; [|by rewrite Hdata']].
    + unfold out_struct.get_field. rewrite Hdata'.
      clear Hrun. revert fielddata Hlen Hset.
      clear Hdata Hdata' Hvalid. induction refs as [|r refs IH];
        intros fielddata Hlen Hset.
      * by destruct fielddata.
      * destruct fielddata as [|v fielddata]; [done|].
        simpl. rewrite (Hset 0%nat r v) by (done || lia).
        rewrite dict_get_set. simpl.
        apply NoDup_cons in Hnd as [Hnin Hnd].
        rewrite (IH Hnd fielddata); [done | simpl in Hlen; lia |].
        intros j r' v' Hr' Hv' _. apply (Hset (S j) r' v'); [done | done | lia].
    + intros other Hne. unfold out_struct.get_field. rewrite Hdata', Hdata.
      apply for_each_ext. intros x Hx.
      apply list_elem_of_fmap in Hx as (r & -> & Hr).
      apply list_elem_of_lookup in Hr as [j Hj].
      destruct (lookup_lt_is_Some_2 fielddata j) as [v Hv].
      { rewrite Hlen. by eapply lookup_lt_Some. }
      rewrite (Hset j r v) by (done || lia).
      by rewrite dict_get_set_ne.
  - intros Hlen. apply Nat.eqb_neq in Hlen. by rewrite Hlen.
Qed.

(** X18. In a container whose trials are dicts with the keys of the first
    one, [get_field] returns for the names in [fields], with one value per
    trial, and raises [KeyError] for every other name. *)
Theorem get_field_returns_for_fields st (self : out_struct.t)
    (r : nat) (refs : list nat) (fieldname : string) :
  trials_at st self (r :: refs) ->
  uniform st (r :: refs) ->
  out_struct.fields st self
  = out_struct.Returned (out_struct.keys (out_struct.dict_at st r))
  /\ (fieldname ∈ out_struct.keys (out_struct.dict_at st r) ->
      exists values,
        out_struct.get_field st self fieldname = out_struct.Returned values
        /\ length values = out_struct.__len__ st self)
  /\ (fieldname ∉ out_struct.keys (out_struct.dict_at st r) ->
      out_struct.get_field st self fieldname
      = out_struct.Raised
          (out_struct.Builtin
             (KeyError (out_struct.msg_invalid_fieldname fieldname)))).
Proof.
  intros (Hdata & _ & _) Huni.
  unfold out_struct.fields, out_struct.get_field, out_struct.__len__.
  rewrite Hdata. split; [done|]. split.
  - intros Hin.
    assert (forall r', r' ∈ r :: refs ->
              is_Some (out_struct.dict_get (out_struct.dict_at st r') fieldname))
      as Hall.
    { intros r' Hr'. apply dict_get_is_Some.
      assert (fieldname ∈ key_set st r) as Hk
        by (by apply elem_of_list_to_set).
      rewrite <- (Huni r r') in Hk; [|apply elem_of_cons; by left | done].
      by apply elem_of_list_to_set in Hk. }
    clear Hdata Huni Hin. revert Hall.
    generalize (r :: refs). intros l Hall.
    induction l as [|r' l IH].
    + exists []. done.
    + destruct (Hall r') as [v Hv]; [apply elem_of_cons; by left|].
      destruct IH as (values & Hvals & Hlen).
      { intros r2 Hr2. apply Hall. apply elem_of_cons. by right. }
      exists (v :: values). cbn [map out_struct.for_each]. rewrite Hv.
      cbn [out_struct.and_then]. rewrite Hvals. cbn.
      split; [done|]. by rewrite Hlen.
  - intros Hnin. cbn [map out_struct.for_each].
    destruct (out_struct.dict_get (out_struct.dict_at st r) fieldname)
      as [v|] eqn:Hv; [|done].
    exfalso. apply Hnin. apply dict_get_is_Some. eauto.
Qed.

(** X19. [set_field] on distinct dict trials keeps the order of the
    fields: a field that exists keeps its place, a new one comes last; and
    trials that had the same keys have the same keys afterwards. *)
Theorem set_field_keeps_field_order st st' (self : out_struct.t)
    (r : nat) (refs : list nat) (fielddata : list V) (fieldname : string) :
  trials_at st self (r :: refs) ->
  NoDup (r :: refs) ->
  out_struct.set_field self (Some fielddata) fieldname st
  = (st', out_struct.Returned tt) ->
  out_struct.fields st' self
  = out_struct.Returned
      (if decide (fieldname ∈ out_struct.keys (out_struct.dict_at st r))
       then out_struct.keys (out_struct.dict_at st r)
       else out_struct.keys (out_struct.dict_at st r) ++ [fieldname])
  /\ trials_at st' self (r :: refs)
  /\ (uniform st (r :: refs) -> uniform st' (r :: refs)).
Proof.
  intros Htr Hnd Hrun. pose proof Htr as (Hdata & Hvalid & Hl).
  unfold out_struct.set_field, out_struct.__len__ in Hrun.
  rewrite Hdata, length_map in Hrun.
  destruct (length fielddata =? length (r :: refs))%nat eqn:Hlen; [|done].
  apply Nat.eqb_eq in Hlen. simpl negb in Hrun. cbv iota in Hrun.
  destruct (set_items_run self fielddata fieldname (r :: refs)
              (length (r :: refs)) Hnd Hlen 0%nat st)
    as (st2 & Hrun2 & Hlists & Hdl & Hset & _); [done..|].
  rewrite Hrun2 in Hrun. injection Hrun as <-.
  assert (out_struct.data st2 self = map out_struct.Dict (r :: refs))
    as Hdata'.
  { unfold out_struct.data, out_struct.list_at in *. by rewrite Hlists. }
  assert (forall r', r' ∈ r :: refs ->
            key_set st2 r' = {[ fieldname ]} ∪ key_set st r') as Hkeys.
  { intros r' Hr'. apply list_elem_of_lookup in Hr' as [j Hj].
    destruct (lookup_lt_is_Some_2 fielddata j) as [v Hv].
    { rewrite Hlen. by eapply lookup_lt_Some. }
    unfold key_set. rewrite (Hset j r' v) by (done || lia).
    apply key_set_dict_set. }
  split; [|split].
  - unfold out_struct.fields. rewrite Hdata'. cbn [map].
    destruct fielddata as [|v fielddata]; [done|].
    rewrite (Hset 0%nat r v) by (done || lia).
    by rewrite keys_dict_set.
  - split; [done|]. split; [by rewrite Hdl | by rewrite Hlists].
  - intros Huni r1 r2 H1 H2. rewrite !Hkeys by done.
    by rewrite (Huni r1 r2).
Qed.

(** *** append and the assignment of a trial *)

Lemma uniform_same_keys st st' (refs : list nat) :
  (forall r, r ∈ refs -> key_set st' r = key_set st r) ->
  uniform st refs -> uniform st' refs.
Proof.
  intros Hsame Huni r r' Hr Hr'. rewrite !Hsame by done. by apply Huni.
Qed.

(** X20. [append] checks the new trial against the first trial of the
    container: under the strictness in force, a dict with other keys is
    refused with [ValueError] and nothing changes; a dict that passes is
    added after the last trial, by reference, and trials that had the same
    keys still have. *)
Theorem append_adds_last_trial st st' (self : out_struct.t)
    (r : nat) (refs : list nat) (r' : nat) (strict : option bool)
    (out : out_struct.outcome unit) :
  trials_at st self (r :: refs) ->
  (r' < length (out_struct.dicts st))%nat ->
  out_struct.append self (out_struct.Dict r') strict st = (st', out) ->
  (out = out_struct.Returned tt
   /\ trials_at st' self ((r :: refs) ++ [r'])
   /\ out_struct.dicts st' = out_struct.dicts st
   /\ (default (out_struct._strict self) strict = true ->
       key_set st r' = key_set st r
       /\ (uniform st (r :: refs) -> uniform st' ((r :: refs) ++ [r']))))
  \/ (out = out_struct.Raised
              (out_struct.Builtin (ValueError out_struct.msg_fields_differ))
      /\ st' = st
      /\ default (out_struct._strict self) strict = true
      /\ key_set st r' <> key_set st r).
Proof.
  intros (Hdata & Hvalid & Hl) Hr' H. unfold out_struct.append in H.
  unfold out_struct._validate_new_out_data, out_struct.fields in H.
  rewrite Hdata in H. cbn in H. fold (key_set st r') in H.
  fold (key_set st r) in H.
  destruct (default (out_struct._strict self) strict) eqn:Hs; simpl in H.
  - destruct (bool_decide (key_set st r' = key_set st r)) eqn:Hk; simpl in H.
    + apply bool_decide_eq_true in Hk. injection H as <- <-. left.
      split; [done|]. split; [|split; [done|]].
      * split; [|split; [|by simpl; rewrite length_insert]].
        -- unfold out_struct.data, out_struct.list_append,
             out_struct.list_at in *. simpl.
           rewrite list_lookup_insert_eq by done. simpl.
           destruct (out_struct.lists st !! out_struct._data self) eqn:Hll;
             simpl in *; [|done].
           rewrite Hdata. by rewrite map_app.
        -- apply Forall_app. split; [done|]. by constructor.
      * intros _. split; [done|]. intros Huni r1 r2 H1 H2.
        change (key_set (out_struct.list_append (out_struct._data self)
                           (out_struct.Dict r') st) r2) with (key_set st r2).
        change (key_set (out_struct.list_append (out_struct._data self)
                           (out_struct.Dict r') st) r1) with (key_set st r1).
        assert (forall x, x ∈ (r :: refs) ++ [r'] ->
                  key_set st x = key_set st r) as Hall.
        { intros x [Hx | Hx]%elem_of_app.
          - apply (Huni r x); [apply elem_of_cons; by left | done].
          - apply list_elem_of_singleton in Hx as ->. done. }
        by rewrite (Hall r1), (Hall r2).
    + apply bool_decide_eq_false in Hk. injection H as <- <-. right. done.
  - injection H as <- <-. left. split; [done|]. split; [|done].
    split; [|split; [|by simpl; rewrite length_insert]].
    + unfold out_struct.data, out_struct.list_append,
        out_struct.list_at in *. simpl.
      rewrite list_lookup_insert_eq by done. simpl.
      destruct (out_struct.lists st !! out_struct._data self) eqn:Hll;
        simpl in *; [|done].
      rewrite Hdata. by rewrite map_app.
    + apply Forall_app. split; [done|]. by constructor.
Qed.

(** X21. The assignment of a trial at an integer index: behind the end it
    raises [IndexError], at the end it is [append], and below the end it
    replaces the trial that Python's indexing names (a negative index
    counts from the end), whatever the new object is and whatever the
    strictness: nothing is validated there. *)
Theorem setitem_trial st (self : out_struct.t) (refs : list nat)
    (i : Z) (x : @out_struct.trial) :
  trials_at st self refs ->
  let n := Z.of_nat (length refs) in
  ((n < i \/ i < - n)%Z ->
   out_struct.__setitem__ self (out_struct.SetTrial i x) st
   = (st, out_struct.Raised (out_struct.Builtin IndexError)))
  /\ (i = n ->
      out_struct.__setitem__ self (out_struct.SetTrial i x) st
      = out_struct.append self x None st)
  /\ ((- n <= i < n)%Z ->
      exists st',
        out_struct.__setitem__ self (out_struct.SetTrial i x) st
        = (st', out_struct.Returned tt)
        /\ out_struct.data st' self
           = <[Z.to_nat (i mod n) := x]> (out_struct.data st self)
        /\ out_struct.dicts st' = out_struct.dicts st).
Proof.
  intros (Hdata & Hvalid & Hl) n.
  unfold out_struct.__setitem__, out_struct.__len__.
  rewrite Hdata, length_map. fold n. split; [|split].
  - intros [Hi | Hi].
    + destruct (Z.ltb_spec n i); [done | lia].
    + destruct (Z.ltb_spec n i); [done|].
      destruct (Z.eqb_spec i n); [lia|].
      unfold out_struct.py_position. fold n.
      destruct (Z.leb_spec (- n) i); [lia | done].
  - intros ->. destruct (Z.ltb_spec n n); [lia|]. by rewrite Z.eqb_refl.
  - intros Hi. destruct (Z.ltb_spec n i); [lia|].
    destruct (Z.eqb_spec i n); [lia|].
    unfold out_struct.py_position. fold n.
    destruct (Z.leb_spec (- n) i); [|lia].
    destruct (Z.ltb_spec i n); [|lia]. simpl.
    eexists. split; [reflexivity|]. split; [|done].
    unfold out_struct.data at 1, out_struct.list_at. simpl.
    rewrite list_lookup_insert_eq by done. simpl.
    f_equal. f_equal.
    destruct (Z.ltb_spec i 0).
    + rewrite <- (Z.mod_add i 1 n) by lia. rewrite Z.mod_small; lia.
    + rewrite Z.mod_small; lia.
Qed.

(** *** Slices *)

Lemma py_slice_map {A B} (f : A -> B) (l : list A) (start stop : option Z) :
  out_struct.py_slice (map f l) start stop
  = map f (out_struct.py_slice l start stop).
Proof.
  unfold out_struct.py_slice. rewrite length_map.
  by rewrite <- fmap_drop, <- fmap_take.
Qed.

Lemma py_slice_sublist {A} (l : list A) (start stop : option Z) :
  out_struct.py_slice l start stop `sublist_of` l.
Proof.
  unfold out_struct.py_slice.
  etrans; [apply sublist_take | apply sublist_drop].
Qed.

(** X22. A slice of a container, where the trials are dicts that pass the
    validation anew, is a new container on a new list with the strictness
    of the first: its trials are the very dicts of the slice, not copies.
    An empty slice raises [IndexError]. *)
Theorem getitem_slice st (self : out_struct.t) (refs : list nat)
    (start stop : option Z) :
  trials_at st self refs ->
  (out_struct._strict self = true -> uniform st refs) ->
  (out_struct.py_slice refs start stop = [] ->
   snd (out_struct.__getitem__ self (out_struct.Slice start stop) st)
   = out_struct.Raised (out_struct.Builtin IndexError))
  /\ (out_struct.py_slice refs start stop <> [] ->
      exists st' sub,
        out_struct.__getitem__ self (out_struct.Slice start stop) st
        = (st', out_struct.Returned (out_struct.AContainer sub))
        /\ trials_at st' sub (out_struct.py_slice refs start stop)
        /\ out_struct._strict sub = out_struct._strict self
        /\ out_struct._data sub <> out_struct._data self
        /\ out_struct.dicts st' = out_struct.dicts st
        /\ out_struct.data st' self = out_struct.data st self).
Proof.
  intros (Hdata & Hvalid & Hl) Huni.
  unfold out_struct.__getitem__, out_struct.new_list.
  rewrite Hdata, py_slice_map.
  set (part := out_struct.py_slice refs start stop).
  set (st1 := out_struct.mk_store (out_struct.dicts st)
                (out_struct.lists st
                 ++ [map out_struct.Dict part])).
  set (l := length (out_struct.lists st)).
  assert (out_struct.list_at st1 l = map out_struct.Dict part) as Hat.
  { unfold out_struct.list_at, st1, l. simpl.
    by rewrite lookup_app_r, Nat.sub_diag by lia. }
  split.
  - intros Hempty. rewrite (init_empty_list st1 l); [done|].
    by rewrite Hat, Hempty.
  - intros Hne. destruct part as [|r part'] eqn:Hpart; [done|].
    assert (forall x, x ∈ r :: part' -> x ∈ refs) as Hin.
    { intros x Hx. eapply elem_of_sublist; [exact Hx|].
      rewrite <- Hpart. apply py_slice_sublist. }
    rewrite (init_list_of_dicts st1 l _ r part' Hat).
    2:{ intros Hs. apply Forall_forall. intros r' Hr'.
        assert (key_set st1 r' = key_set st r') as -> by done.
        assert (key_set st1 r = key_set st r) as -> by done.
        apply (Huni Hs); apply Hin; [left | by right]. }
    exists st1, (out_struct.mk l (out_struct._strict self)).
    split; [done|]. split; [|split; [done|]].
    + split; [exact Hat|]. split.
      * apply Forall_forall. intros x Hx. rewrite Forall_forall in Hvalid.
        apply Hvalid. by apply Hin.
      * simpl. rewrite length_app. simpl. unfold l. lia.
    + split; [simpl; unfold l; lia|]. split; [done|].
      unfold out_struct.data, out_struct.list_at, st1. simpl.
      by rewrite lookup_app_l.
Qed.

(** X23. A field that is set through a slice is written into the trials
    of the container the slice was taken from: the dicts are shared. The
    list of the slice is its own, so that the container keeps its
    trials. *)
Theorem set_field_through_slice st st1 st2 (self sub : out_struct.t)
    (refs : list nat) (start stop : option Z) (fielddata : list V)
    (fieldname : string) :
  trials_at st self refs ->
  NoDup refs ->
  out_struct.__getitem__ self (out_struct.Slice start stop) st
  = (st1, out_struct.Returned (out_struct.AContainer sub)) ->
  out_struct.set_field sub (Some fielddata) fieldname st1
  = (st2, out_struct.Returned tt) ->
  out_struct.data st2 self = out_struct.data st self
  /\ forall j r v,
       out_struct.py_slice refs start stop !! j = Some r ->
       fielddata !! j = Some v ->
       r ∈ refs
       /\ out_struct.dict_get (out_struct.dict_at st2 r) fieldname = Some v.
Proof.
  intros (Hdata & Hvalid & Hl) Hnd Hget Hset.
  set (part := out_struct.py_slice refs start stop).
  assert (out_struct.data st1 sub = map out_struct.Dict part
          /\ out_struct.dicts st1 = out_struct.dicts st
          /\ out_struct.data st1 self = out_struct.data st self
          /\ out_struct._data sub <> out_struct._data self) as (Hsub & Hd1 & Hs1 & Hne).
  { unfold out_struct.__getitem__, out_struct.new_list in Hget.
    rewrite Hdata, py_slice_map in Hget. fold part in Hget.
    unfold out_struct.__init__ in Hget.
    destruct (out_struct._validate_new_out_data _ _ _ _); [|done].
    simpl in Hget. injection Hget as <- <-.
    unfold out_struct.data, out_struct.list_at. simpl.
    rewrite lookup_app_r, Nat.sub_diag by lia. simpl.
    rewrite lookup_app_l by done. split; [done|]. split; [done|].
    split; [done | lia]. }
  assert (part `sublist_of` refs) as Hsl by apply py_slice_sublist.
  unfold out_struct.set_field, out_struct.__len__ in Hset.
  rewrite Hsub, length_map in Hset.
  destruct (length fielddata =? length part)%nat eqn:Hlen; [|done].
  apply Nat.eqb_eq in Hlen. simpl negb in Hset. cbv iota in Hset.
  destruct (set_items_run sub fielddata fieldname part (length part))
    with (i := 0%nat) (st := st1)
    as (st' & Hrun & Hlists & _ & Hwritten & _); try done.
  { eapply sublist_NoDup; eauto. }
  { rewrite Hd1. apply Forall_forall. intros r Hr.
    rewrite Forall_forall in Hvalid. apply Hvalid.
    by eapply elem_of_sublist. }
  rewrite Hrun in Hset. injection Hset as <-. split.
  - unfold out_struct.data, out_struct.list_at in *. by rewrite Hlists.
  - intros j r v Hr Hv.
    split; [eapply elem_of_sublist; [|exact Hsl];
            by eapply list_elem_of_lookup_2|].
    rewrite (Hwritten j r v) by (done || lia). apply dict_get_set.
Qed.

(** *** The selection of fields *)

Lemma selected_items_returned st (r : nat) (fieldnames : list string) :
  (forall name, name ∈ fieldnames ->
     is_Some (out_struct.dict_get (out_struct.dict_at st r) name)) ->
  exists d,
    out_struct.selected_items st (out_struct.Dict r) fieldnames
    = out_struct.Returned d
    /\ forall name,
         out_struct.dict_get d name
         = if decide (name ∈ fieldnames)
           then out_struct.dict_get (out_struct.dict_at st r) name
           else None.
Proof.
  intros Hall. unfold out_struct.selected_items.
  assert (exists pairs,
            out_struct.for_each
              (fun field =>
                 match out_struct.dict_get (out_struct.dict_at st r) field with
                 | Some v => out_struct.Returned (field, v)
                 | None => out_struct.Raised
                             (out_struct.Builtin (KeyError field))
                 end) fieldnames
            = out_struct.Returned pairs
            /\ map fst pairs = fieldnames
            /\ forall p, p ∈ pairs ->
                 out_struct.dict_get (out_struct.dict_at st r) p.1 = Some p.2)
    as (pairs & Hrun & Hfst & Hval).
  { induction fieldnames as [|name l IH].
    - exists []. split; [done|]. split; [done|]. by intros p ?%not_elem_of_nil.
    - destruct (Hall name) as [v Hv]; [apply elem_of_cons; by left|].
      destruct IH as (pairs & Hrun & Hfst & Hval).
      { intros n Hn. apply Hall. apply elem_of_cons. by right. }
      exists ((name, v) :: pairs). cbn [out_struct.for_each].
      rewrite Hv, Hrun. split; [done|]. split; [by simpl; rewrite Hfst|].
      intros p [->|Hp]%elem_of_cons; [done | by apply Hval]. }
  rewrite Hrun. cbn [out_struct.and_then]. eexists. split; [reflexivity|].
  intros name. unfold out_struct.dict_of.
  rewrite (dict_get_fold_set (out_struct.dict_at st r)) by done.
  by rewrite Hfst.
Qed.

Lemma selected_items_missing st (r : nat) (present : list string)
    (name : string) (others : list string) :
  (forall n, n ∈ present ->
     is_Some (out_struct.dict_get (out_struct.dict_at st r) n)) ->
  out_struct.dict_get (out_struct.dict_at st r) name = None ->
  out_struct.selected_items st (out_struct.Dict r)
    (present ++ name :: others)
  = out_struct.Raised (out_struct.Builtin (KeyError name)).
Proof.
  intros Hall Hnone. unfold out_struct.selected_items.
  induction present as [|n l IH].
  - cbn [app out_struct.for_each]. by rewrite Hnone.
  - destruct (Hall n) as [v Hv]; [apply elem_of_cons; by left|].
    cbn [app out_struct.for_each]. rewrite Hv. cbn [out_struct.and_then].
    assert (forall n', n' ∈ l ->
              is_Some (out_struct.dict_get (out_struct.dict_at st r) n'))
      as Hl by (intros n' Hn'; apply Hall; apply elem_of_cons; by right).
    specialize (IH Hl).
    destruct (out_struct.for_each _ (l ++ name :: others)) as [pairs|e];
      [done|]. exact IH.
Qed.

Lemma dict_at_new_dicts st (new : list (out_struct.dict V)) (r : nat) :
  (r < length (out_struct.dicts st))%nat ->
  out_struct.dict_at
    (out_struct.mk_store (out_struct.dicts st ++ new) (out_struct.lists st)) r
  = out_struct.dict_at st r.
Proof.
  intros Hr. unfold out_struct.dict_at. simpl. by rewrite lookup_app_l.
Qed.

(** The comprehension over the trials: one new dict per trial, after the
    dicts that exist. *)
Lemma select_fields_run (fieldnames : list string) (refs : list nat) :
  forall st,
    Forall (fun r => (r < length (out_struct.dicts st))%nat) refs ->
    (forall r name, r ∈ refs -> name ∈ fieldnames ->
       is_Some (out_struct.dict_get (out_struct.dict_at st r) name)) ->
    exists new,
      out_struct.select_fields fieldnames (map out_struct.Dict refs) st
      = (out_struct.mk_store (out_struct.dicts st ++ new) (out_struct.lists st),
         out_struct.Returned
           (map out_struct.Dict
              (seq (length (out_struct.dicts st)) (length refs))))
      /\ length new = length refs
      /\ forall j r d,
           refs !! j = Some r -> new !! j = Some d ->
           forall name,
             out_struct.dict_get d name
             = if decide (name ∈ fieldnames)
               then out_struct.dict_get (out_struct.dict_at st r) name
               else None.
Proof.
  induction refs as [|r refs IH]; intros st Hvalid Hall.
  - exists []. cbn. rewrite app_nil_r. split; [by destruct st|].
    split; [done|]. by intros j r d ?.
  - cbn [map out_struct.select_fields].
    destruct (selected_items_returned st r fieldnames) as (d & Hd & Hget).
    { intros name Hn. apply Hall; [apply elem_of_cons; by left | done]. }
    rewrite Hd. unfold out_struct.new_dict.
    set (st1 := out_struct.mk_store (out_struct.dicts st ++ [d])
                  (out_struct.lists st)).
    apply Forall_cons in Hvalid as [Hr Hvalid].
    destruct (IH st1) as (new & Hrun & Hlen & Hnew).
    { eapply Forall_impl; [exact Hvalid|]. intros x Hx. simpl in *.
      rewrite length_app. simpl. lia. }
    { intros r' name Hr' Hn. unfold st1. rewrite dict_at_new_dicts.
      - apply Hall; [apply elem_of_cons; by right | done].
      - rewrite Forall_forall in Hvalid. by apply Hvalid. }
    rewrite Hrun. exists (d :: new). cbn [out_struct.and_then].
    split; [|split; [by simpl; rewrite Hlen|]].
    + unfold st1. simpl. rewrite <- app_assoc. simpl.
      rewrite length_app. simpl. by rewrite Nat.add_1_r.
    + intros j r' d' Hr' Hd' name. destruct j as [|j].
      * injection Hr' as <-. injection Hd' as <-. apply Hget.
      * simpl in Hr', Hd'. rewrite (Hnew j r' d' Hr' Hd' name).
        unfold st1. rewrite dict_at_new_dicts; [done|].
        rewrite Forall_forall in Hvalid. apply Hvalid.
        by eapply list_elem_of_lookup_2.
Qed.

(** X24. The selection of fields by a list of names that every trial has
    gives a container that is not strict, on new dicts: one per trial, with
    the selected fields and their values and no other field. The trials of
    the container itself are not touched. A name that the first trial has
    not raises the [KeyError] of the dict, with the name alone. *)
Theorem getitem_field_names st (self : out_struct.t) (r : nat)
    (refs : list nat) :
  trials_at st self (r :: refs) ->
  (forall fieldnames,
     fieldnames <> [] ->
     (forall r' name, r' ∈ r :: refs -> name ∈ fieldnames ->
        is_Some (out_struct.dict_get (out_struct.dict_at st r') name)) ->
     exists st' sub,
       out_struct.__getitem__ self (out_struct.Strs fieldnames) st
       = (st', out_struct.Returned (out_struct.AContainer sub))
       /\ out_struct._strict sub = false
       /\ trials_at st' sub
            (seq (length (out_struct.dicts st)) (length (r :: refs)))
       /\ (forall j old name,
             (r :: refs) !! j = Some old ->
             out_struct.dict_get
               (out_struct.dict_at st' (length (out_struct.dicts st) + j)) name
             = if decide (name ∈ fieldnames)
               then out_struct.dict_get (out_struct.dict_at st old) name
               else None)
       /\ (forall old, (old < length (out_struct.dicts st))%nat ->
             out_struct.dict_at st' old = out_struct.dict_at st old)
       /\ out_struct.data st' self = out_struct.data st self)
  /\ (forall present name others,
        (forall n, n ∈ present ->
           is_Some (out_struct.dict_get (out_struct.dict_at st r) n)) ->
        out_struct.dict_get (out_struct.dict_at st r) name = None ->
        snd (out_struct.__getitem__ self
               (out_struct.Strs (present ++ name :: others)) st)
        = out_struct.Raised (out_struct.Builtin (KeyError name))).
Proof.
  intros (Hdata & Hvalid & Hl). split.
  - intros fieldnames Hne Hall.
    destruct (select_fields_run fieldnames (r :: refs) st Hvalid Hall)
      as (new & Hrun & Hlen & Hnew).
    unfold out_struct.__getitem__.
    destruct fieldnames as [|f fieldnames]; [done|].
    rewrite Hdata, Hrun. unfold out_struct.new_list.
    cbn [out_struct.lists out_struct.dicts].
    set (news := seq _ _) in *.
    set (st1 := out_struct.mk_store (out_struct.dicts st ++ new)
                  (out_struct.lists st ++ [map out_struct.Dict news])).
    assert (out_struct.list_at st1 (length (out_struct.lists st))
            = map out_struct.Dict news) as Hat.
    { unfold out_struct.list_at, st1. simpl.
      by rewrite lookup_app_r, Nat.sub_diag by lia. }
    unfold news in Hat. cbn [length seq] in Hat.
    rewrite (init_list_of_dicts st1 _ false _ _ Hat) by done.
    exists st1, (out_struct.mk (length (out_struct.lists st)) false).
    split; [done|]. split; [done|]. split; [|split; [|split]].
    + split; [exact Hat|]. split.
      * apply Forall_forall. intros x Hx. apply elem_of_seq in Hx.
        unfold st1. simpl. rewrite length_app. lia.
      * unfold st1. simpl. rewrite length_app. simpl. lia.
    + intros j old name Hold.
      destruct (lookup_lt_is_Some_2 new j) as [d Hd].
      { rewrite Hlen. by eapply lookup_lt_Some. }
      rewrite <- (Hnew j old d Hold Hd name).
      unfold out_struct.dict_at, st1. cbn [out_struct.dicts].
      rewrite lookup_app_r by apply Nat.le_add_r.
      rewrite (Nat.add_comm _ j), Nat.add_sub.
      unfold out_struct.dict in *. by rewrite Hd.
    + intros old Hold. unfold out_struct.dict_at, st1. simpl.
      by rewrite lookup_app_l.
    + unfold out_struct.data, out_struct.list_at, st1. simpl.
      by rewrite lookup_app_l.
  - intros present name others Hpresent Hnone.
    unfold out_struct.__getitem__.
    destruct (present ++ name :: others) as [|f l] eqn:Hnames.
    { by destruct present. }
    rewrite <- Hnames, Hdata. cbn [map out_struct.select_fields].
    by rewrite selected_items_missing.
Qed.

(** *** Iteration *)

Lemma py_index_nat {A} (l : list A) (k : nat) :
  out_struct.py_index l (Z.of_nat k) = l !! k.
Proof.
  unfold out_struct.py_index, out_struct.py_position.
  destruct (Z.leb_spec (- Z.of_nat (length l)) (Z.of_nat k)); [|lia].
  destruct (Z.ltb_spec (Z.of_nat k) (Z.of_nat (length l))); simpl.
  - destruct (Z.ltb_spec (Z.of_nat k) 0); [lia|]. by rewrite Nat2Z.id.
  - symmetry. apply lookup_ge_None. lia.
Qed.

(** X25. The iteration over a container gives its trials, each one once
    and in their order, and raises nothing, whatever the trials are. *)
Theorem iter_gives_the_trials st (self : out_struct.t) :
  out_struct.__iter__ st self = out_struct.Returned (out_struct.data st self)
  /\ forall k : nat,
       (k < out_struct.__len__ st self)%nat ->
       exists x,
         out_struct.data st self !! k = Some x
         /\ out_struct.__getitem__ self (out_struct.Int (Z.of_nat k)) st
            = (st, out_struct.Returned (out_struct.ATrial x)).
Proof.
  unfold out_struct.__iter__, out_struct.__len__, out_struct.__getitem__.
  generalize (out_struct.data st self). intros l. split.
  - assert (forall n i, (i + n = length l)%nat ->
              out_struct.for_each
                (fun k : nat =>
                   match out_struct.py_index l (Z.of_nat k) with
                   | Some x => out_struct.Returned x
                   | None => out_struct.Raised (out_struct.Builtin IndexError)
                   end) (seq i n)
              = out_struct.Returned (drop i l)) as Hrun.
    { induction n as [|n IH]; intros i Hi.
      - simpl. by rewrite drop_ge by lia.
      - cbn [seq out_struct.for_each]. rewrite py_index_nat.
        destruct (lookup_lt_is_Some_2 l i) as [x Hx]; [lia|].
        rewrite Hx. cbn [out_struct.and_then]. rewrite IH by lia.
        cbn. by rewrite (drop_S l x i Hx). }
    by rewrite (Hrun (length l) 0%nat).
  - intros k Hk. destruct (lookup_lt_is_Some_2 l k) as [x Hx]; [lia|].
    exists x. split; [done|]. by rewrite py_index_nat, Hx.
Qed.

(** *** join_fields *)

Lemma zip_star_lookup {A} (ls : list (list A)) (i : nat) (t : list A) :
  out_struct.zip_star ls !! i = Some t ->
  Forall2 (fun l x => l !! i = Some x) ls t.
Proof.
  revert t. induction ls as [|l ls IH]; intros t H; [done|].
  destruct ls as [|l' ls].
  - cbn [out_struct.zip_star] in H. rewrite list_lookup_fmap in H.
    destruct (l !! i) as [x|] eqn:Hx; [|done]. injection H as <-.
    by repeat constructor.
  - change (zip_with cons l (out_struct.zip_star (l' :: ls)) !! i = Some t)
      in H.
    apply lookup_zip_with_Some in H as (x & t' & -> & Hx & Ht').
    constructor; [done | by apply IH].
Qed.

Lemma zip_star_length_le {A} (ls : list (list A)) (l : list A) :
  l ∈ ls -> (length (out_struct.zip_star ls) <= length l)%nat.
Proof.
  induction ls as [|l0 ls IH]; intros Hin; [by apply not_elem_of_nil in Hin|].
  destruct ls as [|l' ls].
  - apply list_elem_of_singleton in Hin as ->.
    cbn [out_struct.zip_star]. by rewrite length_map.
  - change (out_struct.zip_star (l0 :: l' :: ls))
      with (zip_with cons l0 (out_struct.zip_star (l' :: ls))).
    rewrite length_zip_with. apply elem_of_cons in Hin as [->|Hin]; [lia|].
    specialize (IH Hin). lia.
Qed.

Lemma zip_star_length_attained {A} (ls : list (list A)) :
  ls <> [] ->
  exists l, l ∈ ls /\ length l = length (out_struct.zip_star ls).
Proof.
  induction ls as [|l0 ls IH]; intros Hne; [done|].
  destruct ls as [|l' ls].
  - exists l0. split; [by apply list_elem_of_singleton|].
    cbn [out_struct.zip_star]. by rewrite length_map.
  - change (out_struct.zip_star (l0 :: l' :: ls))
      with (zip_with cons l0 (out_struct.zip_star (l' :: ls))).
    rewrite length_zip_with. destruct IH as (l & Hl & Hlen); [done|].
    destruct (Nat.le_ge_cases (length l0)
                (length (out_struct.zip_star (l' :: ls)))).
    + exists l0. split; [apply elem_of_cons; by left | lia].
    + exists l. split; [apply elem_of_cons; by right | lia].
Qed.

Lemma for_each_returned_lookup {A B} (f : A -> out_struct.outcome B)
    (l : list A) (bs : list B) (i : nat) (b : B) :
  out_struct.for_each f l = out_struct.Returned bs ->
  bs !! i = Some b ->
  exists a, l !! i = Some a /\ f a = out_struct.Returned b.
Proof.
  revert bs i. induction l as [|a l IH]; simpl; intros bs i H Hb.
  - injection H as <-. done.
  - destruct (f a) as [b0|e] eqn:Hfa; [|done]. simpl in H.
    destruct (out_struct.for_each f l) as [bs'|e]; [|done].
    injection H as <-. destruct i as [|i].
    + injection Hb as <-. eauto.
    + simpl in Hb. by apply (IH bs' i).
Qed.

Lemma for_each_Forall2 {A B} (f : A -> out_struct.outcome B)
    (l : list A) (bs : list B) :
  out_struct.for_each f l = out_struct.Returned bs ->
  Forall2 (fun a b => f a = out_struct.Returned b) l bs.
Proof.
  revert bs. induction l as [|a l IH]; simpl; intros bs H.
  - injection H as <-. constructor.
  - destruct (f a) as [b0|e] eqn:Hfa; [|done]. simpl in H.
    destruct (out_struct.for_each f l) as [bs'|e]; [|done].
    injection H as <-. constructor; [done | by apply IH].
Qed.

(** X26. When [join_fields] returns a list, the store is as it was and
    the list has as many entries as the shortest of the containers has
    trials (none for no container): the containers need not be of one
    length, and the trials beyond the shortest are left out. Entry [i] is
    the concatenation, along the axis, of the values of the field in trial
    [i] of the containers, in their order. *)
Theorem join_fields_zips_to_the_shortest
    (is_ndarray : V -> bool)
    (np_concatenate : list V -> Z -> out_struct.outcome V)
    st st' (outstructs : list out_struct.t) (fieldname : string) (axis : Z)
    (joined : list V) :
  out_struct.join_fields is_ndarray np_concatenate (map Some outstructs)
    fieldname axis false st
  = (st', out_struct.Returned (inl joined)) ->
  st' = st
  /\ exists starting_fields,
       Forall2 (fun out field =>
                  out_struct.get_field st out fieldname
                  = out_struct.Returned field
                  /\ length field = out_struct.__len__ st out)
         outstructs starting_fields
       /\ (forall field, field ∈ starting_fields ->
             (length joined <= length field)%nat)
       /\ (outstructs <> [] ->
           exists field,
             field ∈ starting_fields /\ length field = length joined)
       /\ (outstructs = [] -> joined = [])
       /\ forall i x,
            joined !! i = Some x ->
            exists field_set,
              Forall2 (fun field v => field !! i = Some v)
                starting_fields field_set
              /\ np_concatenate field_set axis = out_struct.Returned x.
Proof.
  unfold out_struct.join_fields. intros H.
  destruct (out_struct.for_each (out_struct.join_check _ _ _) _); [|done].
  destruct (out_struct.for_each _ (map Some outstructs))
    as [starting_fields|e] eqn:Hfields; [|done].
  destruct (out_struct.for_each _ (out_struct.zip_star starting_fields))
    as [to_return|e] eqn:Hcat; [|done].
  injection H as <- <-. split; [done|]. exists starting_fields.
  assert (Forall2 (fun out field =>
                     out_struct.get_field st out fieldname
                     = out_struct.Returned field)
            outstructs starting_fields) as Hget.
  { apply for_each_Forall2 in Hfields.
    apply Forall2_fmap_l in Hfields. exact Hfields. }
  pose proof (for_each_returned_length _ _ _ Hcat) as Hlen.
  split; [|split; [|split; [|split]]].
  - eapply Forall2_impl; [exact Hget|]. intros out field Hf. split; [done|].
    unfold out_struct.get_field in Hf.
    by apply for_each_returned_length in Hf.
  - intros field Hin. rewrite Hlen. by apply zip_star_length_le.
  - intros Hne. rewrite Hlen. apply zip_star_length_attained.
    intros ->. apply Forall2_nil_inv_r in Hget. done.
  - intros ->. apply Forall2_nil_inv_l in Hget as ->. simpl in Hcat.
    by injection Hcat as <-.
  - intros i x Hx.
    destruct (for_each_returned_lookup _ _ _ i x Hcat Hx)
      as (field_set & Hset & Hconc).
    exists field_set. split; [|done]. by apply zip_star_lookup.
Qed.

End Container.

(** *** Examples *)

Lemma three_trials_at :
  trials_at three_trials_store three_trials [0; 1; 2]%nat.
Proof.
  split; [reflexivity|]. split; [|simpl; lia].
  repeat constructor; simpl; lia.
Qed.

Lemma three_trials_distinct : NoDup [0; 1; 2]%nat.
Proof.
  repeat constructor; rewrite ?elem_of_cons; intros H;
    repeat (destruct H as [H|H]; [lia|]); by apply not_elem_of_nil in H.
Qed.

Lemma three_trials_uniform : uniform three_trials_store [0; 1; 2]%nat.
Proof.
  intros r r' Hr Hr'.
  apply list_elem_of_In in Hr, Hr'. simpl in Hr, Hr'.
  destruct Hr as [<-|[<-|[<-|[]]]]; destruct Hr' as [<-|[<-|[<-|[]]]];
    vm_compute; reflexivity.
Qed.

Lemma set_field_get_field_witness :
  exists st',
    out_struct.set_field three_trials (Some [10; 11; 12]%nat) "resp"
      three_trials_store
    = (st', out_struct.Returned tt)
    /\ out_struct.get_field st' three_trials "resp"
       = out_struct.Returned [10; 11; 12]%nat
    /\ (forall other,
          other <> "resp" ->
          out_struct.get_field st' three_trials other
          = out_struct.get_field three_trials_store three_trials other)
    /\ out_struct.data st' three_trials
       = out_struct.data three_trials_store three_trials.
Proof.
  apply (set_field_get_field three_trials_store three_trials [0; 1; 2]%nat
           [10; 11; 12]%nat "resp" three_trials_at three_trials_distinct).
  reflexivity.
Defined.

Lemma get_field_returns_for_fields_witness :
  exists values,
    out_struct.get_field three_trials_store three_trials "name"
    = out_struct.Returned values
    /\ length values = out_struct.__len__ three_trials_store three_trials.
Proof.
  apply (get_field_returns_for_fields three_trials_store three_trials
           0%nat [1; 2]%nat "name" three_trials_at three_trials_uniform).
  apply list_elem_of_In. simpl. by left.
Defined.

Lemma set_field_keeps_field_order_witness :
  let st' := fst (out_struct.set_field three_trials (Some [10; 11; 12]%nat)
                    "sound" three_trials_store) in
  out_struct.fields st' three_trials
  = out_struct.Returned ["name"; "resp"; "sound"]
  /\ trials_at st' three_trials [0; 1; 2]%nat
  /\ (uniform three_trials_store [0; 1; 2]%nat -> uniform st' [0; 1; 2]%nat).
Proof.
  apply (set_field_keeps_field_order three_trials_store _ three_trials
           0%nat [1; 2]%nat [10; 11; 12]%nat "sound" three_trials_at
           three_trials_distinct).
  reflexivity.
Defined.

Lemma append_adds_last_trial_witness :
  let st' := out_struct.list_append 0 (out_struct.Dict 3) three_trials_store in
  (out_struct.Returned tt = out_struct.Returned tt
   /\ trials_at st' three_trials ([0; 1; 2] ++ [3])%nat
   /\ out_struct.dicts st' = out_struct.dicts three_trials_store
   /\ (true = true ->
       key_set three_trials_store 3 = key_set three_trials_store 0
       /\ (uniform three_trials_store [0; 1; 2]%nat ->
           uniform st' ([0; 1; 2] ++ [3])%nat)))
  \/ (out_struct.Returned tt
      = out_struct.Raised
          (out_struct.Builtin (ValueError out_struct.msg_fields_differ))
      /\ st' = three_trials_store
      /\ true = true
      /\ key_set three_trials_store 3 <> key_set three_trials_store 0).
Proof.
  apply (append_adds_last_trial three_trials_store _ three_trials
           0%nat [1; 2]%nat 3%nat None (out_struct.Returned tt)
           three_trials_at).
  - simpl. lia.
  - vm_compute. reflexivity.
Defined.

Lemma setitem_trial_witness :
  exists st',
    out_struct.__setitem__ three_trials
      (out_struct.SetTrial (-1) out_struct.NotADict) three_trials_store
    = (st', out_struct.Returned tt)
    /\ out_struct.data st' three_trials
       = <[2%nat := out_struct.NotADict]>
           (out_struct.data three_trials_store three_trials)
    /\ out_struct.dicts st' = out_struct.dicts three_trials_store.
Proof.
  apply (setitem_trial three_trials_store three_trials [0; 1; 2]%nat (-1)
           out_struct.NotADict three_trials_at).
  simpl. lia.
Defined.

Lemma getitem_slice_witness :
  exists st' sub,
    out_struct.__getitem__ three_trials (out_struct.Slice (Some 1%Z) None)
      three_trials_store
    = (st', out_struct.Returned (out_struct.AContainer sub))
    /\ trials_at st' sub [1; 2]%nat
    /\ out_struct._strict sub = true
    /\ out_struct._data sub <> 0%nat
    /\ out_struct.dicts st' = out_struct.dicts three_trials_store
    /\ out_struct.data st' three_trials
       = out_struct.data three_trials_store three_trials.
Proof.
  apply (getitem_slice three_trials_store three_trials [0; 1; 2]%nat
           (Some 1%Z) None three_trials_at (fun _ => three_trials_uniform)).
  discriminate.
Defined.

Lemma set_field_through_slice_witness :
  let st1 := fst (out_struct.__getitem__ three_trials
                    (out_struct.Slice (Some 1%Z) None) three_trials_store) in
  let st2 := fst (out_struct.set_field (out_struct.mk 2 true)
                    (Some [10; 11]%nat) "resp" st1) in
  out_struct.data st2 three_trials
  = out_struct.data three_trials_store three_trials
  /\ forall (j r v : nat),
       out_struct.py_slice [0; 1; 2]%nat (Some 1%Z) None !! j = Some r ->
       [10; 11]%nat !! j = Some v ->
       r ∈ [0; 1; 2]%nat
       /\ out_struct.dict_get (out_struct.dict_at st2 r) "resp" = Some v.
Proof.
  intros st1 st2.
  apply (set_field_through_slice three_trials_store st1 st2 three_trials
           (out_struct.mk 2 true) [0; 1; 2]%nat (Some 1%Z) None
           [10; 11]%nat "resp" three_trials_at three_trials_distinct).
  - vm_compute. reflexivity.
  - vm_compute. reflexivity.
Defined.

Lemma getitem_field_names_witness :
  (exists st' sub,
      out_struct.__getitem__ three_trials (out_struct.Strs ["resp"])
        three_trials_store
      = (st', out_struct.Returned (out_struct.AContainer sub))
      /\ out_struct._strict sub = false
      /\ trials_at st' sub [5; 6; 7]%nat)
  /\ snd (out_struct.__getitem__ three_trials
            (out_struct.Strs ["name"; "sound"; "resp"]) three_trials_store)
     = out_struct.Raised (out_struct.Builtin (KeyError "sound")).
Proof.
  destruct (getitem_field_names three_trials_store three_trials 0%nat
              [1; 2]%nat three_trials_at) as [Hsome Hnone].
  split.
  - destruct (Hsome ["resp"]) as (st' & sub & Hrun & Hstrict & Hat & _).
    + discriminate.
    + intros r' name Hr' Hname.
      apply list_elem_of_In in Hr', Hname. simpl in Hr', Hname.
      destruct Hname as [<-|[]].
      destruct Hr' as [<-|[<-|[<-|[]]]]; vm_compute; eauto.
    + exists st', sub. split; [exact Hrun|]. split; [exact Hstrict|].
      exact Hat.
  - apply (Hnone ["name"] "sound" ["resp"]).
    + intros n Hn. apply list_elem_of_In in Hn. simpl in Hn.
      destruct Hn as [<-|[]]. vm_compute. eauto.
    + reflexivity.
Defined.

Lemma join_fields_zips_to_the_shortest_witness :
  three_trials_store = three_trials_store
  /\ exists starting_fields,
       Forall2 (fun out field =>
                  out_struct.get_field three_trials_store out "resp"
                  = out_struct.Returned field
                  /\ length field = out_struct.__len__ three_trials_store out)
         [three_trials; first_two_trials] starting_fields
       /\ (forall field, field ∈ starting_fields ->
             (length [4; 8]%nat <= length field)%nat)
       /\ ([three_trials; first_two_trials] <> [] ->
           exists field,
             field ∈ starting_fields /\ length field = length [4; 8]%nat)
       /\ ([three_trials; first_two_trials] = [] -> [4; 8]%nat = [])
       /\ forall i x,
            [4; 8]%nat !! i = Some x ->
            exists field_set,
              Forall2 (fun field v => field !! i = Some v)
                starting_fields field_set
              /\ out_struct.Returned (foldr Nat.add 0%nat field_set)
                 = out_struct.Returned x.
Proof.
  apply (join_fields_zips_to_the_shortest (fun _ => true)
           (fun arrays _ => out_struct.Returned (foldr Nat.add 0%nat arrays))
           three_trials_store three_trials_store
           [three_trials; first_two_trials] "resp" (-1) [4; 8]%nat).
  vm_compute. reflexivity.
Defined.
